(** * LocationGenerator: static container and loose loot generation

    A shallow embedding of [LocationGenerator] (the class that places static
    containers and loose loot on a map) together with the properties that the
    specification states about it.

    Conventions of the embedding:
    - a JavaScript [number] that holds a probability, a weight or a multiplier
      is a rational ([Q]); a count, a size or a coordinate is an integer ([Z]);
      the product of two numbers is the operation [Number_times] of the
      services, since a product of doubles is rounded;
    - a JavaScript object used as a dictionary ([Record<string, V>]) is the
      association list of its bindings in the order in which JavaScript
      enumerates them, with at most one binding per key: the keys that are
      array indices first, in ascending order, then the other keys in the
      order of their creation; a lookup of an absent key is [None]
      (JavaScript's [undefined]);
    - reading a property of [undefined] throws [TypeError];
    - the injected services (random numbers, fresh ids, item templates, the
      grid allocator, ...) are the fields of the class [Services]; the mutable
      part of the outside world they act on (random stream, id counter) is an
      abstract type [World], threaded explicitly;
    - the logger appends to a list of entries carried next to the world;
    - values are immutable, so [jsonUtil.clone] is the identity; an object
      that the source rewrites in place and that nothing else refers to (the
      item list handed to [reparentItemAndChildren], the template of a chosen
      spawn point) is returned as a rewritten copy, and the table of forced
      spawn points, whose objects can reach the result twice, is a store. *)

From Stdlib Require Import List String ZArith QArith Qround Bool Lia Permutation.
From Stdlib Require Import DecimalString Lqa.
Import ListNotations.
Local Open Scope string_scope.
Local Open Scope Z_scope.
Local Open Scope list_scope.

(** ** JavaScript values *)

Definition truthy_string (s : option string) : bool :=
  match s with
  | Some s => negb (String.eqb s "")
  | None => false
  end.

(** [Math.round]: the nearest integer, halves rounded towards plus infinity. *)
Definition Math_round (q : Q) : Z := Qfloor (q + (1 # 2))%Q.

(** The lengths [Array(n)] accepts for an integer [n]: from 0 to 2^32 - 1. *)
Definition is_array_length (n : Z) : bool := (0 <=? n) && (n <? 2 ^ 32).

(** [x === 1] on numbers. *)
Definition is_one (q : Q) : bool := Qeq_bool q 1.

(** [Array.prototype.includes] on strings. *)
Definition includes (l : list string) (s : string) : bool :=
  existsb (String.eqb s) l.

(** [blacklist?.includes(s)], falsy when the list is [undefined]. *)
Definition opt_includes (l : option (list string)) (s : string) : bool :=
  match l with
  | Some l => includes l s
  | None => false
  end.

(** *** Dictionaries *)

Definition Record_ (V : Type) : Type := list (string * V).

Fixpoint rec_get {V : Type} (r : Record_ V) (k : string) : option V :=
  match r with
  | [] => None
  | (k', v) :: r' => if String.eqb k k' then Some v else rec_get r' k
  end.

(** [m.set(k, v)] on a [Map], which keeps every key in insertion order:
    overwrite in place when the key exists, append otherwise. *)
Fixpoint Map_set {V : Type} (r : Record_ V) (k : string) (v : V) : Record_ V :=
  match r with
  | [] => [(k, v)]
  | (k', v') :: r' =>
      if String.eqb k k' then (k', v) :: r' else (k', v') :: Map_set r' k v
  end.

(** The keys of an object that are array indices: the decimal numerals,
    without sign and without leading zero, of the integers from 0 to
    2^32 - 2. *)
Definition digit_of (c : Ascii.ascii) : option N :=
  let n := Ascii.N_of_ascii c in
  if (48 <=? n)%N && (n <=? 57)%N then Some (n - 48)%N else None.

Fixpoint numeral_value (s : string) (acc : N) : option N :=
  match s with
  | EmptyString => Some acc
  | String c s' =>
      match digit_of c with
      | Some d => numeral_value s' (10 * acc + d)%N
      | None => None
      end
  end.

Definition array_index (k : string) : option N :=
  match k with
  | EmptyString => None
  | String c rest =>
      if Ascii.eqb c (Ascii.ascii_of_N 48) && negb (String.eqb rest EmptyString)
      then None
      else
        match numeral_value k 0 with
        | Some n => if (n <? 2 ^ 32 - 1)%N then Some n else None
        | None => None
        end
  end.

(** The order in which an object enumerates two distinct keys whatever the
    order of their creation: array indices ascending, and before the other
    keys. *)
Definition enumerated_before (k k' : string) : bool :=
  match array_index k, array_index k' with
  | Some i, Some j => (i <? j)%N
  | Some _, None => true
  | None, _ => false
  end.

(** A new key enters the enumeration of an object: after the keys that are
    there, unless it is an array index. *)
Fixpoint insert_key {V : Type} (r : Record_ V) (k : string) (v : V) : Record_ V :=
  match r with
  | [] => [(k, v)]
  | (k', v') :: r' =>
      if enumerated_before k k' then (k, v) :: r
      else (k', v') :: insert_key r' k v
  end.

(** [r[k] = v]: an existing key is overwritten in place, a new one is
    created. *)
Definition rec_set {V : Type} (r : Record_ V) (k : string) (v : V) : Record_ V :=
  match rec_get r k with
  | Some _ => Map_set r k v
  | None => insert_key r k v
  end.

(** [Object.keys(r)], and the order of [for (const k in r)]: the list is in
    the order of enumeration, which [rec_set] keeps. *)
Definition Object_keys {V : Type} (r : Record_ V) : list string := map fst r.

(** ** Data model *)

Module Item.
Record t : Type := mk {
    _id : string;
    _tpl : string;
    parentId : option string;
    slotId : option string;
    (** [location: {x, y, r}] *)
    location : option (Z * Z * Z);
    (** [upd.StackObjectsCount] *)
    upd : option Z
  }.
Definition set_id (i : t) (id : string) : t :=
  mk id (_tpl i) (parentId i) (slotId i) (location i) (upd i).
Definition set_parentId (i : t) (p : option string) : t :=
  mk (_id i) (_tpl i) p (slotId i) (location i) (upd i).
Definition set_upd (i : t) (u : option Z) : t :=
  mk (_id i) (_tpl i) (parentId i) (slotId i) (location i) u.
Definition place (i : t) (x y r : Z) : t :=
  mk (_id i) (_tpl i) (parentId i) (Some "main") (Some (x, y, r)) (upd i).
End Item.

Module SpawnpointTemplate.
Record t : Type := mk {
    Id : string;
    IsAlwaysSpawn : bool;
    Root : string;
    Items : list Item.t
  }.
Definition set_Root (s : t) (r : string) : t :=
  mk (Id s) (IsAlwaysSpawn s) r (Items s).
Definition set_Items (s : t) (l : list Item.t) : t :=
  mk (Id s) (IsAlwaysSpawn s) (Root s) l.
End SpawnpointTemplate.

Module IStaticContainerData.
Record t : Type := mk {
    probability : Q;
    template : SpawnpointTemplate.t
  }.
End IStaticContainerData.

Module IStaticForcedProps.
Record t : Type := mk {
    containerId : string;
    itemTpl : string
  }.
End IStaticForcedProps.

Module IStaticLootDetails.
Record t : Type := mk {
    (** [{count, relativeProbability}] *)
    itemcountDistribution : list (Z * Q);
    (** [{tpl, relativeProbability}] *)
    itemDistribution : list (string * Q)
  }.
End IStaticLootDetails.

(** Opaque to the generator: only handed on to the magazine filler. *)
Definition IStaticAmmoDetails : Type := (string * Q)%type.
Definition StaticAmmoDist : Type := Record_ (list IStaticAmmoDetails).

(** The three tables kept per map under [db.loot.staticContainers]. *)
Module IStaticLootOnMap.
Record t : Type := mk {
    staticWeapons : option (list SpawnpointTemplate.t);
    staticContainers : option (list IStaticContainerData.t);
    staticForced : option (list IStaticForcedProps.t)
  }.
End IStaticLootOnMap.

Module IContainerMinMax.
Record t : Type := mk {
    minContainers : Q;
    maxContainers : Q
  }.
End IContainerMinMax.

Module IStaticContainer.
Record t : Type := mk {
    containersGroups : Record_ IContainerMinMax.t;
    (** [containers[id].groupId] *)
    containers : Record_ string
  }.
End IStaticContainer.

Module Spawnpoint.
Record t : Type := mk {
    locationId : string;
    probability : Q;
    template : SpawnpointTemplate.t;
    (** [{composedKey: {key}, relativeProbability}] *)
    itemDistribution : list (string * Q)
  }.
Definition set_template (s : t) (tm : SpawnpointTemplate.t) : t :=
  mk (locationId s) (probability s) tm (itemDistribution s).
End Spawnpoint.

Module SpawnpointsForced.
Record t : Type := mk {
    locationId : string;
    probability : Q;
    template : SpawnpointTemplate.t
  }.
Definition set_template (s : t) (tm : SpawnpointTemplate.t) : t :=
  mk (locationId s) (probability s) tm.
End SpawnpointsForced.

Module ILooseLoot.
Record t : Type := mk {
    spawnpointCount_mean : Q;
    spawnpointCount_std : Q;
    spawnpointsForced : list SpawnpointsForced.t;
    spawnpoints : list Spawnpoint.t
  }.
End ILooseLoot.

Module ILocationBase.
Record t : Type := mk {
    Id : string;
    Name : string
  }.
End ILocationBase.

(** The part of an item template ([ITemplateItem._props]) the generator reads. *)
Module ITemplateItem.
Record t : Type := mk {
    Width : Z;
    Height : Z;
    StackMinRandom : Z;
    StackMaxRandom : Z;
    (** [Grids[i]._props.{cellsH, cellsV}] *)
    Grids : list (Z * Z);
    ammoCaliber : string
  }.
End ITemplateItem.

Module IPreset.
Record t : Type := mk {
    _id : string;
    _name : string;
    _items : list Item.t
  }.
End IPreset.

Inductive BaseClasses : Type := MONEY | AMMO | WEAPON | AMMO_BOX | MAGAZINE.

Module ContainerRandomisationSettings.
Record t : Type := mk {
    enabled : bool;
    maps : Record_ bool;
    containerTypesToNotRandomise : list string;
    containerGroupMinSizeMultiplier : Q;
    containerGroupMaxSizeMultiplier : Q
  }.
End ContainerRandomisationSettings.

Module ILocationConfig.
Record t : Type := mk {
    containerRandomisationSettings : ContainerRandomisationSettings.t;
    allowDuplicateItemsInStaticContainers : bool;
    fitLootIntoContainerAttempts : Z;
    looseLootMultiplier : Record_ Q;
    staticLootMultiplier : Record_ Q;
    looseLootBlacklist : Record_ (list string);
    forcedLootSingleSpawnById : Record_ (list string);
    minFillLooseMagazinePercent : Q;
    minFillStaticMagazinePercent : Q
  }.
End ILocationConfig.

(** [databaseServer.getTables()], restricted to what the generator reads.
    [locations] maps a location id to its [statics] (group data). *)
Module IDatabaseTables.
Record t : Type := mk {
    loot_staticContainers : Record_ IStaticLootOnMap.t;
    loot_staticLoot : Record_ IStaticLootDetails.t;
    locations_statics : Record_ IStaticContainer.t
  }.
End IDatabaseTables.

Module IContainerItem.
Record t : Type := mk {
    items : list Item.t;
    width : Z;
    height : Z
  }.
End IContainerItem.

Module IContainerGroupCount.
Record t : Type := mk {
    containerIdsWithProbability : Record_ Q;
    chosenCount : Z
  }.
End IContainerGroupCount.

(** Result of [containerHelper.findSlotForItem]. *)
Module FindSlotResult.
Record t : Type := mk {
    success : bool;
    x : Z;
    y : Z;
    rotation : bool
  }.
End FindSlotResult.

Definition ContainerMap : Type := list (list Z).

(** [String.prototype.toLowerCase], on the ASCII letters. *)
Definition lower_ascii (c : Ascii.ascii) : Ascii.ascii :=
  let n := Ascii.nat_of_ascii c in
  if (andb (Nat.leb 65 n) (Nat.leb n 90)) then Ascii.ascii_of_nat (n + 32) else c.

Fixpoint toLowerCase (s : string) : string :=
  match s with
  | EmptyString => EmptyString
  | String c s' => String (lower_ascii c) (toLowerCase s')
  end.

(** [Array.prototype.find]. *)
Definition find_item (p : Item.t -> bool) (l : list Item.t) : option Item.t :=
  List.find p l.

(** [x._id === key] where [key] may be [undefined]. *)
Definition id_is (key : option string) (x : Item.t) : bool :=
  match key with
  | Some k => String.eqb (Item._id x) k
  | None => false
  end.

(** ** Effects: exceptions, the log and the outside world *)

Inductive exn : Type :=
| TypeError
| RangeError
| Error (msg : string).

Inductive Outcome (A : Type) : Type :=
| Ok (a : A)
| Throw (e : exn).
Arguments Ok {A} a.
Arguments Throw {A} e.

Inductive LogLevel : Type := LogError | LogSuccess | LogDebug | LogWarning.

Inductive LogMessage : Type :=
| UnableToFindStaticWeaponData (mapName : string)
| UnableToFindStaticContainerData (mapName : string)
| UnableToFindForcedStaticData (mapName : string)
| AddedGuaranteedContainers (count : nat)
| ContainerRandomisationDisabled (count : nat) (mapName : string)
| GroupHasNoContainers (groupId : string)
| ContainerNotFoundInRandomisable (containerId : string)
| ContainersGeneratedSuccess (count : Z)
| GroupWantsMoreThanPool (groupId : string) (wanted : Z) (poolSize : nat)
| ContainerNotInStatics (containerId : string)
| ContainerAlwaysSpawnsSkipped (containerId groupId : string)
| IgnoringLooseLootLocation (templateId : string)
| SpawnPointCountRequestedVsFound (requested : Z) (found : nat) (mapName : string)
| UnableToAdjustLootItem (itemTpl mapName : string)
| PresetNotFound (tpl presetId presetName : string)
| NoPresetFoundForWeapon (tpl : string)
| UnableToReparentItem (tpl : string).

Definition LogEntry : Type := (LogLevel * LogMessage)%type.

Record State (World : Type) : Type := mkState {
  world : World;
  logs : list LogEntry
}.
Arguments mkState {World} world logs.
Arguments world {World} s.
Arguments logs {World} s.

Definition M (World A : Type) : Type := State World -> Outcome A * State World.

Definition ret {World A : Type} (a : A) : M World A := fun s => (Ok a, s).

Definition throw {World A : Type} (e : exn) : M World A := fun s => (Throw e, s).

Definition bind {World A B : Type} (m : M World A) (k : A -> M World B) : M World B :=
  fun s =>
    match m s with
    | (Ok a, s') => k a s'
    | (Throw e, s') => (Throw e, s')
    end.

(** [try { m } catch (error) { handler; throw error; }] *)
Definition try_rethrow {World A : Type} (m : M World A) (handler : M World unit)
  : M World A :=
  fun s =>
    match m s with
    | (Ok a, s') => (Ok a, s')
    | (Throw e, s') =>
        match handler s' with
        | (Ok _, s'') => (Throw e, s'')
        | (Throw e', s'') => (Throw e', s'')
        end
    end.

Definition logger {World : Type} (lvl : LogLevel) (msg : LogMessage) : M World unit :=
  fun s => (Ok tt, mkState (world s) (logs s ++ [(lvl, msg)])).

(** A service call that only acts on the world. *)
Definition call {World A : Type} (f : World -> A * World) : M World A :=
  fun s => let (a, w) := f (world s) in (Ok a, mkState w (logs s)).

(** A service call that may throw. *)
Definition call_throwing {World A : Type} (f : World -> Outcome A * World)
  : M World A :=
  fun s => let (a, w) := f (world s) in (a, mkState w (logs s)).

Definition lift {World A : Type} (o : Outcome A) : M World A := fun s => (o, s).

(** [x.prop] where [x] may be [undefined]. *)
Definition defined {World A : Type} (o : option A) : M World A :=
  match o with
  | Some a => ret a
  | None => throw TypeError
  end.

Declare Scope monad_scope.
Delimit Scope monad_scope with monad.
Notation "x <- m ;; k" := (bind m (fun x => k))
  (at level 61, m at next level, right associativity) : monad_scope.
Notation "' p <- m ;; k" := (bind m (fun x => let 'p := x in k))
  (at level 61, p pattern, m at next level, right associativity) : monad_scope.
Notation "m ;;; k" := (bind m (fun _ => k))
  (at level 61, right associativity) : monad_scope.
Local Open Scope monad_scope.

(** [for (const x of l) { out.push(f(x)) }] *)
Fixpoint for_each {World A B : Type} (f : A -> M World B) (l : list A)
  : M World (list B) :=
  match l with
  | [] => ret []
  | x :: l' => y <- f x ;; ys <- for_each f l' ;; ret (y :: ys)
  end.

(** [l.filter(p)] for a predicate that may throw. *)
Fixpoint filter_throwing {A : Type} (p : A -> Outcome bool) (l : list A)
  : Outcome (list A) :=
  match l with
  | [] => Ok []
  | x :: l' =>
      match p x with
      | Throw e => Throw e
      | Ok b =>
          match filter_throwing p l' with
          | Throw e => Throw e
          | Ok r => Ok (if b then x :: r else r)
          end
      end
  end.

(** ** Injected services

    The collaborators the generator is constructed with.  Their code is not
    part of [LocationGenerator]; each is a field here, typed by the way the
    generator calls it.  A service that draws random numbers or fresh ids acts
    on the world; [reparentPresets], whose calls the generator wraps in
    [try]/[catch], may throw. *)

Class Services (World : Type) : Type := {
  (** [ObjectId.generate] *)
  generate : World -> string * World;
  (** [RandomUtil.getChance100], [getInt], [randn] and the uniform sample in
      [0, 1) behind every weighted draw *)
  getChance100 : Q -> World -> bool * World;
  getInt : Z -> Z -> World -> Z * World;
  randn : Q -> Q -> World -> Q * World;
  random : World -> Q * World;
  (** the value the sampler gives to [replacement] when [draw] is called
      without it; a constant declared with the sampler *)
  draw_replacement_default : bool;
  (** [ItemHelper]; [getItem] is the second component of the pair the helper
      returns, [undefined] when the template does not exist *)
  getItem : string -> option ITemplateItem.t;
  isOfBaseclass : string -> BaseClasses -> bool;
  getItemSize : list Item.t -> string -> Z * Z;
  findAndReturnChildrenAsItems : list Item.t -> string -> list Item.t;
  addCartridgesToAmmoBox :
    list Item.t -> option ITemplateItem.t -> World -> list Item.t * World;
  fillMagazineWithRandomCartridge :
    list Item.t -> option ITemplateItem.t -> StaticAmmoDist ->
    option string -> option Q -> World -> list Item.t * World;
  (** [PresetHelper], [RagfairServerHelper] *)
  getDefaultPreset : string -> option IPreset.t;
  reparentPresets :
    option Item.t -> list Item.t -> World -> Outcome (list Item.t) * World;
  (** [ContainerHelper] *)
  findSlotForItem : ContainerMap -> Z -> Z -> FindSlotResult.t;
  fillContainerMapWithItem :
    ContainerMap -> Z -> Z -> Z -> Z -> bool -> ContainerMap;
  (** [SeasonalEventService] *)
  seasonalEventEnabled : bool;
  getAllSeasonalEventItems : list string;
  (** [DatabaseServer.getTables], [ConfigServer.getConfig(LOCATION)] *)
  getTables : IDatabaseTables.t;
  locationConfig : ILocationConfig.t;
  (** the [Money] enumeration of currency template ids *)
  Money_ROUBLES : string;
  Money_DOLLARS : string;
  Money_EUROS : string;
  (** [a * b] on numbers: the machine rounds the exact product to the nearest
      double, and the embedding leaves the rounding open *)
  Number_times : Q -> Q -> Q
}.

(** ** The weighted sampler *)

Module ProbabilityObject.
Record t (K D : Type) : Type := mk {
  key : K;
  relativeProbability : Q;
  data : option D
}.
Arguments mk {K D} key relativeProbability data.
Arguments key {K D} t.
Arguments relativeProbability {K D} t.
Arguments data {K D} t.
End ProbabilityObject.

Definition ProbabilityObjectArray (K D : Type) : Type :=
  list (ProbabilityObject.t K D).

Definition Qlt_bool (a b : Q) : bool := negb (Qle_bool b a).

Definition total_weight {K D : Type} (pool : ProbabilityObjectArray K D) : Q :=
  fold_right (fun o acc => (ProbabilityObject.relativeProbability o + acc)%Q) 0%Q pool.

(** The first index whose cumulative weight exceeds [target]. *)
Fixpoint index_above {K D : Type} (target acc : Q)
  (pool : ProbabilityObjectArray K D) : option nat :=
  match pool with
  | [] => None
  | o :: rest =>
      let acc' := (acc + ProbabilityObject.relativeProbability o)%Q in
      if Qlt_bool target acc' then Some O
      else option_map S (index_above target acc' rest)
  end.

(** Modelled from the spec: the selection step of the weighted sampler, which
    is not part of [LocationGenerator].  Entry [i] is chosen with probability
    [weight_i / sum of the remaining weights]: a uniform sample [u] of [0, 1)
    selects the entry whose slice of the cumulated weights contains
    [u * total].  An entry of weight 0 is never selected and a pool whose
    weights are all 0 selects nothing. *)
Definition weighted_index {K D : Type} (u : Q)
  (pool : ProbabilityObjectArray K D) : option nat :=
  index_above (u * total_weight pool)%Q 0%Q pool.

Fixpoint remove_nth {A : Type} (i : nat) (l : list A) : list A :=
  match l, i with
  | [], _ => []
  | _ :: l', O => l'
  | x :: l', S i' => x :: remove_nth i' l'
  end.

(** [for (i = 0; i < count; i++)] runs no iteration for a count that is not
    positive, nor for [NaN] (here [None]). *)
Definition iterations (count : option Z) : nat :=
  match count with
  | Some z => Z.to_nat z
  | None => O
  end.

(** Modelled from the spec: [ProbabilityObjectArray.draw(count, replacement,
    locklist)], which is not part of [LocationGenerator].  It returns at most
    [count] keys; every step selects an entry by proportional weight; a drawn
    entry is removed from the pool for the later steps of the same call unless
    the draw is with replacement or its key is on the lock list; an exhausted
    pool, or one with nothing left to select, ends the draw short. *)
Fixpoint draw_steps {World : Type} {services : Services World} {K D : Type}
  (locked : K -> bool) (n : nat) (replacement : bool)
  (pool : ProbabilityObjectArray K D) (w : World) : list K * World :=
  match n with
  | O => ([], w)
  | S n' =>
      match pool with
      | [] => ([], w)
      | _ :: _ =>
          let (u, w1) := random w in
          match weighted_index u pool with
          | None => ([], w1)
          | Some i =>
              match nth_error pool i with
              | None => ([], w1)
              | Some o =>
                  let k := ProbabilityObject.key o in
                  let pool' :=
                    if orb replacement (locked k) then pool else remove_nth i pool in
                  let (ks, w2) := draw_steps locked n' replacement pool' w1 in
                  (k :: ks, w2)
              end
          end
      end
  end.

Definition draw {World : Type} {services : Services World} {K D : Type}
  (eqb : K -> K -> bool) (pool : ProbabilityObjectArray K D)
  (count : option Z) (replacement : bool) (locklist : list K)
  : M World (list K) :=
  call (draw_steps (fun k => existsb (eqb k) locklist) (iterations count)
          replacement pool).

(** [draw(count)], the call with the later arguments omitted: [replacement]
    takes its default and no key is locked. *)
Definition draw_count {World : Type} {services : Services World} {K D : Type}
  (eqb : K -> K -> bool) (pool : ProbabilityObjectArray K D)
  (count : option Z) : M World (list K) :=
  draw eqb pool count draw_replacement_default [].

(** Modelled from the spec: [ProbabilityObjectArray.data(key)], the payload
    that was pushed together with [key]. *)
Definition data_of {K D : Type} (eqb : K -> K -> bool)
  (pool : ProbabilityObjectArray K D) (k : K) : option D :=
  match List.find (fun o => eqb (ProbabilityObject.key o) k) pool with
  | Some o => ProbabilityObject.data o
  | None => None
  end.

(** ** LocationGenerator *)

Section LocationGenerator.
Context {World : Type} {services : Services World}.

Definition containerTypesToNotRandomise : list string :=
  ContainerRandomisationSettings.containerTypesToNotRandomise
    (ILocationConfig.containerRandomisationSettings locationConfig).

(** [x.template.Items[0]._tpl] *)
Definition first_tpl (t : SpawnpointTemplate.t) : Outcome string :=
  match SpawnpointTemplate.Items t with
  | i :: _ => Ok (Item._tpl i)
  | [] => Throw TypeError
  end.

(** The predicate of [getRandomisableContainersOnMap]:
    [x.probability !== 1 && !x.template.IsAlwaysSpawn
     && !containerTypesToNotRandomise.includes(x.template.Items[0]._tpl)] *)
Definition isRandomisable (x : IStaticContainerData.t) : Outcome bool :=
  if negb (is_one (IStaticContainerData.probability x)) then
    if negb (SpawnpointTemplate.IsAlwaysSpawn (IStaticContainerData.template x)) then
      match first_tpl (IStaticContainerData.template x) with
      | Ok tpl => Ok (negb (includes containerTypesToNotRandomise tpl))
      | Throw e => Throw e
      end
    else Ok false
  else Ok false.

(** The predicate of [getGuaranteedContainers]:
    [x.probability === 1 || x.template.IsAlwaysSpawn
     || containerTypesToNotRandomise.includes(x.template.Items[0]._tpl)] *)
Definition isGuaranteed (x : IStaticContainerData.t) : Outcome bool :=
  if is_one (IStaticContainerData.probability x) then Ok true
  else if SpawnpointTemplate.IsAlwaysSpawn (IStaticContainerData.template x) then Ok true
  else
    match first_tpl (IStaticContainerData.template x) with
    | Ok tpl => Ok (includes containerTypesToNotRandomise tpl)
    | Throw e => Throw e
    end.

Definition getRandomisableContainersOnMap
  (staticContainers : option (list IStaticContainerData.t))
  : Outcome (list IStaticContainerData.t) :=
  match staticContainers with
  | None => Throw TypeError
  | Some l => filter_throwing isRandomisable l
  end.

Definition getGuaranteedContainers
  (staticContainersOnMap : option (list IStaticContainerData.t))
  : Outcome (list IStaticContainerData.t) :=
  match staticContainersOnMap with
  | None => Throw TypeError
  | Some l => filter_throwing isGuaranteed l
  end.

(** The weighted pool of a group, one entry per container id. *)
Definition containerDistribution (containerIdsWithProbability : Record_ Q)
  : ProbabilityObjectArray string unit :=
  map (fun kv => ProbabilityObject.mk (fst kv) (snd kv) None)
    containerIdsWithProbability.

Definition getContainersByProbabilty (groupId : string)
  (containerData : IContainerGroupCount.t) : M World (list string) :=
  let containerIds :=
    Object_keys (IContainerGroupCount.containerIdsWithProbability containerData) in
  if Z.of_nat (List.length containerIds) <? IContainerGroupCount.chosenCount containerData
  then
    logger LogDebug
      (GroupWantsMoreThanPool groupId
         (IContainerGroupCount.chosenCount containerData)
         (List.length containerIds)) ;;;
    ret containerIds
  else
    draw_count String.eqb
      (containerDistribution
         (IContainerGroupCount.containerIdsWithProbability containerData))
      (Some (IContainerGroupCount.chosenCount containerData)).

(** First loop of [getGroupIdToContainerMappings]: one entry per group id,
    with the count of containers the map will spawn for it. *)
Fixpoint chooseGroupCounts (groups : Record_ IContainerMinMax.t)
  (mapping : Record_ IContainerGroupCount.t)
  : M World (Record_ IContainerGroupCount.t) :=
  match groups with
  | [] => ret mapping
  | (groupId, groupData) :: rest =>
      match rec_get mapping groupId with
      | Some _ => chooseGroupCounts rest mapping
      | None =>
          let settings := ILocationConfig.containerRandomisationSettings locationConfig in
          chosen <- call (getInt
            (Math_round (Number_times (IContainerMinMax.minContainers groupData)
               (ContainerRandomisationSettings.containerGroupMinSizeMultiplier settings)))
            (Math_round (Number_times (IContainerMinMax.maxContainers groupData)
               (ContainerRandomisationSettings.containerGroupMaxSizeMultiplier settings)))) ;;
          chooseGroupCounts rest
            (rec_set mapping groupId (IContainerGroupCount.mk [] chosen))
      end
  end.

(** Second loop: every container goes to the entry of its group. *)
Fixpoint assignContainersToGroups (containers : Record_ string)
  (staticContainersOnMap : list IStaticContainerData.t)
  (mapping : Record_ IContainerGroupCount.t)
  : M World (Record_ IContainerGroupCount.t) :=
  match staticContainersOnMap with
  | [] => ret mapping
  | container :: rest =>
      let id := SpawnpointTemplate.Id (IStaticContainerData.template container) in
      match rec_get containers id with
      | None =>
          logger LogError (ContainerNotInStatics id) ;;;
          assignContainersToGroups containers rest mapping
      | Some groupId =>
          if is_one (IStaticContainerData.probability container) then
            logger LogDebug (ContainerAlwaysSpawnsSkipped id groupId) ;;;
            assignContainersToGroups containers rest mapping
          else
            group <- defined (rec_get mapping groupId) ;;
            assignContainersToGroups containers rest
              (rec_set mapping groupId
                 (IContainerGroupCount.mk
                    (rec_set (IContainerGroupCount.containerIdsWithProbability group)
                       id (IStaticContainerData.probability container))
                    (IContainerGroupCount.chosenCount group)))
      end
  end.

Definition getGroupIdToContainerMappings
  (staticContainerGroupData : IStaticContainer.t)
  (staticContainersOnMap : list IStaticContainerData.t)
  : M World (Record_ IContainerGroupCount.t) :=
  mapping <- chooseGroupCounts
    (IStaticContainer.containersGroups staticContainerGroupData) [] ;;
  assignContainersToGroups (IStaticContainer.containers staticContainerGroupData)
    staticContainersOnMap
    (rec_set mapping "" (IContainerGroupCount.mk [] (-1))).

(** [Array(height).fill(0).map(() => Array(width).fill(0))]: [Array(n)]
    throws [RangeError] unless [n] is a valid array length, and the rows are
    made by the callback of [map], which runs once per row: the width is
    looked at only when there is a row. *)
Definition getContainerMapping (containerTpl : string) : M World ContainerMap :=
  containerTemplate <- defined (getItem containerTpl) ;;
  '(cellsH, cellsV) <- defined (hd_error (ITemplateItem.Grids containerTemplate)) ;;
  if negb (is_array_length cellsV) then throw RangeError
  else if (0 <? cellsV) && negb (is_array_length cellsH) then throw RangeError
  else ret (repeat (repeat 0 (Z.to_nat cellsH)) (Z.to_nat cellsV)).

Definition getStaticLootMultiplerForLocation (location : string) : option Q :=
  rec_get (ILocationConfig.staticLootMultiplier locationConfig) location.

Definition getLooseLootMultiplerForLocation (location : string) : option Q :=
  rec_get (ILocationConfig.looseLootMultiplier locationConfig) location.

(** [Math.round(multiplier * drawn)], [NaN] ([None]) when a factor is
    [undefined]. *)
Definition rounded_product (multiplier drawn : option Q) : option Z :=
  match multiplier, drawn with
  | Some m, Some d => Some (Math_round (Number_times m d))
  | _, _ => None
  end.

Definition getWeightedCountOfContainerItems (containerTypeId : string)
  (staticLootDist : Record_ IStaticLootDetails.t) (locationName : string)
  : M World (option Z) :=
  details <- defined (rec_get staticLootDist containerTypeId) ;;
  let itemCountArray : ProbabilityObjectArray Z unit :=
    map (fun d => ProbabilityObject.mk (fst d) (snd d) None)
      (IStaticLootDetails.itemcountDistribution details) in
  drawn <- draw_count Z.eqb itemCountArray (Some 1) ;;
  ret (rounded_product (getStaticLootMultiplerForLocation locationName)
         (option_map inject_Z (hd_error drawn))).

Definition getPossibleLootItemsForContainer (containerTypeId : string)
  (staticLootDist : Record_ IStaticLootDetails.t)
  : M World (ProbabilityObjectArray string unit) :=
  details <- defined (rec_get staticLootDist containerTypeId) ;;
  ret (map (fun icd => ProbabilityObject.mk (fst icd) (snd icd) None)
         (filter
            (fun icd =>
               negb (negb seasonalEventEnabled &&
                     includes getAllSeasonalEventItems (fst icd)))
            (IStaticLootDetails.itemDistribution details))).

(** [items.splice(items.indexOf(magazine), 1, ...replacement)], [magazine]
    being the first element that satisfies [p]. *)
Fixpoint splice_first (p : Item.t -> bool) (replacement : list Item.t)
  (items : list Item.t) : list Item.t :=
  match items with
  | [] => []
  | x :: rest =>
      if p x then replacement ++ rest else x :: splice_first p replacement rest
  end.

Definition is_magazine_slot (x : Item.t) : bool :=
  match Item.slotId x with
  | Some s => String.eqb s "mod_magazine"
  | None => false
  end.

(** The weapon branch of [createStaticLootItem]; [items] holds the new root
    node alone. *)
Definition createStaticWeapon (tpl : string) (itemTemplate : ITemplateItem.t)
  (staticAmmoDist : StaticAmmoDist) (rootItem : Item.t)
  : M World IContainerItem.t :=
  children <-
    match getDefaultPreset tpl with
    | Some defaultPreset =>
        try_rethrow
          (call_throwing
             (reparentPresets (hd_error (IPreset._items defaultPreset))
                (IPreset._items defaultPreset)))
          (logger LogWarning
             (PresetNotFound tpl (IPreset._id defaultPreset)
                (IPreset._name defaultPreset)))
    | None =>
        logger LogDebug (NoPresetFoundForWeapon tpl) ;;;
        ret []
    end ;;
  items <-
    try_rethrow
      (match children with
       | _ :: _ => call_throwing (reparentPresets (Some rootItem) children)
       | [] => ret [rootItem]
       end)
      (logger LogError (UnableToReparentItem tpl)) ;;
  items <-
    match List.find is_magazine_slot items with
    | Some magazine =>
        magazineWithCartridges <-
          call (fillMagazineWithRandomCartridge [magazine]
                  (getItem (Item._tpl magazine)) staticAmmoDist
                  (Some (ITemplateItem.ammoCaliber itemTemplate)) None) ;;
        ret (splice_first is_magazine_slot magazineWithCartridges items)
    | None => ret items
    end ;;
  let size := getItemSize items (Item._id rootItem) in
  ret (IContainerItem.mk items (fst size) (snd size)).

Definition createStaticLootItem (tpl : string) (staticAmmoDist : StaticAmmoDist)
  (parentId : option string) : M World IContainerItem.t :=
  itemTemplate <- defined (getItem tpl) ;;
  let width := ITemplateItem.Width itemTemplate in
  let height := ITemplateItem.Height itemTemplate in
  id <- call generate ;;
  let root :=
    Item.mk id tpl (if truthy_string parentId then parentId else None)
      None None None in
  if isOfBaseclass tpl MONEY || isOfBaseclass tpl AMMO then
    stackCount <- call (getInt (ITemplateItem.StackMinRandom itemTemplate)
                          (ITemplateItem.StackMaxRandom itemTemplate)) ;;
    ret (IContainerItem.mk [Item.set_upd root (Some stackCount)] width height)
  else if isOfBaseclass tpl WEAPON then
    createStaticWeapon tpl itemTemplate staticAmmoDist root
  else if isOfBaseclass tpl AMMO_BOX then
    items <- call (addCartridgesToAmmoBox [root] (Some itemTemplate)) ;;
    ret (IContainerItem.mk items width height)
  else if isOfBaseclass tpl MAGAZINE then
    magazineWithCartridges <-
      call (fillMagazineWithRandomCartridge [root] (Some itemTemplate)
              staticAmmoDist None
              (Some (ILocationConfig.minFillStaticMagazinePercent locationConfig / 100)%Q)) ;;
    ret (IContainerItem.mk magazineWithCartridges width height)
  else
    ret (IContainerItem.mk [root] width height).

(** The placement loop of [addLootToContainer].  [placed] are the items pushed
    onto the container so far, after its own root node. *)
Fixpoint placeLoot (staticAmmoDist : StaticAmmoDist) (parentId : string)
  (tplsToAddToContainer : list string) (containerMap : ContainerMap)
  (failedToFitCount : Z) (placed : list Item.t) : M World (list Item.t) :=
  match tplsToAddToContainer with
  | [] => ret placed
  | tplToAdd :: rest =>
      chosenItemWithChildren <-
        createStaticLootItem tplToAdd staticAmmoDist (Some parentId) ;;
      let items := IContainerItem.items chosenItemWithChildren in
      let width := IContainerItem.width chosenItemWithChildren in
      let height := IContainerItem.height chosenItemWithChildren in
      let result := findSlotForItem containerMap width height in
      if negb (FindSlotResult.success result) then
        if ILocationConfig.fitLootIntoContainerAttempts locationConfig <=? failedToFitCount
        then ret placed
        else placeLoot staticAmmoDist parentId rest containerMap
               (failedToFitCount + 1) placed
      else
        let containerMap' :=
          fillContainerMapWithItem containerMap (FindSlotResult.x result)
            (FindSlotResult.y result) width height (FindSlotResult.rotation result) in
        let rotation := if FindSlotResult.rotation result then 1 else 0 in
        match items with
        | [] => throw TypeError
        | first :: others =>
            placeLoot staticAmmoDist parentId rest containerMap' failedToFitCount
              (placed ++
               Item.place first (FindSlotResult.x result) (FindSlotResult.y result)
                 rotation :: others)
        end
  end.

Definition locklist : list string := [Money_ROUBLES; Money_DOLLARS; Money_EUROS].

Definition addLootToContainer (staticContainer : IStaticContainerData.t)
  (staticForced : option (list IStaticForcedProps.t))
  (staticLootDist : Record_ IStaticLootDetails.t)
  (staticAmmoDist : StaticAmmoDist) (locationName : string)
  : M World IStaticContainerData.t :=
  let template := IStaticContainerData.template staticContainer in
  match SpawnpointTemplate.Items template with
  | [] => throw TypeError
  | containerRoot :: containerItems =>
      let containerTpl := Item._tpl containerRoot in
      parentId <- call generate ;;
      containerMap <- getContainerMapping containerTpl ;;
      itemCountToAdd <-
        getWeightedCountOfContainerItems containerTpl staticLootDist locationName ;;
      containerLootPool <-
        getPossibleLootItemsForContainer containerTpl staticLootDist ;;
      forced <- defined staticForced ;;
      let tplsForced :=
        map IStaticForcedProps.itemTpl
          (filter
             (fun x => String.eqb (IStaticForcedProps.containerId x)
                         (SpawnpointTemplate.Id template))
             forced) in
      chosenTpls <-
        draw String.eqb containerLootPool itemCountToAdd
          (ILocationConfig.allowDuplicateItemsInStaticContainers locationConfig)
          locklist ;;
      placed <- placeLoot staticAmmoDist parentId (tplsForced ++ chosenTpls)
                  containerMap 0 [] ;;
      ret (IStaticContainerData.mk
             (IStaticContainerData.probability staticContainer)
             (SpawnpointTemplate.mk
                (SpawnpointTemplate.Id template)
                (SpawnpointTemplate.IsAlwaysSpawn template)
                parentId
                (Item.set_id containerRoot parentId :: containerItems ++ placed)))
  end.

(** The special case of the group without id: every container rolls its own
    probability and is kept when the roll passes. *)
Fixpoint rollContainers (containerIdsCopy rolled : Record_ Q) (w : World)
  : Record_ Q * World :=
  match containerIdsCopy with
  | [] => (rolled, w)
  | (containerId, probability) :: rest =>
      let (passed, w') := getChance100 (Number_times probability 100) w in
      rollContainers rest
        (if passed then rec_set rolled containerId probability else rolled) w'
  end.

(** Inner loop of [generateStaticContainers]: the chosen ids are looked up
    among the randomisable containers and filled with loot. *)
Fixpoint addChosenContainers
  (staticRandomisableContainersOnMap : list IStaticContainerData.t)
  (staticForcedOnMap : option (list IStaticForcedProps.t))
  (staticLootDist : Record_ IStaticLootDetails.t)
  (staticAmmoDist : StaticAmmoDist) (locationId : string)
  (chosenContainerIds : list string) : M World (list SpawnpointTemplate.t) :=
  match chosenContainerIds with
  | [] => ret []
  | chosenContainerId :: rest =>
      match List.find
              (fun x => String.eqb
                          (SpawnpointTemplate.Id (IStaticContainerData.template x))
                          chosenContainerId)
              staticRandomisableContainersOnMap with
      | None =>
          logger LogDebug (ContainerNotFoundInRandomisable "undefined") ;;;
          addChosenContainers staticRandomisableContainersOnMap staticForcedOnMap
            staticLootDist staticAmmoDist locationId rest
      | Some containerObject =>
          containerWithLoot <-
            addLootToContainer containerObject staticForcedOnMap staticLootDist
              staticAmmoDist locationId ;;
          others <-
            addChosenContainers staticRandomisableContainersOnMap staticForcedOnMap
              staticLootDist staticAmmoDist locationId rest ;;
          ret (IStaticContainerData.template containerWithLoot :: others)
      end
  end.

(** The ids chosen for one group: the body of the loop over the groups, up to
    the call of [getContainersByProbabilty]. *)
Definition chooseContainersOfGroup (groupId : string)
  (data : IContainerGroupCount.t) : M World (list string) :=
  if IContainerGroupCount.chosenCount data =? 0 then ret []
  else
    match IContainerGroupCount.containerIdsWithProbability data with
    | [] => logger LogDebug (GroupHasNoContainers groupId) ;;; ret []
    | _ :: _ =>
        if String.eqb groupId "" then
          rolled <- call (rollContainers
                            (IContainerGroupCount.containerIdsWithProbability data) []) ;;
          let data' :=
            IContainerGroupCount.mk rolled (Z.of_nat (List.length (Object_keys rolled))) in
          if IContainerGroupCount.chosenCount data' =? 0 then ret []
          else getContainersByProbabilty groupId data'
        else getContainersByProbabilty groupId data
    end.

(** The loop over the groups of the mapping. *)
Fixpoint addContainerGroups
  (staticRandomisableContainersOnMap : list IStaticContainerData.t)
  (staticForcedOnMap : option (list IStaticForcedProps.t))
  (staticLootDist : Record_ IStaticLootDetails.t)
  (staticAmmoDist : StaticAmmoDist) (locationId : string)
  (mapping : Record_ IContainerGroupCount.t) : M World (list SpawnpointTemplate.t) :=
  match mapping with
  | [] => ret []
  | (groupId, data) :: rest =>
      chosenContainerIds <- chooseContainersOfGroup groupId data ;;
      added <-
        addChosenContainers staticRandomisableContainersOnMap staticForcedOnMap
          staticLootDist staticAmmoDist locationId chosenContainerIds ;;
      others <-
        addContainerGroups staticRandomisableContainersOnMap staticForcedOnMap
          staticLootDist staticAmmoDist locationId rest ;;
      ret (added ++ others)
  end.

Definition containerRandomisationEnabled (locationId : string) : bool :=
  let settings := ILocationConfig.containerRandomisationSettings locationConfig in
  ContainerRandomisationSettings.enabled settings &&
  match rec_get (ContainerRandomisationSettings.maps settings) locationId with
  | Some b => b
  | None => false
  end.

Definition templates_of
  (f : IStaticContainerData.t -> M World IStaticContainerData.t)
  (l : list IStaticContainerData.t) : M World (list SpawnpointTemplate.t) :=
  for_each (fun c => c' <- f c ;; ret (IStaticContainerData.template c')) l.

(** [db.loot.staticContainers[name]?.field] *)
Definition staticLootField {A : Type} (field : IStaticLootOnMap.t -> option A)
  (name : string) : option A :=
  match rec_get (IDatabaseTables.loot_staticContainers getTables) name with
  | Some lootOnMap => field lootOnMap
  | None => None
  end.

(** [if (!table) { logger.error(...) }] *)
Definition error_if_missing {A : Type} (table : option A) (msg : LogMessage)
  : M World unit :=
  match table with
  | None => logger LogError msg
  | Some _ => ret tt
  end.

(** [table ?? []] *)
Definition or_empty {A : Type} (table : option (list A)) : list A :=
  match table with
  | Some l => l
  | None => []
  end.

Definition generateStaticContainers (locationBase : ILocationBase.t)
  (staticAmmoDist : StaticAmmoDist) : M World (list SpawnpointTemplate.t) :=
  let locationId := toLowerCase (ILocationBase.Id locationBase) in
  let name := ILocationBase.Name locationBase in
  let staticWeaponsOnMap := staticLootField IStaticLootOnMap.staticWeapons name in
  error_if_missing staticWeaponsOnMap (UnableToFindStaticWeaponData name) ;;;
  let weapons := or_empty staticWeaponsOnMap in
  let allStaticContainersOnMap :=
    staticLootField IStaticLootOnMap.staticContainers name in
  error_if_missing allStaticContainersOnMap (UnableToFindStaticContainerData name) ;;;
  staticRandomisableContainersOnMap <-
    lift (getRandomisableContainersOnMap allStaticContainersOnMap) ;;
  let staticForcedOnMap := staticLootField IStaticLootOnMap.staticForced name in
  error_if_missing staticForcedOnMap (UnableToFindForcedStaticData name) ;;;
  let staticLootDist := IDatabaseTables.loot_staticLoot getTables in
  guaranteedContainers <- lift (getGuaranteedContainers allStaticContainersOnMap) ;;
  let fill c :=
    addLootToContainer c staticForcedOnMap staticLootDist staticAmmoDist locationId in
  guaranteed <- templates_of fill guaranteedContainers ;;
  logger LogSuccess (AddedGuaranteedContainers (List.length guaranteedContainers)) ;;;
  if negb (containerRandomisationEnabled locationId) then
    logger LogDebug
      (ContainerRandomisationDisabled
         (List.length staticRandomisableContainersOnMap) name) ;;;
    randomisable <- templates_of fill staticRandomisableContainersOnMap ;;
    ret (weapons ++ guaranteed ++ randomisable)
  else
    staticContainerGroupData <-
      defined (rec_get (IDatabaseTables.locations_statics getTables) locationId) ;;
    mapping <-
      getGroupIdToContainerMappings staticContainerGroupData
        staticRandomisableContainersOnMap ;;
    chosen <-
      addContainerGroups staticRandomisableContainersOnMap staticForcedOnMap
        staticLootDist staticAmmoDist locationId mapping ;;
    logger LogSuccess
      (ContainersGeneratedSuccess
         (Z.of_nat (List.length guaranteedContainers + List.length chosen))) ;;;
    ret (weapons ++ guaranteed ++ chosen).

(** [reparentItemAndChildren(itemWithChildren)], the new id being generated
    by the default value of the second parameter. *)
Definition reparentItemAndChildren (itemWithChildren : list Item.t)
  : M World (list Item.t) :=
  newId <- call generate ;;
  match itemWithChildren with
  | [] => throw TypeError
  | root :: rest =>
      let oldId := Item._id root in
      ret (map
             (fun item =>
                match Item.parentId item with
                | Some p =>
                    if String.eqb p oldId then Item.set_parentId item (Some newId)
                    else item
                | None => item
                end)
             (Item.set_id root newId :: rest))
  end.

Definition createDynamicLootItem (chosenComposedKey : option string)
  (spawnPoint : Spawnpoint.t) (staticAmmoDist : StaticAmmoDist)
  : M World IContainerItem.t :=
  let templateItems := SpawnpointTemplate.Items (Spawnpoint.template spawnPoint) in
  chosenItem <- defined (find_item (id_is chosenComposedKey) templateItems) ;;
  let chosenTpl := Item._tpl chosenItem in
  itemWithMods <-
    (if isOfBaseclass chosenTpl MONEY || isOfBaseclass chosenTpl AMMO then
       itemTemplate <- defined (getItem chosenTpl) ;;
       stackCount <- call (getInt (ITemplateItem.StackMinRandom itemTemplate)
                             (ITemplateItem.StackMaxRandom itemTemplate)) ;;
       id <- call generate ;;
       ret [Item.mk id chosenTpl None None None (Some stackCount)]
     else if isOfBaseclass chosenTpl AMMO_BOX then
       id <- call generate ;;
       call (addCartridgesToAmmoBox [Item.mk id chosenTpl None None None None]
               (getItem chosenTpl))
     else if isOfBaseclass chosenTpl MAGAZINE then
       id <- call generate ;;
       call (fillMagazineWithRandomCartridge
               [Item.mk id chosenTpl None None None None] (getItem chosenTpl)
               staticAmmoDist None
               (Some (ILocationConfig.minFillLooseMagazinePercent locationConfig / 100)%Q))
     else
       reparentItemAndChildren
         (findAndReturnChildrenAsItems templateItems (Item._id chosenItem))) ;;
  first <- defined (hd_error itemWithMods) ;;
  let size := getItemSize itemWithMods (Item._id first) in
  ret (IContainerItem.mk itemWithMods (fst size) (snd size)).

(** [li.Root = objectId.generate(); li.Items[0]._id = li.Root] *)
Definition rerootTemplate (template : SpawnpointTemplate.t)
  : M World SpawnpointTemplate.t :=
  root <- call generate ;;
  match SpawnpointTemplate.Items template with
  | [] => throw TypeError
  | first :: others =>
      ret (SpawnpointTemplate.mk (SpawnpointTemplate.Id template)
             (SpawnpointTemplate.IsAlwaysSpawn template) root
             (Item.set_id first root :: others))
  end.

Definition forced_tpl (x : SpawnpointsForced.t) : Outcome string :=
  first_tpl (SpawnpointsForced.template x).

(** *** The forced spawn points as a store

    The templates that [addForcedLoot] puts on the result are the objects of
    the table of forced spawn points, rewritten in place: an object that is
    put there twice shows its last root in both places.  The table is
    threaded as a store, an entry of the result is a position of the table,
    and the positions are read when the function returns. *)

Definition indexed {A : Type} (l : list A) : list (nat * A) :=
  combine (seq 0 (List.length l)) l.

(** [table[position].template] rewritten by [rerootTemplate]. *)
Fixpoint rerootAt (table : list SpawnpointsForced.t) (position : nat)
  : M World (list SpawnpointsForced.t) :=
  match table, position with
  | [], _ => throw TypeError
  | x :: rest, O =>
      template <- rerootTemplate (SpawnpointsForced.template x) ;;
      ret (SpawnpointsForced.set_template x template :: rest)
  | x :: rest, S before =>
      rest' <- rerootAt rest before ;;
      ret (x :: rest')
  end.

Definition templatesAt (table : list SpawnpointsForced.t) (positions : list nat)
  : list SpawnpointTemplate.t :=
  flat_map
    (fun position =>
       match nth_error table position with
       | Some x => [SpawnpointsForced.template x]
       | None => []
       end)
    positions.

(** The loop over the drawn location ids: the position that has the id is
    re-rooted and put on the result. *)
Fixpoint pushDrawn (items : list (nat * SpawnpointsForced.t))
  (drawn : list string) (table : list SpawnpointsForced.t)
  : M World (list nat * list SpawnpointsForced.t) :=
  match drawn with
  | [] => ret ([], table)
  | spawnPointLocationId :: rest =>
      itemToAdd <-
        defined (List.find
                   (fun x => String.eqb (SpawnpointsForced.locationId (snd x))
                               spawnPointLocationId)
                   items) ;;
      table1 <- rerootAt table (fst itemToAdd) ;;
      '(others, table2) <- pushDrawn items rest table1 ;;
      ret (fst itemToAdd :: others, table2)
  end.

(** First part of [addForcedLoot]: one position for every item that must
    spawn once on the map. *)
Fixpoint addSingleSpawnLoot (table : list SpawnpointsForced.t)
  (locationName : string) (lootToForceSingleAmountOnMap : list string)
  : M World (list nat * list SpawnpointsForced.t) :=
  match lootToForceSingleAmountOnMap with
  | [] => ret ([], table)
  | itemTpl :: rest =>
      items <-
        lift (filter_throwing
                (fun x =>
                   match forced_tpl (snd x) with
                   | Ok tpl => Ok (String.eqb tpl itemTpl)
                   | Throw e => Throw e
                   end)
                (indexed table)) ;;
      '(added, table1) <-
        match items with
        | [] =>
            logger LogDebug (UnableToAdjustLootItem itemTpl locationName) ;;;
            ret ([], table)
        | _ :: _ =>
            let spawnpointArray : ProbabilityObjectArray string SpawnpointsForced.t :=
              map (fun si =>
                     ProbabilityObject.mk (SpawnpointsForced.locationId (snd si))
                       (SpawnpointsForced.probability (snd si)) (Some (snd si)))
                items in
            drawn <- draw String.eqb spawnpointArray (Some 1) false [] ;;
            pushDrawn items drawn table
        end ;;
      '(others, table2) <- addSingleSpawnLoot table1 locationName rest ;;
      ret (added ++ others, table2)
  end.

(** Second part of [addForcedLoot]: the remaining forced loot, position by
    position. *)
Fixpoint addRemainingForcedLoot
  (lootToForceSingleAmountOnMap : option (list string))
  (positions : list nat) (table : list SpawnpointsForced.t)
  : M World (list nat * list SpawnpointsForced.t) :=
  match positions with
  | [] => ret ([], table)
  | position :: rest =>
      forcedLootItem <- defined (nth_error table position) ;;
      single <-
        match lootToForceSingleAmountOnMap with
        | Some l => tpl <- lift (forced_tpl forcedLootItem) ;; ret (includes l tpl)
        | None => ret false
        end ;;
      if single : bool then
        addRemainingForcedLoot lootToForceSingleAmountOnMap rest table
      else
        seasonal <-
          (if negb seasonalEventEnabled then
             tpl <- lift (forced_tpl forcedLootItem) ;;
             ret (includes getAllSeasonalEventItems tpl)
           else ret false) ;;
        if seasonal : bool then
          addRemainingForcedLoot lootToForceSingleAmountOnMap rest table
        else
          table1 <- rerootAt table position ;;
          '(others, table2) <-
            addRemainingForcedLoot lootToForceSingleAmountOnMap rest table1 ;;
          ret (position :: others, table2)
  end.

Definition addForcedLoot (forcedSpawnPoints : list SpawnpointsForced.t)
  (locationName : string) : M World (list SpawnpointTemplate.t) :=
  let lootToForceSingleAmountOnMap :=
    rec_get (ILocationConfig.forcedLootSingleSpawnById locationConfig) locationName in
  '(single, table1) <-
    match lootToForceSingleAmountOnMap with
    | Some l => addSingleSpawnLoot forcedSpawnPoints locationName l
    | None => ret ([], forcedSpawnPoints)
    end ;;
  '(remaining, table2) <-
    addRemainingForcedLoot lootToForceSingleAmountOnMap
      (seq 0 (List.length table1)) table1 ;;
  ret (templatesAt table2 (single ++ remaining)).

(** The loop of [generateDynamicLoot] over all spawn points: blacklisted
    points are skipped, points that always spawn are set aside, the others
    enter the weighted pool under their template id. *)
Fixpoint classifySpawnpoints (blacklistedPoints : option (list string))
  (allDynamicSpawnpoints : list Spawnpoint.t)
  : M World (list Spawnpoint.t * ProbabilityObjectArray string Spawnpoint.t) :=
  match allDynamicSpawnpoints with
  | [] => ret ([], [])
  | spawnpoint :: rest =>
      let id := SpawnpointTemplate.Id (Spawnpoint.template spawnpoint) in
      if opt_includes blacklistedPoints id then
        logger LogDebug (IgnoringLooseLootLocation id) ;;;
        classifySpawnpoints blacklistedPoints rest
      else
        '(guaranteedLoosePoints, spawnpointArray) <-
          classifySpawnpoints blacklistedPoints rest ;;
        if is_one (Spawnpoint.probability spawnpoint) then
          ret (spawnpoint :: guaranteedLoosePoints, spawnpointArray)
        else
          ret (guaranteedLoosePoints,
               ProbabilityObject.mk id (Spawnpoint.probability spawnpoint)
                 (Some spawnpoint) :: spawnpointArray)
  end.

(** [[...new Map(chosen.map(x => [x.locationId, x])).values()]]: one spawn
    point per location id, at the position of the first and with the value of
    the last. *)
Definition collectByLocationId (m : Record_ Spawnpoint.t) (l : list Spawnpoint.t)
  : Record_ Spawnpoint.t :=
  fold_left (fun m x => Map_set m (Spawnpoint.locationId x) x) l m.

Definition uniqueByLocationId (chosenSpawnpoints : list Spawnpoint.t)
  : list Spawnpoint.t :=
  map snd (collectByLocationId [] chosenSpawnpoints).

(** [array.map(f)] where an element may be [undefined] and [f] reads a
    property of it. *)
Fixpoint all_defined {A : Type} (l : list (option A)) : Outcome (list A) :=
  match l with
  | [] => Ok []
  | None :: _ => Throw TypeError
  | Some a :: l' =>
      match all_defined l' with
      | Ok r => Ok (a :: r)
      | Throw e => Throw e
      end
  end.

(** The spawn points that receive loot: the guaranteed ones, then the ones
    drawn from the pool, without two points of the same location. *)
Definition chooseSpawnpoints (desiredSpawnpointCount : option Z)
  (guaranteedLoosePoints : list Spawnpoint.t)
  (spawnpointArray : ProbabilityObjectArray string Spawnpoint.t)
  : M World (list Spawnpoint.t) :=
  drawn <- draw String.eqb spawnpointArray desiredSpawnpointCount false [] ;;
  picked <- lift (all_defined (map (data_of String.eqb spawnpointArray) drawn)) ;;
  ret (uniqueByLocationId (guaranteedLoosePoints ++ picked)).

(** The weighted pool of the item keys of one spawn point. *)
Definition spawnPointItemArray (spawnPoint : Spawnpoint.t)
  : Outcome (list (string * Q)) :=
  filter_throwing
    (fun itemDist =>
       if negb seasonalEventEnabled then
         match find_item (id_is (Some (fst itemDist)))
                 (SpawnpointTemplate.Items (Spawnpoint.template spawnPoint)) with
         | Some item => Ok (negb (includes getAllSeasonalEventItems (Item._tpl item)))
         | None => Throw TypeError
         end
       else Ok true)
    (Spawnpoint.itemDistribution spawnPoint).

(** The body of the last loop of [generateDynamicLoot]. *)
Definition addLootToSpawnpoint (staticAmmoDist : StaticAmmoDist)
  (spawnPoint : Spawnpoint.t) : M World SpawnpointTemplate.t :=
  itemDistribution <- lift (spawnPointItemArray spawnPoint) ;;
  let itemArray : ProbabilityObjectArray string unit :=
    map (fun d => ProbabilityObject.mk (fst d) (snd d) None) itemDistribution in
  drawn <- draw_count String.eqb itemArray (Some 1) ;;
  createItemResult <- createDynamicLootItem (hd_error drawn) spawnPoint staticAmmoDist ;;
  first <- defined (hd_error (IContainerItem.items createItemResult)) ;;
  ret (SpawnpointTemplate.mk
         (SpawnpointTemplate.Id (Spawnpoint.template spawnPoint))
         (SpawnpointTemplate.IsAlwaysSpawn (Spawnpoint.template spawnPoint))
         (Item._id first)
         (IContainerItem.items createItemResult)).

(** [desired - found > 0], false when [desired] is [NaN]. *)
Definition too_many_requested (desired : option Z) (found : nat) : bool :=
  match desired with
  | Some d => 0 <? d - Z.of_nat found
  | None => false
  end.

(** [blacklistedPoints?.includes(spawnpoint.template.Id)] for the blacklist
    of the map. *)
Definition blacklisted (name : string) (spawnpoint : Spawnpoint.t) : bool :=
  opt_includes (rec_get (ILocationConfig.looseLootBlacklist locationConfig) name)
    (SpawnpointTemplate.Id (Spawnpoint.template spawnpoint)).

(** The spawn points [generateDynamicLoot] settles on, before loot is put on
    them: everything between the forced loot and the last loop. *)
Definition chosenSpawnpointsOf (dynamicLootDist : ILooseLoot.t)
  (locationName : string) : M World (list Spawnpoint.t) :=
  sample <- call (randn (ILooseLoot.spawnpointCount_mean dynamicLootDist)
                    (ILooseLoot.spawnpointCount_std dynamicLootDist)) ;;
  let desiredSpawnpointCount :=
    rounded_product (getLooseLootMultiplerForLocation locationName) (Some sample) in
  let blacklistedPoints :=
    rec_get (ILocationConfig.looseLootBlacklist locationConfig) locationName in
  '(guaranteedLoosePoints, spawnpointArray) <-
    classifySpawnpoints blacklistedPoints (ILooseLoot.spawnpoints dynamicLootDist) ;;
  chosenSpawnpoints <-
    chooseSpawnpoints desiredSpawnpointCount guaranteedLoosePoints spawnpointArray ;;
  (if too_many_requested desiredSpawnpointCount (List.length chosenSpawnpoints) then
     logger LogDebug
       (SpawnPointCountRequestedVsFound
          (match desiredSpawnpointCount with
           | Some d => d + Z.of_nat (List.length guaranteedLoosePoints)
           | None => 0
           end)
          (List.length chosenSpawnpoints) locationName)
   else ret tt) ;;;
  ret chosenSpawnpoints.

Definition generateDynamicLoot (dynamicLootDist : ILooseLoot.t)
  (staticAmmoDist : StaticAmmoDist) (locationName : string)
  : M World (list SpawnpointTemplate.t) :=
  forced <- addForcedLoot (ILooseLoot.spawnpointsForced dynamicLootDist) locationName ;;
  chosenSpawnpoints <- chosenSpawnpointsOf dynamicLootDist locationName ;;
  loose <- for_each (addLootToSpawnpoint staticAmmoDist) chosenSpawnpoints ;;
  ret (forced ++ loose).

End LocationGenerator.

(** ** The roll of the ungrouped containers, in the words of the specification

    Each member rolls its own probability as a Bernoulli trial, one after the
    other, and the successes are kept in their order.  This is what
    [rollContainers] is compared with. *)

Fixpoint bernoulliSuccesses {World : Type} {services : Services World}
  (members : Record_ Q) (w : World) : Record_ Q * World :=
  match members with
  | [] => ([], w)
  | (containerId, probability) :: rest =>
      let (passed, w1) := getChance100 (Number_times probability 100) w in
      let (successes, w2) := bernoulliSuccesses rest w1 in
      (if passed then (containerId, probability) :: successes else successes, w2)
  end.

(** ** Dictionaries in the order of enumeration

    No key of the list comes after a key it is enumerated before: the
    association list of an object lists its bindings as JavaScript does. *)

Definition in_enumeration_order {V : Type} (r : Record_ V) : Prop :=
  ForallOrdPairs (fun a b => enumerated_before (fst b) (fst a) = false) r.

Definition ordered_pools (mapping : Record_ IContainerGroupCount.t) : Prop :=
  forall groupId data,
    In (groupId, data) mapping ->
    in_enumeration_order (IContainerGroupCount.containerIdsWithProbability data).

(** ** Dictionaries with distinct keys

    What a mapping from group ids to containers looks like as a JavaScript
    object: no group id twice, and in every group no container id twice. *)

Definition distinct_ids (mapping : Record_ IContainerGroupCount.t) : Prop :=
  NoDup (Object_keys mapping) /\
  forall groupId data,
    In (groupId, data) mapping ->
    NoDup (Object_keys (IContainerGroupCount.containerIdsWithProbability data)).

(** ** Forced loot that is left out

    The two tests of the second loop of [addForcedLoot]: the item is handled
    by the single-spawn list of the map, or it is a seasonal item outside its
    event. *)

Definition forcedIsSkipped {World : Type} {services : Services World}
  (lootToForceSingleAmountOnMap : option (list string))
  (forcedLootItem : SpawnpointsForced.t) : bool :=
  match forced_tpl forcedLootItem with
  | Ok tpl =>
      opt_includes lootToForceSingleAmountOnMap tpl ||
      (negb seasonalEventEnabled && includes getAllSeasonalEventItems tpl)
  | Throw _ => false
  end.

(** ** The store of forced spawn points

    What re-rooting leaves of a forced spawn point: everything but the root
    id, which is also the id of the first item.  A store stands for a table
    when every position holds the spawn point of the table, as it was or
    re-rooted. *)

Definition rerooted (x : SpawnpointsForced.t) (t : SpawnpointTemplate.t) : Prop :=
  exists first others,
    SpawnpointTemplate.Items (SpawnpointsForced.template x) = first :: others /\
    SpawnpointTemplate.Id t = SpawnpointTemplate.Id (SpawnpointsForced.template x) /\
    SpawnpointTemplate.IsAlwaysSpawn t =
      SpawnpointTemplate.IsAlwaysSpawn (SpawnpointsForced.template x) /\
    SpawnpointTemplate.Items t =
      Item.set_id first (SpawnpointTemplate.Root t) :: others.

Definition store_of (table store : list SpawnpointsForced.t) : Prop :=
  Forall2
    (fun x y =>
       SpawnpointsForced.locationId y = SpawnpointsForced.locationId x /\
       SpawnpointsForced.probability y = SpawnpointsForced.probability x /\
       (y = x \/ rerooted x (SpawnpointsForced.template y)))
    table store.

Definition rerooted_at (table store : list SpawnpointsForced.t) (position : nat)
  : Prop :=
  exists x y,
    nth_error table position = Some x /\
    nth_error store position = Some y /\
    rerooted x (SpawnpointsForced.template y).

(** ** A reference instance of the services

    Deterministic stand-ins for the collaborators, used to run the generator
    on concrete maps: the random source replays a given list of uniform
    samples, fresh ids count upwards, templates and presets come from small
    tables. *)

Module Fixture.

Record World : Type := mkWorld {
  samples : list Q;
  nextId : nat
}.

Definition in_unit_interval (u : Q) : bool := Qle_bool 0 u && Qlt_bool u 1.

(** The next uniform sample of [0, 1); a listed value outside the interval
    counts as 0, as does the end of the list. *)
Definition next_sample (w : World) : Q * World :=
  match samples w with
  | [] => (0%Q, w)
  | u :: rest => (if in_unit_interval u then u else 0%Q, mkWorld rest (nextId w))
  end.

Definition string_of_nat (n : nat) : string :=
  DecimalString.NilZero.string_of_uint (Nat.to_uint n).

Definition fresh_id (w : World) : string * World :=
  (String.append "id" (string_of_nat (nextId w)),
   mkWorld (samples w) (S (nextId w))).

(** Modelled from the spec: the Bernoulli trial of [getChance100], which
    succeeds with the given chance in percent. *)
Definition chance100 (chancePercent : Q) (w : World) : bool * World :=
  let (u, w') := next_sample w in (Qlt_bool (u * 100)%Q chancePercent, w').

(** Modelled from the spec: the integer-range source, uniform on
    [min, max]. *)
Definition int_between (min max : Z) (w : World) : Z * World :=
  let (u, w') := next_sample w in
  (if max <? min then min else min + Qfloor (u * inject_Z (max - min + 1))%Q, w').

(** A stand-in for the normal source: the mean, moved by at most one
    deviation. *)
Definition normal_sample (mean std : Q) (w : World) : Q * World :=
  let (u, w') := next_sample w in ((mean + std * (2 * u - 1))%Q, w').

Definition TemplateTable : Type := Record_ (ITemplateItem.t * list BaseClasses).

Definition BaseClasses_eqb (a b : BaseClasses) : bool :=
  match a, b with
  | MONEY, MONEY | AMMO, AMMO | WEAPON, WEAPON
  | AMMO_BOX, AMMO_BOX | MAGAZINE, MAGAZINE => true
  | _, _ => false
  end.

Definition template_of (templates : TemplateTable) (tpl : string)
  : option ITemplateItem.t :=
  option_map fst (rec_get templates tpl).

Definition has_baseclass (templates : TemplateTable) (tpl : string)
  (c : BaseClasses) : bool :=
  match rec_get templates tpl with
  | Some (_, classes) => existsb (BaseClasses_eqb c) classes
  | None => false
  end.

(** Modelled from the spec: an item tree reports the declared size of the
    template of its root. *)
Definition item_size (templates : TemplateTable) (items : list Item.t)
  (rootId : string) : Z * Z :=
  match List.find (fun i => String.eqb (Item._id i) rootId) items with
  | Some root =>
      match template_of templates (Item._tpl root) with
      | Some t => (ITemplateItem.Width t, ITemplateItem.Height t)
      | None => (0, 0)
      end
  | None => (0, 0)
  end.

Definition children_as_items (items : list Item.t) (id : string) : list Item.t :=
  filter
    (fun i =>
       String.eqb (Item._id i) id ||
       match Item.parentId i with
       | Some p => String.eqb p id
       | None => false
       end)
    items.

(** Re-parenting of a preset: the tree is hung under [root]; a node other
    than the first that has no parent makes it fail. *)
Definition reparent (root : option Item.t) (items : list Item.t) (w : World)
  : Outcome (list Item.t) * World :=
  match root, items with
  | None, _ => (Throw TypeError, w)
  | Some r, [] => (Ok [r], w)
  | Some r, old :: rest =>
      if existsb
           (fun i => match Item.parentId i with Some _ => false | None => true end)
           rest
      then (Throw (Error "preset node without parent"), w)
      else
        (Ok (r :: map
                    (fun i =>
                       match Item.parentId i with
                       | Some p =>
                           if String.eqb p (Item._id old)
                           then Item.set_parentId i (Some (Item._id r))
                           else i
                       | None => i
                       end)
                    rest),
         w)
  end.

(** *** The grid allocator *)

Definition cell_free (grid : ContainerMap) (x y : nat) : bool :=
  match nth_error grid y with
  | Some row =>
      match nth_error row x with
      | Some c => c =? 0
      | None => false
      end
  | None => false
  end.

Definition rect_free (grid : ContainerMap) (x y w h : nat) : bool :=
  forallb (fun dy => forallb (fun dx => cell_free grid (x + dx) (y + dy)) (seq 0 w))
    (seq 0 h).

Definition grid_width (grid : ContainerMap) : nat :=
  match grid with
  | row :: _ => List.length row
  | [] => O
  end.

Fixpoint first_fit (grid : ContainerMap) (w h : nat) (positions : list (nat * nat))
  : FindSlotResult.t :=
  match positions with
  | [] => FindSlotResult.mk false 0 0 false
  | (x, y) :: rest =>
      if rect_free grid x y w h
      then FindSlotResult.mk true (Z.of_nat x) (Z.of_nat y) false
      else if rect_free grid x y h w
      then FindSlotResult.mk true (Z.of_nat x) (Z.of_nat y) true
      else first_fit grid w h rest
  end.

(** Modelled from the spec: [findSlot] scans the positions row by row, [x]
    ascending within [y] ascending, tries each position unrotated and then
    rotated, and accepts the first where the whole rectangle is free and
    inside the grid. *)
Definition findSlot (grid : ContainerMap) (width height : Z) : FindSlotResult.t :=
  first_fit grid (Z.to_nat width) (Z.to_nat height)
    (flat_map (fun y => map (fun x => (x, y)) (seq 0 (grid_width grid)))
       (seq 0 (List.length grid))).

Definition in_range (start len i : nat) : bool :=
  Nat.leb start i && Nat.ltb i (start + len).

Fixpoint mapi {A B : Type} (f : nat -> A -> B) (i : nat) (l : list A) : list B :=
  match l with
  | [] => []
  | a :: l' => f i a :: mapi f (S i) l'
  end.

(** Modelled from the spec: [fill] marks every cell of the placed rectangle
    as occupied. *)
Definition fill (grid : ContainerMap) (x y width height : Z) (rotated : bool)
  : ContainerMap :=
  let w := Z.to_nat (if rotated then height else width) in
  let h := Z.to_nat (if rotated then width else height) in
  mapi
    (fun row_index row =>
       mapi
         (fun column c =>
            if in_range (Z.to_nat y) h row_index && in_range (Z.to_nat x) w column
            then 1 else c)
         O row)
    O grid.

Definition ROUBLES : string := "5449016a4bdc2d6f028b456f".
Definition DOLLARS : string := "5696686a4bdc2da3298b456a".
Definition EUROS : string := "569668774bdc2da2298b4568".

(** The services of the scenarios.  The factors that reach [Number_times]
    there are halves, quarters and small integers, whose products are exact
    in doubles, so [Number_times] is the product of rationals. *)
Definition services (templates : TemplateTable) (presets : Record_ IPreset.t)
  (db : IDatabaseTables.t) (config : ILocationConfig.t) : Services World :=
  {| generate := fresh_id;
     getChance100 := chance100;
     getInt := int_between;
     randn := normal_sample;
     random := next_sample;
     draw_replacement_default := false;
     getItem := template_of templates;
     isOfBaseclass := has_baseclass templates;
     getItemSize := item_size templates;
     findAndReturnChildrenAsItems := children_as_items;
     addCartridgesToAmmoBox := fun items _ w => (items, w);
     fillMagazineWithRandomCartridge := fun items _ _ _ _ w => (items, w);
     getDefaultPreset := rec_get presets;
     reparentPresets := reparent;
     findSlotForItem := findSlot;
     fillContainerMapWithItem := fill;
     seasonalEventEnabled := false;
     getAllSeasonalEventItems := [];
     getTables := db;
     locationConfig := config;
     Money_ROUBLES := ROUBLES;
     Money_DOLLARS := DOLLARS;
     Money_EUROS := EUROS;
     Number_times := Qmult |}.

End Fixture.

(** ** Concrete maps

    Small tables on which the generator is run. *)

Module Scenario.

Definition template (width height : Z) (grids : list (Z * Z)) : ITemplateItem.t :=
  ITemplateItem.mk width height 1 3 grids "Caliber9x19PARA".

Definition templates : Fixture.TemplateTable :=
  [ ("crate", (template 2 2 [(2, 2)], []));
    ("small", (template 1 1 [], []));
    ("big", (template 3 3 [], []));
    ("gun", (template 2 1 [], [WEAPON]));
    ("rifle", (template 2 1 [], [WEAPON]));
    (Fixture.ROUBLES, (template 1 1 [], [MONEY])) ].

Definition node (id tpl : string) (parent : option string) : Item.t :=
  Item.mk id tpl parent None None None.

(** The preset of the rifle has a node that hangs nowhere. *)
Definition riflePreset : IPreset.t :=
  IPreset.mk "preset1" "rifle default"
    [node "p0" "rifle" None; node "p1" "small" None].

Definition presets : Record_ IPreset.t := [("rifle", riflePreset)].

Definition container (id : string) (probability : Q) (alwaysSpawn : bool)
  : IStaticContainerData.t :=
  IStaticContainerData.mk probability
    (SpawnpointTemplate.mk id alwaysSpawn id [node id "crate" None]).

Definition crateLoot (tpls : list string) : IStaticLootDetails.t :=
  IStaticLootDetails.mk [(Z.of_nat (List.length tpls), 1%Q)]
    (map (fun tpl => (tpl, 1%Q)) tpls).

Definition settings (enabled : bool) : ContainerRandomisationSettings.t :=
  ContainerRandomisationSettings.mk enabled [("bigmap", true)] ["safe"] 1 1.

Definition config (enabled : bool) (attempts : Z) (blacklist : list string)
  : ILocationConfig.t :=
  ILocationConfig.mk (settings enabled) false attempts
    [("bigmap", 1%Q)] [("bigmap", 1%Q)] [("bigmap", blacklist)] [] 50 50.

Definition statics : IStaticContainer.t :=
  IStaticContainer.mk [] [("c2", ""); ("c3", "")].

Definition tables (lootOnMap : Record_ IStaticLootOnMap.t) (loot : list string)
  : IDatabaseTables.t :=
  IDatabaseTables.mk lootOnMap [("crate", crateLoot loot)] [("bigmap", statics)].

Definition customs : ILocationBase.t := ILocationBase.mk "bigmap" "Customs".

Definition start (samples : list Q) : State Fixture.World :=
  mkState (Fixture.mkWorld samples 0) [].

Definition lootOnCustoms (containers : list IStaticContainerData.t)
  : Record_ IStaticLootOnMap.t :=
  [("Customs", IStaticLootOnMap.mk (Some []) (Some containers) (Some []))].

(** Customs with one container that always spawns and two ungrouped ones
    that spawn half of the time; every crate holds one small item. *)
Definition threeCrates : list IStaticContainerData.t :=
  [container "c1" 1 false; container "c2" (1 # 2) false;
   container "c3" (1 # 2) false].

Definition randomised : Services Fixture.World :=
  Fixture.services templates presets
    (tables (lootOnCustoms threeCrates) ["small"]) (config true 1 []).

Definition notRandomised : Services Fixture.World :=
  Fixture.services templates presets
    (tables (lootOnCustoms threeCrates) ["small"]) (config false 1 []).

(** Customs without any static loot table. *)
Definition withoutTables : Services Fixture.World :=
  Fixture.services templates presets (tables [] ["small"]) (config true 1 []).

(** The group without id, as [getGroupIdToContainerMappings] builds it. *)
(** The two crates of Customs that spawn half of the time. *)
Definition halfCrates : list IStaticContainerData.t :=
  [container "c2" (1 # 2) false; container "c3" (1 # 2) false].

Definition ungrouped : IContainerGroupCount.t :=
  IContainerGroupCount.mk [("c2", 1 # 2); ("c3", 1 # 2)] (-1).

(** A loot table that lists the small item twice. *)
Definition listedTwice : Services Fixture.World :=
  Fixture.services templates presets
    (tables (lootOnCustoms threeCrates) ["small"; "small"]) (config true 1 []).

(** A group that wants three containers and has one candidate. *)
Definition shortGroup : IContainerGroupCount.t :=
  IContainerGroupCount.mk [("c2", 1 # 2)] 3.

(** The same map with a budget of two failed placements. *)
Definition budgetOfTwo : Services Fixture.World :=
  Fixture.services templates presets
    (tables (lootOnCustoms threeCrates) ["small"]) (config true 2 []).

(** A crate whose loot is the rifle with the broken preset. *)
Definition brokenPreset : Services Fixture.World :=
  Fixture.services templates presets
    (tables (lootOnCustoms threeCrates) ["rifle"]) (config false 1 []).

Definition emptyCrate : ContainerMap := [[0; 0]; [0; 0]].

(** Loose loot: two spawn points that always spawn; the template id of the
    first is on the blacklist of the map. *)
Definition spawnpoint (locationId templateId key : string) (probability : Q)
  : Spawnpoint.t :=
  Spawnpoint.mk locationId probability
    (SpawnpointTemplate.mk templateId false key [node key "small" None])
    [(key, 1%Q)].

Definition bannedPoint : Spawnpoint.t := spawnpoint "loc0" "banned" "k0" 1.
Definition freePoint : Spawnpoint.t := spawnpoint "loc1" "loose1" "k1" 1.

Definition looseLoot : ILooseLoot.t :=
  ILooseLoot.mk 1 0 [] [bannedPoint; freePoint].

Definition withBlacklist : Services Fixture.World :=
  Fixture.services templates presets
    (tables (lootOnCustoms threeCrates) ["small"]) (config true 1 ["banned"]).

(** Random samples for the group without id: both rolls pass, then the draw
    takes the second container before the first. *)
Definition bothPassSecondFirst : State Fixture.World :=
  start [1 # 10; 1 # 10; 9 # 10; 0%Q].

Definition placedSmall (id : string) (x : Z) : Item.t :=
  Item.mk id "small" (Some "root") (Some "main") (Some (x, 0, 0)) None.

(** A weapon with two attachments, one hung under the other. *)
Definition weaponTree : list Item.t :=
  [node "w0" "gun" None; node "w1" "small" (Some "w0");
   node "w2" "small" (Some "w1")].

(** Group data with one declared group: the second crate belongs to it, the
    third has no group, and a fourth one names a group that is not declared. *)
Definition groupedStatics : IStaticContainer.t :=
  IStaticContainer.mk [("group1", IContainerMinMax.mk 1 1)]
    [("c2", "group1"); ("c3", ""); ("c4", "group9")].

Definition twoCrates : list IStaticContainerData.t :=
  [container "c2" (1 # 2) false; container "c3" (1 # 4) false].

(** Customs without its forced-loot table. *)
Definition withoutForced : Services Fixture.World :=
  Fixture.services templates presets
    (tables
       [("Customs", IStaticLootOnMap.mk (Some []) (Some threeCrates) None)]
       ["small"])
    (config false 1 []).

(** A database without group data for any location. *)
Definition withoutGroupData : Services Fixture.World :=
  Fixture.services templates presets
    (IDatabaseTables.mk (lootOnCustoms threeCrates)
       [("crate", crateLoot ["small"])] [])
    (config true 1 []).

(** Two forced spawn points. *)
Definition forcedPoint (locationId templateId key : string) : SpawnpointsForced.t :=
  SpawnpointsForced.mk locationId 1
    (SpawnpointTemplate.mk templateId false key
       [node key "small" None; node "extra" "small" (Some key)]).

Definition forcedPoints : list SpawnpointsForced.t :=
  [forcedPoint "f1" "quest1" "q1"; forcedPoint "f2" "quest2" "q2"].

Definition looseAndForced : ILooseLoot.t :=
  ILooseLoot.mk 1 0 forcedPoints [bannedPoint; freePoint].

(** The services of [base] outside any seasonal event, with the given
    templates as seasonal items. *)
Definition outsideEvent (base : Services Fixture.World) (seasonal : list string)
  : Services Fixture.World :=
  {| generate := @generate _ base;
     getChance100 := @getChance100 _ base;
     getInt := @getInt _ base;
     randn := @randn _ base;
     random := @random _ base;
     draw_replacement_default := @draw_replacement_default _ base;
     getItem := @getItem _ base;
     isOfBaseclass := @isOfBaseclass _ base;
     getItemSize := @getItemSize _ base;
     findAndReturnChildrenAsItems := @findAndReturnChildrenAsItems _ base;
     addCartridgesToAmmoBox := @addCartridgesToAmmoBox _ base;
     fillMagazineWithRandomCartridge := @fillMagazineWithRandomCartridge _ base;
     getDefaultPreset := @getDefaultPreset _ base;
     reparentPresets := @reparentPresets _ base;
     findSlotForItem := @findSlotForItem _ base;
     fillContainerMapWithItem := @fillContainerMapWithItem _ base;
     seasonalEventEnabled := false;
     getAllSeasonalEventItems := seasonal;
     getTables := @getTables _ base;
     locationConfig := @locationConfig _ base;
     Money_ROUBLES := @Money_ROUBLES _ base;
     Money_DOLLARS := @Money_DOLLARS _ base;
     Money_EUROS := @Money_EUROS _ base;
     Number_times := @Number_times _ base |}.

(** Outside the event the big item is seasonal. *)
Definition bigIsSeasonal : Services Fixture.World :=
  outsideEvent withBlacklist ["big"].

(** A spawn point with a small and a big item, equally likely. *)
Definition mixedPoint : Spawnpoint.t :=
  Spawnpoint.mk "loc2" (1 # 2)
    (SpawnpointTemplate.mk "loose2" false "k1"
       [node "k1" "small" None; node "k2" "big" None])
    [("k1", 1%Q); ("k2", 1%Q)].

End Scenario.

(** * Properties *)

(** ** Dictionaries *)

Lemma rec_get_In {V : Type} (r : Record_ V) (k : string) :
  rec_get r k <> None <-> In k (Object_keys r).
Proof.
  induction r as [|[k' v] r IH]; simpl.
  - split; [congruence | tauto].
  - destruct (String.eqb_spec k k') as [->|Hne].
    + split; [auto | discriminate].
    + rewrite IH. split; [auto | intros [E|H]; [congruence | exact H]].
Qed.

Lemma rec_get_None {V : Type} (r : Record_ V) (k : string) :
  rec_get r k = None <-> ~ In k (Object_keys r).
Proof.
  rewrite <- rec_get_In. destruct (rec_get r k) as [v|].
  - split; [discriminate | intros H; exfalso; apply H; discriminate].
  - split; [intros _ H; apply H; reflexivity | reflexivity].
Qed.

(** *** Maps *)

Lemma Map_set_fresh {V : Type} (r : Record_ V) (k : string) (v : V) :
  ~ In k (Object_keys r) -> Map_set r k v = r ++ [(k, v)].
Proof.
  induction r as [|[k' v'] r IH]; simpl; intros Hk.
  - reflexivity.
  - destruct (String.eqb_spec k k') as [->|Hne].
    + exfalso. auto.
    + rewrite IH by tauto. reflexivity.
Qed.

Lemma Map_set_keys_present {V : Type} (r : Record_ V) (k : string) (v : V) :
  In k (Object_keys r) -> Object_keys (Map_set r k v) = Object_keys r.
Proof.
  induction r as [|[k' v'] r IH]; simpl; intros Hk.
  - contradiction.
  - destruct (String.eqb_spec k k') as [->|Hne]; simpl.
    + reflexivity.
    + rewrite IH; [reflexivity|]. destruct Hk; [congruence | assumption].
Qed.

Lemma NoDup_snoc {A : Type} (l : list A) (a : A) :
  NoDup l -> ~ In a l -> NoDup (l ++ [a]).
Proof.
  induction 1 as [|x l Hx Hl IH]; simpl; intros Ha.
  - constructor; [tauto | constructor].
  - constructor.
    + rewrite in_app_iff. simpl. intros [H|[H|[]]]; [tauto | subst; tauto].
    + apply IH. tauto.
Qed.

Lemma Map_set_NoDup {V : Type} (r : Record_ V) (k : string) (v : V) :
  NoDup (Object_keys r) -> NoDup (Object_keys (Map_set r k v)).
Proof.
  intros H. destruct (in_dec string_dec k (Object_keys r)) as [Hin|Hout].
  - rewrite Map_set_keys_present; assumption.
  - rewrite Map_set_fresh by assumption. unfold Object_keys in *.
    rewrite map_app. simpl. apply NoDup_snoc; assumption.
Qed.

Lemma Map_set_In_inv {V : Type} (r : Record_ V) (k k' : string) (v v' : V) :
  In (k', v') (Map_set r k v) -> In (k', v') r \/ (k' = k /\ v' = v).
Proof.
  induction r as [|[k0 v0] r IH]; simpl.
  - intros [H|[]]. inversion H. auto.
  - destruct (String.eqb_spec k k0) as [->|Hne]; simpl.
    + intros [H|H]; [inversion H; auto | auto].
    + intros [H|H]; [auto | destruct (IH H); auto].
Qed.

Lemma Map_set_keys_incl {V : Type} (r : Record_ V) (k k' : string) (v : V) :
  k' = k \/ In k' (Object_keys r) -> In k' (Object_keys (Map_set r k v)).
Proof.
  destruct (in_dec string_dec k (Object_keys r)) as [Hin|Hout].
  - rewrite Map_set_keys_present by assumption. intros [->|H]; assumption.
  - rewrite Map_set_fresh by assumption. unfold Object_keys.
    rewrite map_app, in_app_iff. simpl. intros [->|H]; auto.
Qed.

Lemma Map_set_In_other {V : Type} (r : Record_ V) (k k' : string) (v v' : V) :
  In (k, v) r -> k <> k' -> In (k, v) (Map_set r k' v').
Proof.
  induction r as [|[k0 v0] r IH]; simpl; [tauto|].
  intros [H|H] Hne.
  - inversion H; subst. destruct (String.eqb_spec k' k) as [->|_]; [tauto|].
    left. reflexivity.
  - destruct (String.eqb k' k0); right; auto.
Qed.

Lemma Map_set_get_same {V : Type} (r : Record_ V) (k : string) (v : V) :
  rec_get (Map_set r k v) k = Some v.
Proof.
  induction r as [|[k' v'] r IH]; simpl.
  - rewrite String.eqb_refl. reflexivity.
  - destruct (String.eqb_spec k k') as [->|Hne]; simpl.
    + rewrite String.eqb_refl. reflexivity.
    + destruct (String.eqb_spec k k'); [contradiction | exact IH].
Qed.

Lemma Map_set_get_other {V : Type} (r : Record_ V) (k k' : string) (v : V) :
  k' <> k -> rec_get (Map_set r k v) k' = rec_get r k'.
Proof.
  intros Hne. induction r as [|[k0 v0] r IH]; simpl.
  - destruct (String.eqb_spec k' k); [contradiction | reflexivity].
  - destruct (String.eqb_spec k k0) as [->|Hk]; simpl.
    + destruct (String.eqb_spec k' k0); [contradiction | reflexivity].
    + destruct (String.eqb k' k0); [reflexivity | exact IH].
Qed.

(** *** Objects: a new key takes its place in the enumeration *)

Lemma insert_key_split {V : Type} (r : Record_ V) (k : string) (v : V) :
  exists l1 l2,
    r = l1 ++ l2 /\ insert_key r k v = l1 ++ (k, v) :: l2 /\
    (forall k', In k' (Object_keys l1) -> enumerated_before k k' = false).
Proof.
  induction r as [|[k' v'] r IH]; simpl.
  - exists [], []. simpl. tauto.
  - destruct (enumerated_before k k') eqn:E.
    + exists [], ((k', v') :: r). simpl. tauto.
    + destruct IH as (l1 & l2 & -> & -> & Hl1).
      exists ((k', v') :: l1), l2. simpl. repeat split.
      intros k0 [<-|H]; [exact E | exact (Hl1 _ H)].
Qed.

Lemma insert_key_last {V : Type} (r : Record_ V) (k : string) (v : V) :
  (forall k', In k' (Object_keys r) -> enumerated_before k k' = false) ->
  insert_key r k v = r ++ [(k, v)].
Proof.
  induction r as [|[k' v'] r IH]; simpl; intros H; [reflexivity|].
  rewrite (H k') by auto. rewrite IH by auto. reflexivity.
Qed.

Lemma rec_set_present {V : Type} (r : Record_ V) (k : string) (v : V) :
  In k (Object_keys r) -> rec_set r k v = Map_set r k v.
Proof.
  intros H. apply rec_get_In in H. unfold rec_set.
  destruct (rec_get r k); [reflexivity | congruence].
Qed.

Lemma rec_set_new {V : Type} (r : Record_ V) (k : string) (v : V) :
  ~ In k (Object_keys r) -> rec_set r k v = insert_key r k v.
Proof.
  intros H. apply rec_get_None in H. unfold rec_set. rewrite H. reflexivity.
Qed.

Lemma rec_set_fresh {V : Type} (r : Record_ V) (k : string) (v : V) :
  ~ In k (Object_keys r) ->
  exists l1 l2, r = l1 ++ l2 /\ rec_set r k v = l1 ++ (k, v) :: l2.
Proof.
  intros H. rewrite (rec_set_new _ _ _ H).
  destruct (insert_key_split r k v) as (l1 & l2 & E1 & E2 & _). eauto.
Qed.

Lemma rec_set_last {V : Type} (r : Record_ V) (k : string) (v : V) :
  ~ In k (Object_keys r) ->
  (forall k', In k' (Object_keys r) -> enumerated_before k k' = false) ->
  rec_set r k v = r ++ [(k, v)].
Proof.
  intros H Hlast. rewrite (rec_set_new _ _ _ H). apply insert_key_last, Hlast.
Qed.

Lemma rec_set_keys_present {V : Type} (r : Record_ V) (k : string) (v : V) :
  In k (Object_keys r) -> Object_keys (rec_set r k v) = Object_keys r.
Proof.
  intros H. rewrite rec_set_present by exact H. apply Map_set_keys_present, H.
Qed.

Lemma rec_set_NoDup {V : Type} (r : Record_ V) (k : string) (v : V) :
  NoDup (Object_keys r) -> NoDup (Object_keys (rec_set r k v)).
Proof.
  intros H. destruct (in_dec string_dec k (Object_keys r)) as [Hin|Hout].
  - rewrite rec_set_keys_present; assumption.
  - destruct (rec_set_fresh r k v Hout) as (l1 & l2 & -> & ->).
    unfold Object_keys in *. rewrite map_app in *. simpl.
    apply (Permutation_NoDup (Permutation_middle _ _ _)).
    constructor; assumption.
Qed.

Lemma rec_set_In_inv {V : Type} (r : Record_ V) (k k' : string) (v v' : V) :
  In (k', v') (rec_set r k v) -> In (k', v') r \/ (k' = k /\ v' = v).
Proof.
  destruct (in_dec string_dec k (Object_keys r)) as [Hin|Hout].
  - rewrite rec_set_present by exact Hin. apply Map_set_In_inv.
  - destruct (rec_set_fresh r k v Hout) as (l1 & l2 & -> & ->).
    rewrite !in_app_iff. simpl. intros [H|[H|H]]; auto.
    inversion H. auto.
Qed.

Lemma rec_set_keys_incl {V : Type} (r : Record_ V) (k k' : string) (v : V) :
  k' = k \/ In k' (Object_keys r) -> In k' (Object_keys (rec_set r k v)).
Proof.
  destruct (in_dec string_dec k (Object_keys r)) as [Hin|Hout].
  - rewrite rec_set_keys_present by assumption. intros [->|H]; assumption.
  - destruct (rec_set_fresh r k v Hout) as (l1 & l2 & -> & ->).
    unfold Object_keys. rewrite !map_app, !in_app_iff. simpl.
    intros [->|[H|H]]; auto.
Qed.

Lemma rec_set_keys_inv {V : Type} (r : Record_ V) (k k' : string) (v : V) :
  In k' (Object_keys (rec_set r k v)) -> k' = k \/ In k' (Object_keys r).
Proof.
  destruct (in_dec string_dec k (Object_keys r)) as [Hin|Hout].
  - rewrite rec_set_keys_present by assumption. auto.
  - destruct (rec_set_fresh r k v Hout) as (l1 & l2 & -> & ->).
    unfold Object_keys. rewrite !map_app, !in_app_iff. simpl.
    intros [H|[H|H]]; auto.
Qed.

Lemma rec_get_app {V : Type} (l1 l2 : Record_ V) (k : string) :
  rec_get (l1 ++ l2) k =
  match rec_get l1 k with
  | Some v => Some v
  | None => rec_get l2 k
  end.
Proof.
  induction l1 as [|[k' v'] l1 IH]; simpl; [reflexivity|].
  destruct (String.eqb k k'); [reflexivity | exact IH].
Qed.

Lemma rec_get_set_same {V : Type} (r : Record_ V) (k : string) (v : V) :
  rec_get (rec_set r k v) k = Some v.
Proof.
  destruct (in_dec string_dec k (Object_keys r)) as [Hin|Hout].
  - rewrite rec_set_present by exact Hin. apply Map_set_get_same.
  - destruct (rec_set_fresh r k v Hout) as (l1 & l2 & -> & ->).
    rewrite rec_get_app.
    assert (H1 : rec_get l1 k = None).
    { apply rec_get_None. intros H. apply Hout. unfold Object_keys in *.
      rewrite map_app, in_app_iff. auto. }
    rewrite H1. simpl. rewrite String.eqb_refl. reflexivity.
Qed.

Lemma rec_get_set_other {V : Type} (r : Record_ V) (k k' : string) (v : V) :
  k' <> k -> rec_get (rec_set r k v) k' = rec_get r k'.
Proof.
  intros Hne. destruct (in_dec string_dec k (Object_keys r)) as [Hin|Hout].
  - rewrite rec_set_present by exact Hin. apply Map_set_get_other, Hne.
  - destruct (rec_set_fresh r k v Hout) as (l1 & l2 & -> & ->).
    rewrite !rec_get_app. simpl.
    destruct (String.eqb_spec k' k); [contradiction | reflexivity].
Qed.

Lemma rec_set_In_other {V : Type} (r : Record_ V) (k k' : string) (v v' : V) :
  In (k, v) r -> k <> k' -> In (k, v) (rec_set r k' v').
Proof.
  intros Hin Hne. destruct (in_dec string_dec k' (Object_keys r)) as [Hk|Hout].
  - rewrite rec_set_present by exact Hk. apply Map_set_In_other; assumption.
  - destruct (rec_set_fresh r k' v' Hout) as (l1 & l2 & -> & ->).
    rewrite in_app_iff in *. simpl. tauto.
Qed.

(** *** The order of enumeration *)

Lemma in_enumeration_order_app {V : Type} (l1 l2 : Record_ V) :
  in_enumeration_order (l1 ++ l2) <->
  in_enumeration_order l1 /\ in_enumeration_order l2 /\
  forall a b, In a l1 -> In b l2 -> enumerated_before (fst b) (fst a) = false.
Proof.
  unfold in_enumeration_order. induction l1 as [|x l1 IH]; simpl.
  - split.
    + intros H. split; [constructor|]. split; [exact H | intros ? ? []].
    + tauto.
  - split.
    + intros H. inversion H as [|? ? Hx Hrest]; subst.
      apply IH in Hrest. destruct Hrest as (H1 & H2 & Hcross).
      rewrite Forall_app in Hx. destruct Hx as [Hx1 Hx2].
      split; [constructor; assumption|]. split; [exact H2|].
      intros a b [<-|Ha] Hb.
      * rewrite Forall_forall in Hx2. exact (Hx2 b Hb).
      * exact (Hcross a b Ha Hb).
    + intros (H1 & H2 & Hcross). inversion H1 as [|? ? Hx Hrest]; subst.
      constructor.
      * rewrite Forall_app. split; [exact Hx|].
        rewrite Forall_forall. intros b Hb. apply Hcross; auto.
      * apply IH. split; [exact Hrest|]. split; [exact H2|].
        intros a b Ha Hb. apply Hcross; auto.
Qed.

Lemma in_enumeration_order_remove {V : Type} (l1 l2 : Record_ V) (a : string * V) :
  in_enumeration_order (l1 ++ a :: l2) -> in_enumeration_order (l1 ++ l2).
Proof.
  rewrite !in_enumeration_order_app. intros (H1 & H2 & Hcross).
  change (a :: l2) with ([a] ++ l2) in H2.
  rewrite in_enumeration_order_app in H2. destruct H2 as (_ & H2 & _).
  split; [exact H1|]. split; [exact H2|].
  intros x y Hx Hy. apply Hcross; simpl; auto.
Qed.

Lemma enumerated_before_asym (a b : string) :
  enumerated_before a b = true -> enumerated_before b a = false.
Proof.
  unfold enumerated_before.
  destruct (array_index a) as [i|], (array_index b) as [j|];
    try reflexivity; try discriminate.
  intros H. apply N.ltb_lt in H. apply N.ltb_ge. lia.
Qed.

Lemma enumerated_before_trans (a b c : string) :
  enumerated_before a b = true -> enumerated_before b c = true ->
  enumerated_before a c = true.
Proof.
  unfold enumerated_before.
  destruct (array_index a) as [i|], (array_index b) as [j|],
    (array_index c) as [l|]; try reflexivity; try discriminate.
  intros H1 H2. apply N.ltb_lt in H1, H2. apply N.ltb_lt. lia.
Qed.

Lemma in_enumeration_order_keys {V W : Type} (r : Record_ V) (r' : Record_ W) :
  Object_keys r = Object_keys r' ->
  in_enumeration_order r -> in_enumeration_order r'.
Proof.
  unfold in_enumeration_order, Object_keys. revert r'.
  induction r as [|[k v] r IH]; intros [|[k' v'] r'] E H; try discriminate.
  - constructor.
  - simpl in E. injection E as -> E. inversion H as [|? ? Hx Hrest]; subst.
    constructor; [|exact (IH _ E Hrest)].
    rewrite Forall_forall in *. intros [k1 v1] Hin. simpl.
    assert (Hk : In k1 (map fst r)).
    { rewrite E. apply in_map_iff. exists (k1, v1). auto. }
    apply in_map_iff in Hk. destruct Hk as ([k2 v2] & <- & Hin2).
    exact (Hx _ Hin2).
Qed.

Lemma insert_key_ordered {V : Type} (r : Record_ V) (k : string) (v : V) :
  in_enumeration_order r -> in_enumeration_order (insert_key r k v).
Proof.
  unfold in_enumeration_order.
  induction r as [|[k' v'] r IH]; simpl; intros H.
  - constructor; constructor.
  - inversion H as [|? ? Hx Hrest]; subst.
    destruct (enumerated_before k k') eqn:E.
    + constructor; [|exact H]. constructor.
      * simpl. apply enumerated_before_asym, E.
      * rewrite Forall_forall in *. intros [k1 v1] Hin. simpl.
        specialize (Hx _ Hin). simpl in Hx.
        destruct (enumerated_before k1 k) eqn:E1; [|reflexivity].
        rewrite (enumerated_before_trans _ _ _ E1 E) in Hx. discriminate.
    + constructor; [|exact (IH Hrest)].
      destruct (insert_key_split r k v) as (l1 & l2 & -> & -> & _).
      rewrite Forall_app in *. destruct Hx as [H1 H2].
      split; [exact H1|]. constructor; [exact E | exact H2].
Qed.

Lemma rec_set_ordered {V : Type} (r : Record_ V) (k : string) (v : V) :
  in_enumeration_order r -> in_enumeration_order (rec_set r k v).
Proof.
  intros H. destruct (in_dec string_dec k (Object_keys r)) as [Hin|Hout].
  - apply (in_enumeration_order_keys r); [|exact H].
    symmetry. apply rec_set_keys_present, Hin.
  - rewrite rec_set_new by exact Hout. apply insert_key_ordered, H.
Qed.

(** ** One spawn point per location *)

Lemma collect_values (l : list Spawnpoint.t) (m : Record_ Spawnpoint.t)
  (k : string) (y : Spawnpoint.t) :
  In (k, y) (collectByLocationId m l) ->
  In (k, y) m \/ (In y l /\ Spawnpoint.locationId y = k).
Proof.
  revert m. induction l as [|x l IH]; simpl; intros m H; [auto|].
  destruct (IH _ H) as [Hm|[Hy Hk]]; [|auto].
  destruct (Map_set_In_inv _ _ _ _ _ Hm) as [Hm'|[-> ->]]; auto.
Qed.

Lemma collect_keys (l : list Spawnpoint.t) (m : Record_ Spawnpoint.t) (k : string) :
  In k (Object_keys m) \/ (exists x, In x l /\ Spawnpoint.locationId x = k) ->
  In k (Object_keys (collectByLocationId m l)).
Proof.
  revert m. induction l as [|x l IH]; simpl; intros m H.
  - destruct H as [H|(x & [] & _)]. exact H.
  - apply IH. destruct H as [H|(x' & [->|Hx'] & Hk)].
    + left. apply Map_set_keys_incl. auto.
    + left. apply Map_set_keys_incl. auto.
    + right. eauto.
Qed.

Lemma uniqueByLocationId_In (l : list Spawnpoint.t) (y : Spawnpoint.t) :
  In y (uniqueByLocationId l) -> In y l.
Proof.
  unfold uniqueByLocationId. rewrite in_map_iff. intros ([k y'] & <- & H).
  destruct (collect_values l [] k y' H) as [[]|[Hy _]]. exact Hy.
Qed.

Lemma uniqueByLocationId_covers (l : list Spawnpoint.t) (x : Spawnpoint.t) :
  In x l ->
  exists y, In y (uniqueByLocationId l) /\ In y l /\
            Spawnpoint.locationId y = Spawnpoint.locationId x.
Proof.
  intros Hx.
  assert (Hk : In (Spawnpoint.locationId x)
                 (Object_keys (collectByLocationId [] l)))
    by (apply collect_keys; right; eauto).
  unfold Object_keys in Hk. rewrite in_map_iff in Hk.
  destruct Hk as ([k y] & Hk & Hin). simpl in Hk. subst k.
  exists y. split.
  - unfold uniqueByLocationId. rewrite in_map_iff.
    exists (Spawnpoint.locationId x, y). auto.
  - destruct (collect_values l [] _ y Hin) as [[]|H]. exact H.
Qed.

(** ** The monad *)

Lemma for_each_inv {World A B : Type} (f : A -> M World B) (l : list A)
  (s s' : State World) (o : Outcome (list B)) :
  for_each f l s = (o, s') ->
  match o with
  | Ok ys => Forall2 (fun x y => exists s1 s2, f x s1 = (Ok y, s2)) l ys
  | Throw e => exists x s1 s2, In x l /\ f x s1 = (Throw e, s2)
  end.
Proof.
  revert s s' o. induction l as [|x l IH]; simpl; intros s s' o H.
  - unfold ret in H. inversion H; subst. constructor.
  - unfold bind in H. destruct (f x s) as [[y|e] s1] eqn:Hx.
    + destruct (for_each f l s1) as [[ys|e] s2] eqn:Hl.
      * unfold ret in H. inversion H; subst.
        constructor; [eauto | exact (IH _ _ _ Hl)].
      * inversion H; subst.
        destruct (IH _ _ _ Hl) as (x' & s3 & s4 & Hin & Hx').
        exists x', s3, s4. auto.
    + inversion H; subst. exists x, s, s'. auto.
Qed.

Lemma bind_ok_inv {World A B : Type} (m : M World A) (k : A -> M World B)
  (s s' : State World) (b : B) :
  bind m k s = (Ok b, s') ->
  exists a s1, m s = (Ok a, s1) /\ k a s1 = (Ok b, s').
Proof.
  unfold bind. destruct (m s) as [[a|e] s1]; [eauto | discriminate].
Qed.

Lemma all_defined_inv {A : Type} (l : list (option A)) (r : list A) :
  all_defined l = Ok r -> l = map Some r.
Proof.
  revert r. induction l as [|[a|] l IH]; simpl; intros r H.
  - inversion H. reflexivity.
  - destruct (all_defined l) as [r'|]; [|discriminate].
    inversion H; subst. simpl. rewrite (IH r' eq_refl). reflexivity.
  - discriminate.
Qed.

(** ** Throwing filters *)

Lemma filter_throwing_In {A : Type} (p : A -> Outcome bool) (l r : list A) :
  filter_throwing p l = Ok r ->
  forall x, In x r <-> In x l /\ p x = Ok true.
Proof.
  revert r. induction l as [|a l IH]; simpl; intros r H x.
  - inversion H; subst. simpl. tauto.
  - destruct (p a) as [b|e] eqn:Hp; [|discriminate].
    destruct (filter_throwing p l) as [r'|e]; [|discriminate].
    inversion H; subst. specialize (IH r' eq_refl x).
    destruct b; simpl; rewrite IH; intuition (subst; auto; congruence).
Qed.

Lemma filter_throwing_total {A : Type} (p : A -> Outcome bool) (l : list A) :
  (forall x, In x l -> exists b, p x = Ok b) ->
  exists r, filter_throwing p l = Ok r.
Proof.
  induction l as [|a l IH]; simpl; intros H.
  - eauto.
  - destruct (H a (or_introl eq_refl)) as [b ->].
    destruct IH as [r ->]; eauto.
Qed.

(** ** The weighted sampler *)

Lemma Qlt_bool_iff (a b : Q) : Qlt_bool a b = true <-> (a < b)%Q.
Proof.
  unfold Qlt_bool. rewrite negb_true_iff. split.
  - intros H. apply Qnot_le_lt. intros Hle.
    apply Qle_bool_iff in Hle. congruence.
  - intros H. destruct (Qle_bool b a) eqn:E; [|reflexivity].
    apply Qle_bool_iff in E. exfalso. exact (Qlt_not_le _ _ H E).
Qed.

Lemma remove_nth_In {A : Type} (i : nat) (l : list A) (x : A) :
  In x (remove_nth i l) -> In x l.
Proof.
  revert i. induction l as [|a l IH]; intros [|i]; simpl; auto.
  intros [H|H]; eauto.
Qed.

Lemma remove_nth_map {A B : Type} (f : A -> B) (i : nat) (l : list A) :
  map f (remove_nth i l) = remove_nth i (map f l).
Proof.
  revert i. induction l as [|a l IH]; intros [|i]; simpl; auto.
  rewrite IH. reflexivity.
Qed.

Lemma remove_nth_perm {A : Type} (i : nat) (l : list A) (x : A) :
  nth_error l i = Some x -> Permutation (x :: remove_nth i l) l.
Proof.
  revert i. induction l as [|a l IH]; intros [|i]; simpl; try discriminate.
  - intros H. inversion H. reflexivity.
  - intros H. rewrite perm_swap. constructor. apply IH, H.
Qed.

Lemma remove_nth_length {A : Type} (i : nat) (l : list A) (x : A) :
  nth_error l i = Some x -> S (List.length (remove_nth i l)) = List.length l.
Proof.
  revert i. induction l as [|a l IH]; intros [|i]; simpl; try discriminate.
  - reflexivity.
  - intros H. rewrite (IH _ H). reflexivity.
Qed.

Lemma remove_nth_NoDup {A : Type} (i : nat) (l : list A) (x : A) :
  NoDup l -> nth_error l i = Some x ->
  NoDup (remove_nth i l) /\ ~ In x (remove_nth i l).
Proof.
  intros Hnd. revert i. induction Hnd as [|a l Ha Hl IH]; intros [|i]; simpl;
    try discriminate.
  - intros H. inversion H; subst. auto.
  - intros H. destruct (IH _ H) as [Hn Hx]. split.
    + constructor; [|exact Hn]. intros Hin. apply Ha, (remove_nth_In _ _ _ Hin).
    + intros [E|Hin]; [|exact (Hx Hin)].
      subst. apply Ha, (nth_error_In _ _ H).
Qed.

Lemma total_weight_nonneg {K D : Type} (pool : ProbabilityObjectArray K D) :
  (forall o, In o pool -> (0 < ProbabilityObject.relativeProbability o)%Q) ->
  (0 <= total_weight pool)%Q.
Proof.
  induction pool as [|o pool IH]; simpl; intros H.
  - apply Qle_refl.
  - assert (0 < ProbabilityObject.relativeProbability o)%Q by auto.
    assert (0 <= total_weight pool)%Q by auto.
    unfold total_weight in *. lra.
Qed.

Lemma index_above_some {K D : Type} (pool : ProbabilityObjectArray K D)
  (target acc : Q) :
  (acc <= target < acc + total_weight pool)%Q ->
  exists i o, index_above target acc pool = Some i /\ nth_error pool i = Some o.
Proof.
  revert acc. induction pool as [|o pool IH]; simpl; intros acc H.
  - exfalso. lra.
  - destruct (Qlt_bool target (acc + ProbabilityObject.relativeProbability o))
      eqn:E.
    + exists O, o. auto.
    + assert (Hge : (acc + ProbabilityObject.relativeProbability o <= target)%Q).
      { apply Qnot_lt_le. intros Hlt. apply Qlt_bool_iff in Hlt. congruence. }
      destruct (IH (acc + ProbabilityObject.relativeProbability o)%Q)
        as (i & o' & Hi & Hn).
      { unfold total_weight in *. lra. }
      exists (S i), o'. rewrite Hi. auto.
Qed.

Lemma index_above_in_range {K D : Type} (pool : ProbabilityObjectArray K D)
  (target acc : Q) (i : nat) :
  index_above target acc pool = Some i ->
  exists o, nth_error pool i = Some o.
Proof.
  revert acc i. induction pool as [|o pool IH]; simpl; intros acc i H.
  - discriminate.
  - destruct (Qlt_bool _ _).
    + inversion H; subst. exists o. reflexivity.
    + destruct (index_above _ _ pool) as [j|] eqn:E; [|discriminate].
      inversion H; subst. simpl. eapply IH, E.
Qed.

Lemma weighted_index_some {K D : Type} (pool : ProbabilityObjectArray K D) (u : Q) :
  pool <> [] ->
  (forall o, In o pool -> (0 < ProbabilityObject.relativeProbability o)%Q) ->
  (0 <= u < 1)%Q ->
  exists i o, weighted_index u pool = Some i /\ nth_error pool i = Some o.
Proof.
  intros Hne Hpos [Hu0 Hu1]. unfold weighted_index. apply index_above_some.
  assert (Ht : (0 < total_weight pool)%Q).
  { destruct pool as [|o pool]; [congruence|]. simpl.
    assert (0 < ProbabilityObject.relativeProbability o)%Q by (apply Hpos; simpl; auto).
    assert (0 <= total_weight pool)%Q
      by (apply total_weight_nonneg; intros; apply Hpos; simpl; auto).
    unfold total_weight in *. lra. }
  assert (u * total_weight pool < 1 * total_weight pool)%Q
    by (apply Qmult_lt_r; assumption).
  assert (0 <= u * total_weight pool)%Q
    by (apply Qmult_le_0_compat; [assumption | apply Qlt_le_weak, Ht]).
  lra.
Qed.

Lemma count_occ_filter_le (f : string -> bool) (l : list string) (x : string) :
  NoDup (filter f l) -> f x = true -> (count_occ string_dec l x <= 1)%nat.
Proof.
  intros Hnd Hx.
  assert (E : count_occ string_dec (filter f l) x = count_occ string_dec l x).
  { clear Hnd. induction l as [|a l IH]; simpl; [reflexivity|].
    destruct (string_dec a x) as [->|Hne].
    - rewrite Hx. simpl. destruct (string_dec x x); [|congruence]. rewrite IH.
      reflexivity.
    - destruct (f a); simpl; [|exact IH].
      destruct (string_dec a x); [congruence | exact IH]. }
  rewrite <- E. apply (proj1 (NoDup_count_occ string_dec _) Hnd).
Qed.

Lemma filtered_rows_stay_distinct (keep : string * Q -> bool)
  (rows : list (string * Q)) :
  NoDup (map fst rows) -> NoDup (map fst (filter keep rows)).
Proof.
  induction rows as [|row rows IH]; simpl; intros H; [constructor|].
  inversion H as [|? ? Hrow Hrows]; subst.
  destruct (keep row); simpl; [|auto].
  constructor; [|auto].
  rewrite in_map_iff in *. intros (x & Hx & Hin).
  apply Hrow. exists x. split; [exact Hx|]. apply filter_In in Hin. tauto.
Qed.

Lemma fixture_sample_in_range (w : Fixture.World) :
  (0 <= fst (Fixture.next_sample w) < 1)%Q.
Proof.
  unfold Fixture.next_sample. destruct (Fixture.samples w) as [|u rest]; simpl.
  - split; [apply Qle_refl | reflexivity].
  - unfold Fixture.in_unit_interval.
    destruct (Qle_bool 0 u) eqn:E0; simpl; [|split; [apply Qle_refl | reflexivity]].
    destruct (Qlt_bool u 1) eqn:E1; simpl; [|split; [apply Qle_refl | reflexivity]].
    split; [apply Qle_bool_iff, E0 | apply Qlt_bool_iff, E1].
Qed.

Lemma Forall2_In_l {A B : Type} (R : A -> B -> Prop) (l : list A) (l' : list B)
  (x : A) :
  Forall2 R l l' -> In x l -> exists y, In y l' /\ R x y.
Proof.
  induction 1 as [|a b l l' Hab H IH]; simpl; [contradiction|].
  intros [->|Hx]; [eauto|]. destruct (IH Hx) as (y & Hy & Hr). eauto.
Qed.

Lemma Forall2_In_r {A B : Type} (R : A -> B -> Prop) (l : list A) (l' : list B)
  (y : B) :
  Forall2 R l l' -> In y l' -> exists x, In x l /\ R x y.
Proof.
  induction 1 as [|a b l l' Hab H IH]; simpl; [contradiction|].
  intros [->|Hy]; [eauto|]. destruct (IH Hy) as (x & Hx & Hr). eauto.
Qed.

Section Facts.
Context {World : Type} {services : Services World}.

(** ** Draws *)

Ltac draw_step H u w1 i Ei oi En ks' w2 Ed :=
  simpl in H;
  destruct (random _) as [u w1];
  destruct (weighted_index u _) as [i|] eqn:Ei;
  [destruct (nth_error _ i) as [oi|] eqn:En;
   [destruct (draw_steps _ _ _ _ w1) as [ks' w2] eqn:Ed|]|].

Lemma draw_steps_keys {K D : Type} (locked : K -> bool) (n : nat)
  (replacement : bool) (pool : ProbabilityObjectArray K D) (w w' : World)
  (ks : list K) :
  draw_steps locked n replacement pool w = (ks, w') ->
  forall k, In k ks -> In k (map ProbabilityObject.key pool).
Proof.
  revert pool w w' ks. induction n as [|n IH]; intros pool w w' ks H k Hk.
  - inversion H; subst. contradiction.
  - destruct pool as [|o pool]; [inversion H; subst; contradiction|].
    draw_step H u w1 i Ei oi En ks' w2 Ed;
      inversion H; subst; try contradiction.
    destruct Hk as [<-|Hk].
    + apply in_map, (nth_error_In _ _ En).
    + specialize (IH _ _ _ _ Ed k Hk).
      destruct (replacement || locked (ProbabilityObject.key oi)); [exact IH|].
      rewrite remove_nth_map in IH. exact (remove_nth_In _ _ _ IH).
Qed.

Lemma draw_steps_no_repeat {K D : Type} (locked : K -> bool) (n : nat)
  (pool : ProbabilityObjectArray K D) (w w' : World) (ks : list K) :
  NoDup (map ProbabilityObject.key pool) ->
  draw_steps locked n false pool w = (ks, w') ->
  NoDup (filter (fun k => negb (locked k)) ks).
Proof.
  revert pool w w' ks. induction n as [|n IH]; intros pool w w' ks Hnd H.
  - inversion H; subst. constructor.
  - destruct pool as [|o pool]; [inversion H; subst; constructor|].
    draw_step H u w1 i Ei oi En ks' w2 Ed;
      inversion H; subst; try constructor.
    simpl in Ed. simpl.
    destruct (locked (ProbabilityObject.key oi)) eqn:El; simpl.
    + exact (IH _ _ _ _ Hnd Ed).
    + assert (Hk : nth_error (map ProbabilityObject.key (o :: pool)) i =
                   Some (ProbabilityObject.key oi))
        by (rewrite nth_error_map, En; reflexivity).
      destruct (remove_nth_NoDup _ _ _ Hnd Hk) as [Hnd' Hout].
      rewrite <- remove_nth_map in Hnd', Hout.
      constructor; [|exact (IH _ _ _ _ Hnd' Ed)].
      intros Hin. apply filter_In in Hin. destruct Hin as [Hin _].
      exact (Hout (draw_steps_keys _ _ _ _ _ _ _ Ed _ Hin)).
Qed.

Lemma draw_steps_all {K D : Type} (locked : K -> bool)
  (pool : ProbabilityObjectArray K D) (w w' : World) (ks : list K) :
  (forall w0, (0 <= fst (random w0) < 1)%Q) ->
  (forall k, locked k = false) ->
  (forall o, In o pool -> (0 < ProbabilityObject.relativeProbability o)%Q) ->
  draw_steps locked (List.length pool) false pool w = (ks, w') ->
  Permutation ks (map ProbabilityObject.key pool).
Proof.
  intros Hrandom Hfree. remember (List.length pool) as n eqn:Hn.
  revert pool w w' ks Hn. induction n as [|n IH]; intros pool w w' ks Hn Hpos H.
  - destruct pool; [|discriminate]. inversion H; subst. constructor.
  - destruct pool as [|o pool]; [discriminate|].
    destruct (weighted_index_some (o :: pool) (fst (random w)))
      as (j & oj & Hj & Hnj); [discriminate | exact Hpos | apply Hrandom |].
    simpl in H. destruct (random w) as [u w1]. simpl in Hj.
    rewrite Hj, Hnj, Hfree in H. simpl in H.
    destruct (draw_steps locked n false (remove_nth j (o :: pool)) w1)
      as [ks' w2] eqn:Ed.
    inversion H; subst.
    assert (Hlen : n = List.length (remove_nth j (o :: pool))).
    { pose proof (remove_nth_length _ _ _ Hnj) as L. simpl in L, Hn. lia. }
    assert (Hpos' : forall o', In o' (remove_nth j (o :: pool)) ->
                               (0 < ProbabilityObject.relativeProbability o')%Q).
    { intros o' Ho'. apply Hpos, (remove_nth_In _ _ _ Ho'). }
    rewrite (IH _ _ _ _ Hlen Hpos' Ed), remove_nth_map.
    apply remove_nth_perm. rewrite nth_error_map, Hnj. reflexivity.
Qed.

Lemma draw_steps_single_locked (locked : string -> bool) (n : nat)
  (replacement : bool) (currency : string) (weight : Q) (w : World) :
  (forall w0, (0 <= fst (random w0) < 1)%Q) ->
  locked currency = true ->
  (0 < weight)%Q ->
  fst (draw_steps locked n replacement
         [ProbabilityObject.mk currency weight (@None unit)] w) =
  repeat currency n.
Proof.
  intros Hrandom Hlocked Hpos. revert w. induction n as [|n IH]; intros w.
  - reflexivity.
  - simpl. pose proof (Hrandom w) as [Hu0 Hu1].
    destruct (random w) as [u w1]. simpl in Hu0, Hu1.
    unfold weighted_index. simpl.
    assert (E : Qlt_bool (u * (weight + 0)) (0 + weight) = true).
    { apply Qlt_bool_iff.
      assert (u * weight < 1 * weight)%Q by (apply Qmult_lt_r; assumption).
      lra. }
    rewrite E. simpl. rewrite Hlocked, orb_true_r.
    specialize (IH w1). destruct (draw_steps _ _ _ _ w1) as [ks w2].
    simpl in *. rewrite IH. reflexivity.
Qed.

(** ** The roll of the ungrouped containers *)

Lemma bernoulliSuccesses_sub (members : Record_ Q) (w : World) :
  forall kv, In kv (fst (bernoulliSuccesses members w)) -> In kv members.
Proof.
  revert w. induction members as [|[id p] members IH]; simpl; intros w kv H.
  - contradiction.
  - destruct (getChance100 _ w) as [passed w1].
    specialize (IH w1 kv). destruct (bernoulliSuccesses members w1) as [r w2].
    simpl in *. destruct passed; simpl in H; intuition.
Qed.

Lemma rollContainers_spec (members rolled : Record_ Q) (w : World) :
  NoDup (Object_keys members) ->
  in_enumeration_order (rolled ++ members) ->
  (forall k, In k (Object_keys members) -> ~ In k (Object_keys rolled)) ->
  rollContainers members rolled w =
  (rolled ++ fst (bernoulliSuccesses members w),
   snd (bernoulliSuccesses members w)).
Proof.
  revert rolled w. induction members as [|[id p] members IH]; simpl;
    intros rolled w Hnd Hord Hfresh.
  - rewrite app_nil_r. reflexivity.
  - inversion Hnd as [|? ? Hid Hnd']; subst.
    destruct (getChance100 _ w) as [passed w1].
    destruct (bernoulliSuccesses members w1) as [r w2] eqn:Eb.
    destruct passed; simpl.
    + rewrite rec_set_last.
      * rewrite IH, Eb; [simpl; rewrite <- app_assoc; reflexivity | exact Hnd'| |].
        -- rewrite <- app_assoc. exact Hord.
        -- intros k Hk. unfold Object_keys. rewrite map_app, in_app_iff. simpl.
           intros [H|[<-|[]]]; [apply (Hfresh k); auto | exact (Hid Hk)].
      * apply Hfresh. auto.
      * intros k' Hk'. unfold Object_keys in Hk'. apply in_map_iff in Hk'.
        destruct Hk' as ([k0 v0] & <- & Hin).
        apply in_enumeration_order_app in Hord. destruct Hord as (_ & _ & Hcross).
        exact (Hcross (k0, v0) (id, p) Hin (or_introl eq_refl)).
    + rewrite IH, Eb; [reflexivity | exact Hnd'| |].
      * exact (in_enumeration_order_remove _ _ _ Hord).
      * intros k Hk. apply Hfresh. auto.
Qed.

Lemma containerDistribution_keys (r : Record_ Q) :
  map ProbabilityObject.key (containerDistribution r) = Object_keys r.
Proof.
  unfold containerDistribution, Object_keys. rewrite map_map. reflexivity.
Qed.

Lemma containerDistribution_weights (r : Record_ Q) (o : ProbabilityObject.t string unit) :
  In o (containerDistribution r) ->
  exists id, In (id, ProbabilityObject.relativeProbability o) r.
Proof.
  unfold containerDistribution. rewrite in_map_iff.
  intros ([id p] & <- & Hin). exists id. exact Hin.
Qed.

Lemma exact_count_draws (groupId : string) (pool : Record_ Q) (s : State World) :
  getContainersByProbabilty groupId
    (IContainerGroupCount.mk pool (Z.of_nat (List.length (Object_keys pool)))) s =
  draw_count String.eqb (containerDistribution pool)
    (Some (Z.of_nat (List.length pool))) s.
Proof.
  unfold getContainersByProbabilty.
  cbn [IContainerGroupCount.chosenCount
       IContainerGroupCount.containerIdsWithProbability].
  rewrite Z.ltb_irrefl. unfold Object_keys. rewrite length_map. reflexivity.
Qed.

Lemma choose_ungrouped (members : Record_ Q) (count : Z) (s : State World) :
  let successes := fst (bernoulliSuccesses members (world s)) in
  let rolled := mkState (snd (bernoulliSuccesses members (world s))) (logs s) in
  NoDup (Object_keys members) ->
  in_enumeration_order members ->
  count <> 0 ->
  members <> [] ->
  chooseContainersOfGroup "" (IContainerGroupCount.mk members count) s =
  match successes with
  | [] => (Ok [], rolled)
  | _ :: _ =>
      draw_count String.eqb (containerDistribution successes)
        (Some (Z.of_nat (List.length successes))) rolled
  end.
Proof.
  intros successes rolled Hnd Hord Hcount Hne.
  unfold chooseContainersOfGroup.
  cbn [IContainerGroupCount.chosenCount
       IContainerGroupCount.containerIdsWithProbability].
  apply Z.eqb_neq in Hcount. rewrite Hcount.
  destruct members as [|m members']; [congruence|].
  change (String.eqb "" "") with true. cbv iota.
  unfold bind, call.
  rewrite (rollContainers_spec (m :: members') [] (world s) Hnd Hord)
    by (intros ? ? []).
  rewrite app_nil_l. fold successes. fold rolled.
  cbn [IContainerGroupCount.chosenCount].
  destruct successes as [|kv successes'] eqn:Es; [reflexivity|].
  change (Z.of_nat (List.length (Object_keys (kv :: successes'))) =? 0) with false.
  cbv iota. apply exact_count_draws.
Qed.

(** ** The placement loop *)

Lemma placeLoot_keeps_placed (staticAmmoDist : StaticAmmoDist) (parentId : string)
  (tpls : list string) (containerMap : ContainerMap) (count : Z)
  (placed r : list Item.t) (s s' : State World) :
  placeLoot staticAmmoDist parentId tpls containerMap count placed s = (Ok r, s') ->
  exists more, r = placed ++ more.
Proof.
  revert containerMap count placed s.
  induction tpls as [|tpl tpls IH]; intros containerMap count placed s H.
  - inversion H; subst. exists []. rewrite app_nil_r. reflexivity.
  - simpl in H. unfold bind in H.
    destruct (createStaticLootItem tpl staticAmmoDist (Some parentId) s)
      as [[chosen|e] s1]; [|discriminate].
    destruct (FindSlotResult.success _); simpl in H.
    + destruct (IContainerItem.items chosen) as [|first others]; [discriminate|].
      apply IH in H. destruct H as [more ->].
      rewrite <- app_assoc. eauto.
    + destruct (_ <=? count).
      * inversion H; subst. exists []. rewrite app_nil_r. reflexivity.
      * exact (IH _ _ _ _ H).
Qed.

(** ** The mapping from group ids to containers

    Every dictionary the mapping is made of has distinct keys, as a
    JavaScript object has. *)

Lemma rec_get_Some_In {V : Type} (r : Record_ V) (k : string) (v : V) :
  rec_get r k = Some v -> In (k, v) r.
Proof.
  induction r as [|[k' v'] r IH]; simpl; [discriminate|].
  destruct (String.eqb_spec k k') as [->|Hne].
  - intros H. inversion H. auto.
  - auto.
Qed.

Lemma distinct_ids_set (mapping : Record_ IContainerGroupCount.t)
  (groupId : string) (data : IContainerGroupCount.t) :
  distinct_ids mapping ->
  NoDup (Object_keys (IContainerGroupCount.containerIdsWithProbability data)) ->
  distinct_ids (rec_set mapping groupId data).
Proof.
  intros [Hkeys Hpools] Hdata. split.
  - apply rec_set_NoDup, Hkeys.
  - intros g d Hin. destruct (rec_set_In_inv _ _ _ _ _ Hin) as [H|[_ ->]].
    + exact (Hpools _ _ H).
    + exact Hdata.
Qed.

Lemma chooseGroupCounts_distinct (groups : Record_ IContainerMinMax.t)
  (mapping mapping' : Record_ IContainerGroupCount.t) (s s' : State World) :
  distinct_ids mapping ->
  chooseGroupCounts groups mapping s = (Ok mapping', s') ->
  distinct_ids mapping'.
Proof.
  revert mapping s. induction groups as [|[groupId groupData] groups IH];
    simpl; intros mapping s Hwf H.
  - inversion H; subst. exact Hwf.
  - destruct (rec_get mapping groupId); [exact (IH _ _ Hwf H)|].
    apply bind_ok_inv in H. destruct H as (chosen & s1 & _ & H).
    apply (IH _ _ (distinct_ids_set _ _ (IContainerGroupCount.mk [] chosen) Hwf
                   (NoDup_nil _)) H).
Qed.

Lemma assignContainersToGroups_distinct (containers : Record_ string)
  (staticContainersOnMap : list IStaticContainerData.t)
  (mapping mapping' : Record_ IContainerGroupCount.t) (s s' : State World) :
  distinct_ids mapping ->
  assignContainersToGroups containers staticContainersOnMap mapping s =
    (Ok mapping', s') ->
  distinct_ids mapping'.
Proof.
  revert mapping s.
  induction staticContainersOnMap as [|container rest IH]; simpl;
    intros mapping s Hwf H.
  - inversion H; subst. exact Hwf.
  - destruct (rec_get containers _) as [groupId|].
    + destruct (is_one _).
      * apply bind_ok_inv in H. destruct H as (u & s1 & _ & H).
        exact (IH _ _ Hwf H).
      * apply bind_ok_inv in H. destruct H as (group & s1 & Hgroup & H).
        apply (IH _ _) with (2 := H). apply distinct_ids_set; [exact Hwf|].
        cbn [IContainerGroupCount.containerIdsWithProbability].
        apply rec_set_NoDup.
        destruct (rec_get mapping groupId) as [g|] eqn:E; [|discriminate].
        unfold defined, ret in Hgroup. inversion Hgroup; subst g.
        destruct Hwf as [_ Hpools]. exact (Hpools _ _ (rec_get_Some_In _ _ _ E)).
    + apply bind_ok_inv in H. destruct H as (u & s1 & _ & H).
      exact (IH _ _ Hwf H).
Qed.

Lemma getGroupIdToContainerMappings_distinct
  (staticContainerGroupData : IStaticContainer.t)
  (staticContainersOnMap : list IStaticContainerData.t)
  (mapping : Record_ IContainerGroupCount.t) (s s' : State World) :
  getGroupIdToContainerMappings staticContainerGroupData staticContainersOnMap s =
    (Ok mapping, s') ->
  distinct_ids mapping.
Proof.
  unfold getGroupIdToContainerMappings. intros H.
  apply bind_ok_inv in H. destruct H as (counts & s1 & Hcounts & H).
  apply (assignContainersToGroups_distinct _ _ _ _ _ _) with (2 := H).
  apply (distinct_ids_set _ _ (IContainerGroupCount.mk [] (-1))); [|constructor].
  apply (chooseGroupCounts_distinct _ _ _ _ _) with (2 := Hcounts).
  split; [constructor | intros ? ? []].
Qed.

Lemma chooseGroupCounts_returns (groups : Record_ IContainerMinMax.t)
  (mapping : Record_ IContainerGroupCount.t) (s : State World) :
  exists mapping' s',
    chooseGroupCounts groups mapping s = (Ok mapping', s') /\
    (forall g, In g (Object_keys mapping') <->
               In g (Object_keys mapping) \/ In g (Object_keys groups)) /\
    ((forall g d, In (g, d) mapping ->
                  IContainerGroupCount.containerIdsWithProbability d = []) ->
     forall g d, In (g, d) mapping' ->
                 IContainerGroupCount.containerIdsWithProbability d = []).
Proof.
  revert mapping s. induction groups as [|[groupId groupData] groups IH];
    intros mapping s.
  - exists mapping, s. simpl. repeat split; tauto.
  - simpl. destruct (rec_get mapping groupId) as [d0|] eqn:E.
    + destruct (IH mapping s) as (m' & s' & H & Hkeys & Hpools).
      exists m', s'. split; [exact H|]. split; [|exact Hpools].
      intros g. rewrite Hkeys.
      assert (In groupId (Object_keys mapping))
        by (apply rec_get_In; congruence).
      intuition (subst; auto).
    + unfold bind, call. destruct (getInt _ _ (world s)) as [chosen w1].
      destruct (IH (rec_set mapping groupId (IContainerGroupCount.mk [] chosen))
                  (mkState w1 (logs s))) as (m' & s' & H & Hkeys & Hpools).
      exists m', s'. split; [exact H|]. split.
      * intros g. rewrite Hkeys. split.
        -- intros [Hg|Hg]; [|auto].
           destruct (rec_set_keys_inv _ _ _ _ Hg); subst; auto.
        -- intros [Hg|[Hg|Hg]]; [left|left|right; exact Hg];
             apply rec_set_keys_incl; auto.
      * intros Hempty. apply Hpools. intros g d Hin.
        destruct (rec_set_In_inv _ _ _ _ _ Hin) as [Hold|[_ ->]];
          [exact (Hempty _ _ Hold) | reflexivity].
Qed.

Lemma assignContainersToGroups_keys (containers : Record_ string)
  (staticContainersOnMap : list IStaticContainerData.t)
  (mapping mapping' : Record_ IContainerGroupCount.t) (s s' : State World) :
  assignContainersToGroups containers staticContainersOnMap mapping s =
    (Ok mapping', s') ->
  Object_keys mapping' = Object_keys mapping.
Proof.
  revert mapping s. induction staticContainersOnMap as [|container rest IH];
    simpl; intros mapping s H.
  - inversion H. reflexivity.
  - destruct (rec_get containers _) as [groupId|].
    + destruct (is_one _).
      * apply bind_ok_inv in H. destruct H as (u & s1 & _ & H). exact (IH _ _ H).
      * apply bind_ok_inv in H. destruct H as (group & s1 & Hgroup & H).
        rewrite (IH _ _ H). apply rec_set_keys_present.
        apply rec_get_In. destruct (rec_get mapping groupId); [discriminate|].
        discriminate.
    + apply bind_ok_inv in H. destruct H as (u & s1 & _ & H). exact (IH _ _ H).
Qed.

Lemma assignContainersToGroups_grows (containers : Record_ string)
  (staticContainersOnMap : list IStaticContainerData.t)
  (mapping mapping' : Record_ IContainerGroupCount.t) (s s' : State World) :
  assignContainersToGroups containers staticContainersOnMap mapping s =
    (Ok mapping', s') ->
  forall g d,
    rec_get mapping g = Some d ->
    exists d',
      rec_get mapping' g = Some d' /\
      IContainerGroupCount.chosenCount d' = IContainerGroupCount.chosenCount d /\
      forall id,
        In id (Object_keys (IContainerGroupCount.containerIdsWithProbability d)) ->
        In id (Object_keys (IContainerGroupCount.containerIdsWithProbability d')).
Proof.
  revert mapping s. induction staticContainersOnMap as [|container rest IH];
    simpl; intros mapping s H g d Hg.
  - inversion H; subst. exists d. auto.
  - destruct (rec_get containers _) as [groupId|].
    + destruct (is_one _).
      * apply bind_ok_inv in H. destruct H as (u & s1 & _ & H).
        exact (IH _ _ H g d Hg).
      * apply bind_ok_inv in H. destruct H as (group & s1 & Hgroup & H).
        destruct (rec_get mapping groupId) as [group'|] eqn:E; [|discriminate].
        unfold defined, ret in Hgroup. inversion Hgroup; subst group' s1.
        destruct (string_dec g groupId) as [->|Hne].
        -- rewrite E in Hg. inversion Hg; subst d.
           destruct (IH _ _ H groupId _ (rec_get_set_same _ _ _))
             as (d' & Hd' & Hcount & Hids).
           exists d'. split; [exact Hd'|]. split; [exact Hcount|].
           intros id Hid. apply Hids.
           cbn [IContainerGroupCount.containerIdsWithProbability].
           apply rec_set_keys_incl. auto.
        -- apply (IH _ _ H g d). rewrite rec_get_set_other by assumption.
           exact Hg.
    + apply bind_ok_inv in H. destruct H as (u & s1 & _ & H).
      exact (IH _ _ H g d Hg).
Qed.

Lemma assignContainersToGroups_complete (containers : Record_ string)
  (staticContainersOnMap : list IStaticContainerData.t)
  (mapping mapping' : Record_ IContainerGroupCount.t) (s s' : State World) :
  assignContainersToGroups containers staticContainersOnMap mapping s =
    (Ok mapping', s') ->
  forall c g,
    In c staticContainersOnMap ->
    is_one (IStaticContainerData.probability c) = false ->
    rec_get containers (SpawnpointTemplate.Id (IStaticContainerData.template c)) =
      Some g ->
    exists d,
      rec_get mapping' g = Some d /\
      In (SpawnpointTemplate.Id (IStaticContainerData.template c))
         (Object_keys (IContainerGroupCount.containerIdsWithProbability d)).
Proof.
  revert mapping s. induction staticContainersOnMap as [|container rest IH];
    simpl; intros mapping s H c g Hc Hone Hg; [contradiction|].
  destruct Hc as [->|Hc].
  - rewrite Hg, Hone in H.
    apply bind_ok_inv in H. destruct H as (group & s1 & Hgroup & H).
    destruct (assignContainersToGroups_grows _ _ _ _ _ _ H g _
                (rec_get_set_same _ _ _)) as (d' & Hd' & _ & Hids).
    exists d'. split; [exact Hd'|]. apply Hids.
    cbn [IContainerGroupCount.containerIdsWithProbability].
    apply rec_set_keys_incl. auto.
  - destruct (rec_get containers
                (SpawnpointTemplate.Id (IStaticContainerData.template container)))
      as [groupId|].
    + destruct (is_one (IStaticContainerData.probability container)).
      * apply bind_ok_inv in H. destruct H as (u & s1 & _ & H).
        exact (IH _ _ H c g Hc Hone Hg).
      * apply bind_ok_inv in H. destruct H as (group & s1 & _ & H).
        exact (IH _ _ H c g Hc Hone Hg).
    + apply bind_ok_inv in H. destruct H as (u & s1 & _ & H).
      exact (IH _ _ H c g Hc Hone Hg).
Qed.

Lemma assignContainersToGroups_sound (containers : Record_ string)
  (all staticContainersOnMap : list IStaticContainerData.t)
  (mapping mapping' : Record_ IContainerGroupCount.t) (s s' : State World) :
  let sound (m : Record_ IContainerGroupCount.t) :=
    forall g d id p,
      In (g, d) m ->
      In (id, p) (IContainerGroupCount.containerIdsWithProbability d) ->
      rec_get containers id = Some g /\
      exists c,
        In c all /\
        SpawnpointTemplate.Id (IStaticContainerData.template c) = id /\
        IStaticContainerData.probability c = p /\
        is_one p = false in
  (forall c, In c staticContainersOnMap -> In c all) ->
  sound mapping ->
  assignContainersToGroups containers staticContainersOnMap mapping s =
    (Ok mapping', s') ->
  sound mapping'.
Proof.
  intros sound. revert mapping s.
  induction staticContainersOnMap as [|container rest IH];
    simpl; intros mapping s Hall Hsound H.
  - inversion H; subst. exact Hsound.
  - assert (Hrest : forall c, In c rest -> In c all) by auto.
    destruct (rec_get containers _) as [groupId|] eqn:Eg.
    + destruct (is_one _) eqn:Eone.
      * apply bind_ok_inv in H. destruct H as (u & s1 & _ & H).
        exact (IH _ _ Hrest Hsound H).
      * apply bind_ok_inv in H. destruct H as (group & s1 & Hgroup & H).
        destruct (rec_get mapping groupId) as [group'|] eqn:E; [|discriminate].
        unfold defined, ret in Hgroup. inversion Hgroup; subst group' s1.
        apply (IH _ _ Hrest) with (2 := H).
        intros g d id p Hin Hid.
        destruct (rec_set_In_inv _ _ _ _ _ Hin) as [Hold|[-> ->]].
        -- exact (Hsound _ _ _ _ Hold Hid).
        -- cbn [IContainerGroupCount.containerIdsWithProbability] in Hid.
           destruct (rec_set_In_inv _ _ _ _ _ Hid) as [Hold|[-> ->]].
           ++ exact (Hsound _ _ _ _ (rec_get_Some_In _ _ _ E) Hold).
           ++ split; [exact Eg|]. exists container. auto.
    + apply bind_ok_inv in H. destruct H as (u & s1 & _ & H).
      exact (IH _ _ Hrest Hsound H).
Qed.

Lemma assignContainersToGroups_throws (containers : Record_ string)
  (staticContainersOnMap : list IStaticContainerData.t)
  (mapping : Record_ IContainerGroupCount.t) (s s' : State World) (e : exn) :
  assignContainersToGroups containers staticContainersOnMap mapping s =
    (Throw e, s') ->
  e = TypeError.
Proof.
  revert mapping s. induction staticContainersOnMap as [|container rest IH];
    simpl; intros mapping s H; [discriminate|].
  destruct (rec_get containers _) as [groupId|].
  - destruct (is_one _).
    + unfold bind, logger in H. exact (IH _ _ H).
    + unfold bind, defined in H. destruct (rec_get mapping groupId).
      * unfold ret in H. exact (IH _ _ H).
      * inversion H. reflexivity.
  - unfold bind, logger in H. exact (IH _ _ H).
Qed.

Lemma getGroupIdToContainerMappings_keys
  (staticContainerGroupData : IStaticContainer.t)
  (staticContainersOnMap : list IStaticContainerData.t)
  (mapping : Record_ IContainerGroupCount.t) (s s' : State World) :
  getGroupIdToContainerMappings staticContainerGroupData staticContainersOnMap s =
    (Ok mapping, s') ->
  forall g,
    In g (Object_keys mapping) <->
    g = "" \/
    In g (Object_keys (IStaticContainer.containersGroups staticContainerGroupData)).
Proof.
  intros H. unfold getGroupIdToContainerMappings in H.
  apply bind_ok_inv in H. destruct H as (counts & s1 & Hcounts & H).
  destruct (chooseGroupCounts_returns
              (IStaticContainer.containersGroups staticContainerGroupData) [] s)
    as (counts' & s1' & Hcounts' & Hkeys & _).
  rewrite Hcounts in Hcounts'. inversion Hcounts'; subst counts' s1'.
  intros g. rewrite (assignContainersToGroups_keys _ _ _ _ _ _ H). split.
  - intros Hg. destruct (rec_set_keys_inv _ _ _ _ Hg) as [->|Hg']; [auto|].
    apply Hkeys in Hg'. destruct Hg' as [[]|Hg']. auto.
  - intros [->|Hg]; apply rec_set_keys_incl; [auto|].
    right. apply Hkeys. auto.
Qed.

Lemma getGroupIdToContainerMappings_complete
  (staticContainerGroupData : IStaticContainer.t)
  (staticContainersOnMap : list IStaticContainerData.t)
  (mapping : Record_ IContainerGroupCount.t) (s s' : State World) :
  getGroupIdToContainerMappings staticContainerGroupData staticContainersOnMap s =
    (Ok mapping, s') ->
  forall container groupId,
    In container staticContainersOnMap ->
    is_one (IStaticContainerData.probability container) = false ->
    rec_get (IStaticContainer.containers staticContainerGroupData)
      (SpawnpointTemplate.Id (IStaticContainerData.template container)) =
      Some groupId ->
    exists data,
      rec_get mapping groupId = Some data /\
      In (SpawnpointTemplate.Id (IStaticContainerData.template container))
         (Object_keys (IContainerGroupCount.containerIdsWithProbability data)).
Proof.
  intros H. unfold getGroupIdToContainerMappings in H.
  apply bind_ok_inv in H. destruct H as (counts & s1 & _ & H).
  exact (assignContainersToGroups_complete _ _ _ _ _ _ H).
Qed.

Lemma getGroupIdToContainerMappings_ungrouped
  (staticContainerGroupData : IStaticContainer.t)
  (staticContainersOnMap : list IStaticContainerData.t)
  (mapping : Record_ IContainerGroupCount.t) (s s' : State World) :
  getGroupIdToContainerMappings staticContainerGroupData staticContainersOnMap s =
    (Ok mapping, s') ->
  exists ungrouped,
    rec_get mapping "" = Some ungrouped /\
    IContainerGroupCount.chosenCount ungrouped = -1.
Proof.
  intros H. unfold getGroupIdToContainerMappings in H.
  apply bind_ok_inv in H. destruct H as (counts & s1 & Hcounts & H).
  destruct (assignContainersToGroups_grows _ _ _ _ _ _ H "" _
              (rec_get_set_same _ _ _)) as (d' & Hd' & Hcount & _).
  exists d'. split; [exact Hd' | exact Hcount].
Qed.

Lemma getGroupIdToContainerMappings_sound
  (staticContainerGroupData : IStaticContainer.t)
  (staticContainersOnMap : list IStaticContainerData.t)
  (mapping : Record_ IContainerGroupCount.t) (s s' : State World) :
  getGroupIdToContainerMappings staticContainerGroupData staticContainersOnMap s =
    (Ok mapping, s') ->
  forall groupId data containerId weight,
    In (groupId, data) mapping ->
    In (containerId, weight) (IContainerGroupCount.containerIdsWithProbability data) ->
    exists container,
      In container staticContainersOnMap /\
      SpawnpointTemplate.Id (IStaticContainerData.template container) = containerId.
Proof.
  intros H. unfold getGroupIdToContainerMappings in H.
  apply bind_ok_inv in H. destruct H as (counts & s1 & Hcounts & H).
  destruct (chooseGroupCounts_returns
              (IStaticContainer.containersGroups staticContainerGroupData) [] s)
    as (counts' & s1' & Hcounts' & _ & Hempty).
  rewrite Hcounts in Hcounts'. inversion Hcounts'; subst counts' s1'.
  assert (Hsound :
            forall g d id p,
              In (g, d) mapping ->
              In (id, p) (IContainerGroupCount.containerIdsWithProbability d) ->
              rec_get (IStaticContainer.containers staticContainerGroupData) id =
                Some g /\
              exists c,
                In c staticContainersOnMap /\
                SpawnpointTemplate.Id (IStaticContainerData.template c) = id /\
                IStaticContainerData.probability c = p /\
                is_one p = false).
  { apply (assignContainersToGroups_sound _ staticContainersOnMap _ _ _ _ _
             (fun c Hc => Hc)) with (2 := H).
    intros g0 d0 id0 p0 Hin0 Hid0.
    destruct (rec_set_In_inv _ _ _ _ _ Hin0) as [Hold|[_ ->]].
    - rewrite (Hempty (fun _ _ F => match F with end) _ _ Hold) in Hid0.
      contradiction.
    - contradiction. }
  intros g d id p Hin Hid.
  destruct (Hsound g d id p Hin Hid) as (_ & c & Hc & Hcid & _). eauto.
Qed.

(** Every pool of the mapping is in the order of enumeration. *)

Lemma chooseGroupCounts_ordered (groups : Record_ IContainerMinMax.t)
  (mapping mapping' : Record_ IContainerGroupCount.t) (s s' : State World) :
  ordered_pools mapping ->
  chooseGroupCounts groups mapping s = (Ok mapping', s') ->
  ordered_pools mapping'.
Proof.
  revert mapping s. induction groups as [|[groupId groupData] groups IH];
    simpl; intros mapping s Hwf H.
  - inversion H; subst. exact Hwf.
  - destruct (rec_get mapping groupId); [exact (IH _ _ Hwf H)|].
    apply bind_ok_inv in H. destruct H as (chosen & s1 & _ & H).
    apply (IH _ _) with (2 := H). intros g d Hin.
    destruct (rec_set_In_inv _ _ _ _ _ Hin) as [Hold|[_ ->]];
      [exact (Hwf _ _ Hold) | constructor].
Qed.

Lemma assignContainersToGroups_ordered (containers : Record_ string)
  (staticContainersOnMap : list IStaticContainerData.t)
  (mapping mapping' : Record_ IContainerGroupCount.t) (s s' : State World) :
  ordered_pools mapping ->
  assignContainersToGroups containers staticContainersOnMap mapping s =
    (Ok mapping', s') ->
  ordered_pools mapping'.
Proof.
  revert mapping s.
  induction staticContainersOnMap as [|container rest IH]; simpl;
    intros mapping s Hwf H.
  - inversion H; subst. exact Hwf.
  - destruct (rec_get containers _) as [groupId|].
    + destruct (is_one _).
      * apply bind_ok_inv in H. destruct H as (u & s1 & _ & H).
        exact (IH _ _ Hwf H).
      * apply bind_ok_inv in H. destruct H as (group & s1 & Hgroup & H).
        apply (IH _ _) with (2 := H). intros g d Hin.
        destruct (rec_set_In_inv _ _ _ _ _ Hin) as [Hold|[_ ->]];
          [exact (Hwf _ _ Hold)|].
        cbn [IContainerGroupCount.containerIdsWithProbability].
        apply rec_set_ordered.
        destruct (rec_get mapping groupId) as [g0|] eqn:E; [|discriminate].
        unfold defined, ret in Hgroup. inversion Hgroup; subst g0.
        exact (Hwf _ _ (rec_get_Some_In _ _ _ E)).
    + apply bind_ok_inv in H. destruct H as (u & s1 & _ & H).
      exact (IH _ _ Hwf H).
Qed.

Lemma getGroupIdToContainerMappings_ordered
  (staticContainerGroupData : IStaticContainer.t)
  (staticContainersOnMap : list IStaticContainerData.t)
  (mapping : Record_ IContainerGroupCount.t) (s s' : State World) :
  getGroupIdToContainerMappings staticContainerGroupData staticContainersOnMap s =
    (Ok mapping, s') ->
  ordered_pools mapping.
Proof.
  unfold getGroupIdToContainerMappings. intros H.
  apply bind_ok_inv in H. destruct H as (counts & s1 & Hcounts & H).
  apply (assignContainersToGroups_ordered _ _ _ _ _ _) with (2 := H).
  intros g d Hin.
  destruct (rec_set_In_inv _ _ _ _ _ Hin) as [Hold|[_ ->]]; [|constructor].
  assert (Hc : ordered_pools counts).
  { apply (chooseGroupCounts_ordered _ _ _ _ _) with (2 := Hcounts).
    intros ? ? []. }
  exact (Hc _ _ Hold).
Qed.

Lemma rec_get_of_In {V : Type} (r : Record_ V) (k : string) (v : V) :
  NoDup (Object_keys r) -> In (k, v) r -> rec_get r k = Some v.
Proof.
  induction r as [|[k' v'] r IH]; simpl; intros Hnd Hin; [contradiction|].
  inversion Hnd as [|? ? Hk Hnd']; subst.
  destruct Hin as [E|Hin].
  - inversion E; subst. rewrite String.eqb_refl. reflexivity.
  - destruct (String.eqb_spec k k') as [->|_]; [|exact (IH Hnd' Hin)].
    exfalso. apply Hk. unfold Object_keys. apply in_map_iff.
    exists (k', v). auto.
Qed.

(** The chosen ids that name a container are filled in their order. *)
Lemma addChosenContainers_spec
  (staticRandomisableContainersOnMap : list IStaticContainerData.t)
  (staticForcedOnMap : option (list IStaticForcedProps.t))
  (staticLootDist : Record_ IStaticLootDetails.t)
  (staticAmmoDist : StaticAmmoDist) (locationId : string)
  (chosenContainerIds : list string) (s : State World) :
  let named id x :=
    String.eqb (SpawnpointTemplate.Id (IStaticContainerData.template x)) id in
  let fill c :=
    addLootToContainer c staticForcedOnMap staticLootDist staticAmmoDist
      locationId in
  (forall id, In id chosenContainerIds ->
     find (named id) staticRandomisableContainersOnMap <> None) ->
  match addChosenContainers staticRandomisableContainersOnMap staticForcedOnMap
          staticLootDist staticAmmoDist locationId chosenContainerIds s with
  | (Ok added, _) =>
      Forall2
        (fun id t => exists c c' s1 s2,
             find (named id) staticRandomisableContainersOnMap = Some c /\
             fill c s1 = (Ok c', s2) /\
             t = IStaticContainerData.template c')
        chosenContainerIds added
  | (Throw e, _) =>
      exists c s1 s2,
        In c staticRandomisableContainersOnMap /\ fill c s1 = (Throw e, s2)
  end.
Proof.
  intros named fill. revert s.
  induction chosenContainerIds as [|id ids IH]; intros s Hfound.
  - simpl. constructor.
  - simpl. fold (named id).
    destruct (find (named id) staticRandomisableContainersOnMap) as [c|] eqn:Ec;
      [|exfalso; apply (Hfound id); [left; reflexivity | exact Ec]].
    unfold bind at 1. fold (fill c).
    destruct (fill c s) as [[c'|e] s1] eqn:Efill.
    + unfold bind at 1.
      specialize (IH s1 (fun id' H => Hfound id' (or_intror H))).
      destruct (addChosenContainers _ _ _ _ _ ids s1) as [[others|e] s2].
      * unfold ret. constructor; [|exact IH].
        exists c, c', s, s1. auto.
      * exact IH.
    + exists c, s, s1. split; [|exact Efill].
      apply find_some in Ec. tauto.
Qed.

(** The loop over the groups, cut in two. *)
Lemma addContainerGroups_app
  (staticRandomisableContainersOnMap : list IStaticContainerData.t)
  (staticForcedOnMap : option (list IStaticForcedProps.t))
  (staticLootDist : Record_ IStaticLootDetails.t)
  (staticAmmoDist : StaticAmmoDist) (locationId : string)
  (before rest : Record_ IContainerGroupCount.t) (s : State World) :
  let groups :=
    addContainerGroups staticRandomisableContainersOnMap staticForcedOnMap
      staticLootDist staticAmmoDist locationId in
  groups (before ++ rest) s =
  (earlier <- groups before ;; later <- groups rest ;; ret (earlier ++ later)) s.
Proof.
  cbv zeta. revert s. induction before as [|[groupId data] before IH];
    intros s.
  - simpl. unfold bind, ret.
    destruct (addContainerGroups _ _ _ _ _ rest s) as [[later|e] s1]; reflexivity.
  - simpl. unfold bind.
    destruct (chooseContainersOfGroup groupId data s) as [[ids|e] s1];
      [|reflexivity].
    destruct (addChosenContainers _ _ _ _ _ ids s1) as [[added|e] s2];
      [|reflexivity].
    rewrite IH. unfold bind, ret.
    destruct (addContainerGroups _ _ _ _ _ before s2) as [[earlier|e] s3];
      [|reflexivity].
    destruct (addContainerGroups _ _ _ _ _ rest s3) as [[later|e] s4];
      [|reflexivity].
    rewrite app_assoc. reflexivity.
Qed.

(** ** Spawn points *)

Lemma classifySpawnpoints_spec (blacklist : option (list string))
  (all : list Spawnpoint.t) (s : State World) :
  let off sp :=
    opt_includes blacklist (SpawnpointTemplate.Id (Spawnpoint.template sp)) in
  exists s',
    classifySpawnpoints blacklist all s =
    (Ok (filter (fun sp => negb (off sp) && is_one (Spawnpoint.probability sp)) all,
         map (fun sp =>
                ProbabilityObject.mk
                  (SpawnpointTemplate.Id (Spawnpoint.template sp))
                  (Spawnpoint.probability sp) (Some sp))
           (filter (fun sp => negb (off sp) && negb (is_one (Spawnpoint.probability sp)))
              all)),
     s') /\
    world s' = world s.
Proof.
  intros off. revert s. induction all as [|sp all IH]; intros s.
  - exists s. split; reflexivity.
  - simpl. subst off. simpl.
    destruct (opt_includes blacklist _) eqn:Eb; simpl.
    + unfold bind, logger.
      destruct (IH (mkState (world s)
                      (logs s ++ [(LogDebug, IgnoringLooseLootLocation
                         (SpawnpointTemplate.Id (Spawnpoint.template sp)))])))
        as (s' & H & Hw).
      exists s'. split; [exact H | exact Hw].
    + destruct (IH s) as (s' & H & Hw). exists s'. split; [|exact Hw].
      unfold bind. rewrite H.
      destruct (is_one (Spawnpoint.probability sp)); reflexivity.
Qed.

Lemma data_of_pool (l : list Spawnpoint.t) (k : string) (sp : Spawnpoint.t) :
  data_of String.eqb
    (map (fun sp =>
            ProbabilityObject.mk (SpawnpointTemplate.Id (Spawnpoint.template sp))
              (Spawnpoint.probability sp) (Some sp))
       l) k = Some sp ->
  In sp l.
Proof.
  unfold data_of. induction l as [|x l IH]; simpl; [discriminate|].
  destruct (String.eqb _ k); simpl.
  - intros H. inversion H. auto.
  - auto.
Qed.

Lemma chosenSpawnpointsOf_inv (dynamicLootDist : ILooseLoot.t) (name : string)
  (s s' : State World) (chosen : list Spawnpoint.t) :
  chosenSpawnpointsOf dynamicLootDist name s = (Ok chosen, s') ->
  exists picked,
    chosen =
      uniqueByLocationId
        (filter (fun sp => negb (blacklisted name sp) &&
                           is_one (Spawnpoint.probability sp))
           (ILooseLoot.spawnpoints dynamicLootDist) ++ picked) /\
    forall sp, In sp picked ->
               In sp (ILooseLoot.spawnpoints dynamicLootDist) /\
               blacklisted name sp = false.
Proof.
  unfold chosenSpawnpointsOf. intros H.
  apply bind_ok_inv in H. destruct H as (sample & s1 & _ & H).
  apply bind_ok_inv in H. destruct H as ([g pool] & s2 & Hc & H).
  destruct (classifySpawnpoints_spec
              (rec_get (ILocationConfig.looseLootBlacklist locationConfig) name)
              (ILooseLoot.spawnpoints dynamicLootDist) s1) as (s2' & Hspec & _).
  rewrite Hspec in Hc. inversion Hc; subst g pool s2'. clear Hc Hspec.
  apply bind_ok_inv in H. destruct H as (chosen' & s3 & Hchoose & H).
  apply bind_ok_inv in H. destruct H as (u & s4 & _ & H).
  unfold ret in H. inversion H; subst chosen' s4. clear H.
  unfold chooseSpawnpoints in Hchoose.
  apply bind_ok_inv in Hchoose. destruct Hchoose as (drawn & s5 & _ & H).
  apply bind_ok_inv in H. destruct H as (picked & s6 & Hpicked & H).
  unfold ret in H. inversion H; subst. clear H.
  exists picked. split; [reflexivity|].
  unfold lift in Hpicked. inversion Hpicked as [[Hdef Hs]]. clear Hpicked.
  apply all_defined_inv in Hdef.
  intros sp Hsp.
  assert (Hin : In (Some sp) (map Some picked)) by (apply in_map, Hsp).
  rewrite <- Hdef in Hin. apply in_map_iff in Hin. destruct Hin as (k & Hk & _).
  apply data_of_pool in Hk. apply filter_In in Hk. destruct Hk as [Hall Hflags].
  split; [exact Hall|].
  apply andb_true_iff in Hflags. destruct Hflags as [Hb _].
  apply negb_true_iff in Hb. exact Hb.
Qed.

Lemma addLootToSpawnpoint_Id (staticAmmoDist : StaticAmmoDist)
  (spawnPoint : Spawnpoint.t) (s s' : State World) (t : SpawnpointTemplate.t) :
  addLootToSpawnpoint staticAmmoDist spawnPoint s = (Ok t, s') ->
  SpawnpointTemplate.Id t = SpawnpointTemplate.Id (Spawnpoint.template spawnPoint).
Proof.
  unfold addLootToSpawnpoint. intros H.
  apply bind_ok_inv in H. destruct H as (d & s1 & _ & H).
  apply bind_ok_inv in H. destruct H as (drawn & s2 & _ & H).
  apply bind_ok_inv in H. destruct H as (created & s3 & _ & H).
  apply bind_ok_inv in H. destruct H as (first & s4 & _ & H).
  unfold ret in H. inversion H. reflexivity.
Qed.

Lemma generateDynamicLoot_inv (dynamicLootDist : ILooseLoot.t)
  (staticAmmoDist : StaticAmmoDist) (name : string) (s s' : State World)
  (loot : list SpawnpointTemplate.t) :
  generateDynamicLoot dynamicLootDist staticAmmoDist name s = (Ok loot, s') ->
  exists forced chosen loose s1 s2,
    addForcedLoot (ILooseLoot.spawnpointsForced dynamicLootDist) name s =
      (Ok forced, s1) /\
    chosenSpawnpointsOf dynamicLootDist name s1 = (Ok chosen, s2) /\
    loot = forced ++ loose /\
    Forall2
      (fun sp t =>
         SpawnpointTemplate.Id t =
         SpawnpointTemplate.Id (Spawnpoint.template sp))
      chosen loose.
Proof.
  unfold generateDynamicLoot. intros H.
  apply bind_ok_inv in H. destruct H as (forced & s1 & Hforced & H).
  apply bind_ok_inv in H. destruct H as (chosen & s2 & Hchosen & H).
  apply bind_ok_inv in H. destruct H as (loose & s3 & Hloose & H).
  unfold ret in H. inversion H; subst. clear H.
  exists forced, chosen, loose, s1, s2. repeat split; try assumption.
  apply for_each_inv in Hloose.
  eapply Forall2_impl; [|exact Hloose]. simpl.
  intros sp t (sa & sb & Ht). exact (addLootToSpawnpoint_Id _ _ _ _ _ Ht).
Qed.

(** ** Guaranteed and randomisable containers *)

Lemma isRandomisable_negates (x : IStaticContainerData.t) :
  isRandomisable x =
  match isGuaranteed x with
  | Ok b => Ok (negb b)
  | Throw e => Throw e
  end.
Proof.
  unfold isRandomisable, isGuaranteed.
  destruct (is_one _); simpl; [reflexivity|].
  destruct (SpawnpointTemplate.IsAlwaysSpawn _); simpl; [reflexivity|].
  destruct (first_tpl _); reflexivity.
Qed.

Lemma filter_partition (l : list IStaticContainerData.t) :
  match filter_throwing isGuaranteed l, filter_throwing isRandomisable l with
  | Ok g, Ok r => Permutation (g ++ r) l
  | Throw e, Throw e' => e = e'
  | _, _ => False
  end.
Proof.
  induction l as [|x l IH]; simpl.
  - constructor.
  - rewrite isRandomisable_negates.
    destruct (isGuaranteed x) as [b|e]; [|reflexivity].
    destruct (filter_throwing isGuaranteed l) as [g|e],
             (filter_throwing isRandomisable l) as [r|e']; try exact IH.
    destruct b; simpl.
    + constructor. exact IH.
    + apply Permutation_sym, Permutation_cons_app, Permutation_sym, IH.
Qed.

Lemma has_root_item_classified (x : IStaticContainerData.t) :
  SpawnpointTemplate.Items (IStaticContainerData.template x) <> [] ->
  exists b, isGuaranteed x = Ok b.
Proof.
  intros H. unfold isGuaranteed, first_tpl.
  destruct (is_one _); [eauto|].
  destruct (SpawnpointTemplate.IsAlwaysSpawn _); [eauto|].
  destruct (SpawnpointTemplate.Items _); [congruence | eauto].
Qed.

Lemma classified_total (l : list IStaticContainerData.t) :
  (forall x, In x l ->
     SpawnpointTemplate.Items (IStaticContainerData.template x) <> []) ->
  exists g r,
    getGuaranteedContainers (Some l) = Ok g /\
    getRandomisableContainersOnMap (Some l) = Ok r /\
    Permutation (g ++ r) l.
Proof.
  intros H. simpl.
  destruct (filter_throwing_total isGuaranteed l) as [g Hg].
  { intros x Hx. apply has_root_item_classified, H, Hx. }
  destruct (filter_throwing_total isRandomisable l) as [r Hr].
  { intros x Hx. rewrite isRandomisable_negates.
    destruct (has_root_item_classified x (H x Hx)) as [b ->]. eauto. }
  exists g, r. pose proof (filter_partition l) as P.
  rewrite Hg, Hr in P. auto.
Qed.

Lemma templates_of_inv (f : IStaticContainerData.t -> M World IStaticContainerData.t)
  (l : list IStaticContainerData.t) (s s' : State World)
  (o : Outcome (list SpawnpointTemplate.t)) :
  templates_of f l s = (o, s') ->
  match o with
  | Ok ts =>
      Forall2
        (fun c t => exists c' s1 s2,
             f c s1 = (Ok c', s2) /\ t = IStaticContainerData.template c')
        l ts
  | Throw e => exists c s1 s2, In c l /\ f c s1 = (Throw e, s2)
  end.
Proof.
  intros H. apply for_each_inv in H. destruct o as [ts|e].
  - eapply Forall2_impl; [|exact H]. simpl.
    intros c t (s1 & s2 & Hc). unfold bind, ret in Hc.
    destruct (f c s1) as [[c'|e] s3] eqn:Hf; inversion Hc; subst. eauto.
  - destruct H as (c & s1 & s2 & Hin & Hc). unfold bind, ret in Hc.
    destruct (f c s1) as [[c'|e'] s3] eqn:Hf; inversion Hc; subst. eauto.
Qed.

Lemma generateStaticContainers_inv (locationBase : ILocationBase.t)
  (staticAmmoDist : StaticAmmoDist) (s s' : State World)
  (result : list SpawnpointTemplate.t) :
  let name := ILocationBase.Name locationBase in
  let fill c :=
    addLootToContainer c (staticLootField IStaticLootOnMap.staticForced name)
      (IDatabaseTables.loot_staticLoot getTables) staticAmmoDist
      (toLowerCase (ILocationBase.Id locationBase)) in
  generateStaticContainers locationBase staticAmmoDist s = (Ok result, s') ->
  exists all guaranteed filled others,
    staticLootField IStaticLootOnMap.staticContainers name = Some all /\
    getGuaranteedContainers (Some all) = Ok guaranteed /\
    result =
      or_empty (staticLootField IStaticLootOnMap.staticWeapons name) ++
      filled ++ others /\
    Forall2
      (fun c t => exists c' s1 s2,
           fill c s1 = (Ok c', s2) /\ t = IStaticContainerData.template c')
      guaranteed filled.
Proof.
  intros name fill. unfold generateStaticContainers. fold name. intros H.
  apply bind_ok_inv in H. destruct H as (u0 & s0 & _ & H).
  apply bind_ok_inv in H. destruct H as (u1 & s1 & _ & H).
  apply bind_ok_inv in H. destruct H as (r & s2 & Hr & H).
  apply bind_ok_inv in H. destruct H as (u2 & s3 & _ & H).
  apply bind_ok_inv in H. destruct H as (g & s4 & Hg & H).
  apply bind_ok_inv in H. destruct H as (filled & s5 & Hfilled & H).
  apply bind_ok_inv in H. destruct H as (u3 & s6 & _ & H).
  destruct (staticLootField IStaticLootOnMap.staticContainers name) as [all|];
    [|discriminate].
  unfold lift in Hg. inversion Hg as [[Hg' Hs]].
  apply templates_of_inv in Hfilled.
  exists all, g, filled.
  destruct (negb (containerRandomisationEnabled _)).
  - apply bind_ok_inv in H. destruct H as (u4 & s7 & _ & H).
    apply bind_ok_inv in H. destruct H as (others & s8 & _ & H).
    unfold ret in H. inversion H; subst. exists others. auto.
  - apply bind_ok_inv in H. destruct H as (groupData & s7 & _ & H).
    apply bind_ok_inv in H. destruct H as (mapping & s8 & _ & H).
    apply bind_ok_inv in H. destruct H as (others & s9 & _ & H).
    apply bind_ok_inv in H. destruct H as (u5 & s10 & _ & H).
    unfold ret in H. inversion H; subst. exists others. auto.
Qed.

Lemma guaranteed_conditions (c : IStaticContainerData.t) :
  is_one (IStaticContainerData.probability c) = true \/
  SpawnpointTemplate.IsAlwaysSpawn (IStaticContainerData.template c) = true \/
  (exists tpl,
      first_tpl (IStaticContainerData.template c) = Ok tpl /\
      includes containerTypesToNotRandomise tpl = true) ->
  isGuaranteed c = Ok true.
Proof.
  unfold isGuaranteed.
  destruct (is_one _); [reflexivity|].
  destruct (SpawnpointTemplate.IsAlwaysSpawn _); [reflexivity|].
  intros [H|[H|(tpl & -> & H)]]; try discriminate. rewrite H. reflexivity.
Qed.

End Facts.

(** * The claims of the specification *)

Section Claims.
Context {World : Type} {services : Services World}.

(** C9: [getGuaranteedContainers] and [getRandomisableContainersOnMap]
    partition their input.  The two predicates are exact negations of each
    other (they also throw on the same containers, those without a root
    item), so both calls return or both throw, and when they return every
    container of the list is in exactly one of the two results.  They do
    return when every container has its root item. *)
Theorem guaranteed_randomisable_partition (l : list IStaticContainerData.t) :
  (forall x,
      isRandomisable x =
      match isGuaranteed x with
      | Ok b => Ok (negb b)
      | Throw e => Throw e
      end) /\
  match getGuaranteedContainers (Some l), getRandomisableContainersOnMap (Some l) with
  | Ok g, Ok r =>
      Permutation (g ++ r) l /\
      forall x, In x l -> (In x g /\ ~ In x r) \/ (In x r /\ ~ In x g)
  | Throw e, Throw e' => e = e'
  | _, _ => False
  end /\
  ((forall x, In x l ->
      SpawnpointTemplate.Items (IStaticContainerData.template x) <> []) ->
   exists g r,
     getGuaranteedContainers (Some l) = Ok g /\
     getRandomisableContainersOnMap (Some l) = Ok r).
Proof.
  split; [exact isRandomisable_negates|].
  split.
  2:{ intros Hroot. destruct (classified_total l Hroot) as (g & r & Hg & Hr & _).
      eauto. }
  simpl. pose proof (filter_partition l) as P.
  destruct (filter_throwing isGuaranteed l) as [g|e] eqn:Hg,
           (filter_throwing isRandomisable l) as [r|e'] eqn:Hr; try exact P.
  split; [exact P|].
  intros x Hx.
  pose proof (filter_throwing_In _ _ _ Hg x) as Ig.
  pose proof (filter_throwing_In _ _ _ Hr x) as Ir.
  rewrite isRandomisable_negates in Ir.
  apply (Permutation_in x (Permutation_sym P)) in Hx.
  apply in_app_or in Hx. destruct Hx as [Hx|Hx].
  - left. split; [exact Hx|]. intros Hr'.
    apply Ig in Hx. apply Ir in Hr'. destruct Hx as [_ Hx], Hr' as [_ Hr'].
    rewrite Hx in Hr'. discriminate.
  - right. split; [exact Hx|]. intros Hg'.
    apply Ig in Hg'. apply Ir in Hx. destruct Hx as [_ Hx], Hg' as [_ Hg'].
    rewrite Hg' in Hx. discriminate.
Qed.

(** C8: when the count chosen for a group exceeds the number of candidate
    containers, [getContainersByProbabilty] returns the ids of the pool, each
    exactly once, logs the shortfall (wanted against available) and throws
    nothing; the world is left untouched.  The ids of a pool are distinct, as
    the keys of an object are ([getGroupIdToContainerMappings_distinct] for
    the pools the generator builds). *)
Theorem pool_under_supply_returns_whole_pool (groupId : string)
  (containerData : IContainerGroupCount.t) (s : State World) :
  let pool := IContainerGroupCount.containerIdsWithProbability containerData in
  let wanted := IContainerGroupCount.chosenCount containerData in
  NoDup (Object_keys pool) ->
  Z.of_nat (List.length (Object_keys pool)) < wanted ->
  exists ids,
    getContainersByProbabilty groupId containerData s =
      (Ok ids,
       mkState (world s)
         (logs s ++
          [(LogDebug,
            GroupWantsMoreThanPool groupId wanted (List.length (Object_keys pool)))])) /\
    NoDup ids /\
    forall id, In id ids <-> rec_get pool id <> None.
Proof.
  intros pool wanted Hnd Hlt. exists (Object_keys pool).
  split; [|split; [exact Hnd|]].
  - unfold getContainersByProbabilty. fold pool. fold wanted.
    apply Z.ltb_lt in Hlt. rewrite Hlt. reflexivity.
  - intros id. symmetry. apply rec_get_In.
Qed.

(** C2, as the code behaves: when the map has no static container table,
    [generateStaticContainers] logs the error and then throws [TypeError],
    because the missing table is handed to
    [getRandomisableContainersOnMap], which filters it. *)
Theorem missing_container_table_throws (locationBase : ILocationBase.t)
  (staticAmmoDist : StaticAmmoDist) (s : State World) :
  staticLootField IStaticLootOnMap.staticContainers
    (ILocationBase.Name locationBase) = None ->
  exists s',
    generateStaticContainers locationBase staticAmmoDist s = (Throw TypeError, s') /\
    world s' = world s /\
    In (LogError, UnableToFindStaticContainerData (ILocationBase.Name locationBase))
       (logs s').
Proof.
  intros H. unfold generateStaticContainers. rewrite H.
  destruct (staticLootField IStaticLootOnMap.staticWeapons _);
    (eexists; split; [reflexivity|]; simpl; split; [reflexivity|]);
    rewrite ?in_app_iff; simpl; auto.
Qed.

(** C4: with container randomisation disabled, globally or for the map, a
    pass over a map whose containers all have their root item fills every
    guaranteed and every randomisable container: the result is the mounted
    weapons followed by one filled template per container, guaranteed ones
    first, and nothing else; the pass throws only if filling one of the
    containers throws.  No group is formed and nothing is drawn among the
    containers. *)
Theorem randomisation_disabled_adds_every_container
  (locationBase : ILocationBase.t) (staticAmmoDist : StaticAmmoDist)
  (all : list IStaticContainerData.t) (s : State World) :
  let settings := ILocationConfig.containerRandomisationSettings locationConfig in
  let locationId := toLowerCase (ILocationBase.Id locationBase) in
  let name := ILocationBase.Name locationBase in
  let fill c :=
    addLootToContainer c (staticLootField IStaticLootOnMap.staticForced name)
      (IDatabaseTables.loot_staticLoot getTables) staticAmmoDist locationId in
  ContainerRandomisationSettings.enabled settings = false \/
  rec_get (ContainerRandomisationSettings.maps settings) locationId <> Some true ->
  staticLootField IStaticLootOnMap.staticContainers name = Some all ->
  (forall c, In c all ->
     SpawnpointTemplate.Items (IStaticContainerData.template c) <> []) ->
  exists guaranteed randomisable,
    getGuaranteedContainers (Some all) = Ok guaranteed /\
    getRandomisableContainersOnMap (Some all) = Ok randomisable /\
    Permutation (guaranteed ++ randomisable) all /\
    match generateStaticContainers locationBase staticAmmoDist s with
    | (Ok result, _) =>
        exists filled,
          result =
            or_empty (staticLootField IStaticLootOnMap.staticWeapons name) ++ filled /\
          Forall2
            (fun c t => exists c' s1 s2,
                 fill c s1 = (Ok c', s2) /\ t = IStaticContainerData.template c')
            (guaranteed ++ randomisable) filled
    | (Throw e, _) => exists c s1 s2, In c all /\ fill c s1 = (Throw e, s2)
    end.
Proof.
  intros settings locationId name fill Hoff Hall Hroot.
  destruct (classified_total all Hroot) as (g & r & Hg & Hr & P).
  exists g, r. repeat split; try assumption.
  assert (Hdis : containerRandomisationEnabled locationId = false).
  { unfold containerRandomisationEnabled. fold settings.
    destruct Hoff as [->|Hm]; [reflexivity|].
    destruct (rec_get _ locationId) as [[|]|]; try congruence;
      apply andb_false_r. }
  unfold generateStaticContainers. fold locationId name.
  rewrite Hall, Hg, Hr, Hdis. simpl negb. cbv iota.
  unfold bind at 1.
  destruct (error_if_missing _ _ s) as [[[]|e0] s0] eqn:E0.
  2:{ unfold error_if_missing, logger, ret in E0.
      destruct (staticLootField IStaticLootOnMap.staticWeapons name); discriminate. }
  unfold bind at 1. simpl error_if_missing. unfold ret at 1.
  unfold bind at 1, lift at 1.
  unfold bind at 1.
  destruct (error_if_missing _ _ s0) as [[[]|e1] s1] eqn:E1.
  2:{ unfold error_if_missing, logger, ret in E1.
      destruct (staticLootField IStaticLootOnMap.staticForced name); discriminate. }
  unfold bind at 1, lift at 1.
  fold fill. unfold bind at 1.
  destruct (templates_of fill g s1) as [[tg|e] s2] eqn:Eg.
  - apply templates_of_inv in Eg.
    unfold bind at 1, logger at 1. unfold bind at 1, logger at 1.
    unfold bind at 1.
    match goal with |- context [templates_of fill r ?st] =>
      destruct (templates_of fill r st) as [[tr|e] s3] eqn:Er end.
    + apply templates_of_inv in Er. unfold ret.
      exists (tg ++ tr). split; [reflexivity|]. apply Forall2_app; assumption.
    + apply templates_of_inv in Er. destruct Er as (c & sa & sb & Hin & Hc).
      exists c, sa, sb. split; [|exact Hc].
      apply (Permutation_in c P), in_or_app. auto.
  - apply templates_of_inv in Eg. destruct Eg as (c & sa & sb & Hin & Hc).
    exists c, sa, sb. split; [|exact Hc].
    apply (Permutation_in c P), in_or_app. auto.
Qed.

(** C3, as the code behaves: when the loop over the groups of the mapping
    that [getGroupIdToContainerMappings] built reaches the group without id,
    every member rolls its own probability, one Bernoulli trial each, and the
    members that pass become the pool of the group with a target count equal
    to their number.  Unless none passed, the pool then goes through the
    weighted draw of [getContainersByProbabilty] like that of any other
    group.  Every id that comes out is a member that passed; each is looked
    up among the randomisable containers, where it is found, filled by
    [addLootToContainer] and its template put on the result, in the order of
    the draw, after the containers of the groups that come before in the
    mapping; a fill that throws ends the pass.  With a draw without
    replacement, samples in [0, 1) and positive probabilities among the
    members that passed, the ids that come out are all of them, in the order
    in which they are drawn. *)
Theorem ungrouped_containers_roll_then_draw
  (staticContainerGroupData : IStaticContainer.t)
  (staticRandomisableContainersOnMap : list IStaticContainerData.t)
  (staticForcedOnMap : option (list IStaticForcedProps.t))
  (staticLootDist : Record_ IStaticLootDetails.t)
  (staticAmmoDist : StaticAmmoDist) (locationId : string)
  (mapping before rest : Record_ IContainerGroupCount.t)
  (data : IContainerGroupCount.t) (s0 s0' s : State World) :
  let members := IContainerGroupCount.containerIdsWithProbability data in
  let successes := fst (bernoulliSuccesses members (world s)) in
  let rolled := mkState (snd (bernoulliSuccesses members (world s))) (logs s) in
  let named id x :=
    String.eqb (SpawnpointTemplate.Id (IStaticContainerData.template x)) id in
  let fill c :=
    addLootToContainer c staticForcedOnMap staticLootDist staticAmmoDist
      locationId in
  let add :=
    addChosenContainers staticRandomisableContainersOnMap staticForcedOnMap
      staticLootDist staticAmmoDist locationId in
  let groups :=
    addContainerGroups staticRandomisableContainersOnMap staticForcedOnMap
      staticLootDist staticAmmoDist locationId in
  getGroupIdToContainerMappings staticContainerGroupData
    staticRandomisableContainersOnMap s0 = (Ok mapping, s0') ->
  mapping = before ++ ("", data) :: rest ->
  (forall s2,
     groups mapping s2 =
     (earlier <- groups before ;;
      later <- groups (("", data) :: rest) ;;
      ret (earlier ++ later)) s2) /\
  exists ids s1,
    chooseContainersOfGroup "" data s = (Ok ids, s1) /\
    (successes = [] -> ids = []) /\
    (successes <> [] ->
     chooseContainersOfGroup "" data s =
     draw_count String.eqb (containerDistribution successes)
       (Some (Z.of_nat (List.length successes))) rolled) /\
    (forall id, In id ids -> In id (Object_keys successes)) /\
    groups (("", data) :: rest) s =
      (added <- add ids ;; others <- groups rest ;; ret (added ++ others)) s1 /\
    match add ids s1 with
    | (Ok added, _) =>
        Forall2
          (fun id t => exists c c' sa sb,
               find (named id) staticRandomisableContainersOnMap = Some c /\
               fill c sa = (Ok c', sb) /\
               t = IStaticContainerData.template c')
          ids added
    | (Throw e, _) =>
        exists c sa sb,
          In c staticRandomisableContainersOnMap /\ fill c sa = (Throw e, sb)
    end /\
    (draw_replacement_default = false ->
     (forall w, (0 <= fst (random w) < 1)%Q) ->
     (forall id p, In (id, p) successes -> (0 < p)%Q) ->
     Permutation ids (Object_keys successes)).
Proof.
  intros members successes rolled named fill add groups Hmapping Hsplit.
  assert (Hin : In ("", data) mapping)
    by (rewrite Hsplit; apply in_or_app; right; left; reflexivity).
  destruct (getGroupIdToContainerMappings_distinct _ _ _ _ _ Hmapping)
    as [Hgroups Hpools].
  assert (Hnd : NoDup (Object_keys members)) by exact (Hpools _ _ Hin).
  assert (Hord : in_enumeration_order members)
    by exact (getGroupIdToContainerMappings_ordered _ _ _ _ _ Hmapping _ _ Hin).
  assert (Hcount : IContainerGroupCount.chosenCount data <> 0).
  { destruct (getGroupIdToContainerMappings_ungrouped _ _ _ _ _ Hmapping)
      as (ungrouped & Hget & Hminus).
    rewrite (rec_get_of_In _ _ _ Hgroups Hin) in Hget.
    inversion Hget; subst ungrouped. rewrite Hminus. discriminate. }
  assert (Hfound : forall id, In id (Object_keys successes) ->
                     find (named id) staticRandomisableContainersOnMap <> None).
  { intros id Hid. unfold Object_keys in Hid. apply in_map_iff in Hid.
    destruct Hid as ([id' p] & <- & Hid).
    apply bernoulliSuccesses_sub in Hid.
    destruct (getGroupIdToContainerMappings_sound _ _ _ _ _ Hmapping
                _ _ _ _ Hin Hid) as (c & Hc & Hcid).
    intros Hnone. pose proof (find_none _ _ Hnone c Hc) as Hno.
    unfold named in Hno. simpl in Hno. rewrite Hcid, String.eqb_refl in Hno.
    discriminate. }
  assert (Hchoose :
            exists ids s1,
              chooseContainersOfGroup "" data s = (Ok ids, s1) /\
              (successes = [] -> ids = []) /\
              (successes <> [] ->
               chooseContainersOfGroup "" data s =
               draw_count String.eqb (containerDistribution successes)
                 (Some (Z.of_nat (List.length successes))) rolled) /\
              (forall id, In id ids -> In id (Object_keys successes)) /\
              (draw_replacement_default = false ->
               (forall w, (0 <= fst (random w) < 1)%Q) ->
               (forall id p, In (id, p) successes -> (0 < p)%Q) ->
               Permutation ids (Object_keys successes))).
  { clear Hfound Hin Hsplit Hmapping Hpools Hgroups.
    subst successes rolled members.
    destruct data as [mem count].
    cbn [IContainerGroupCount.chosenCount
         IContainerGroupCount.containerIdsWithProbability] in *.
    destruct mem as [|m mem'].
    { exists [], (mkState (world s) (logs s ++ [(LogDebug, GroupHasNoContainers "")])).
      apply Z.eqb_neq in Hcount.
      unfold chooseContainersOfGroup.
      cbn [IContainerGroupCount.chosenCount
           IContainerGroupCount.containerIdsWithProbability].
      rewrite Hcount. simpl. repeat split; try tauto. constructor. }
    set (members := m :: mem') in *.
    rewrite (choose_ungrouped members count s Hnd Hord Hcount) by discriminate.
    set (successes := fst (bernoulliSuccesses members (world s))).
    set (rolled := mkState (snd (bernoulliSuccesses members (world s))) (logs s)).
    destruct successes as [|kv successes'] eqn:Es.
    { exists [], rolled. repeat split; try tauto. constructor. }
    rewrite <- Es.
    unfold draw_count, draw, call, iterations. rewrite Nat2Z.id. simpl existsb.
    destruct (draw_steps _ _ _ _ (world rolled)) as [ids w'] eqn:Ed.
    exists ids, (mkState w' (logs rolled)).
    split; [reflexivity|]. split; [rewrite Es; discriminate|].
    split; [reflexivity|]. split.
    - intros id Hid. rewrite <- containerDistribution_keys.
      exact (draw_steps_keys _ _ _ _ _ _ _ Ed id Hid).
    - intros Hdefault Hrandom Hpos. rewrite Hdefault in Ed.
      rewrite <- containerDistribution_keys.
      assert (Hn : List.length successes =
                   List.length (containerDistribution successes))
        by (unfold containerDistribution; rewrite length_map; reflexivity).
      rewrite Hn in Ed.
      apply (draw_steps_all _ _ _ _ _ Hrandom (fun _ => eq_refl)) in Ed;
        [exact Ed|].
      intros o Ho. destruct (containerDistribution_weights _ _ Ho) as [id Hin].
      exact (Hpos id _ Hin). }
  destruct Hchoose as (ids & s1 & Hrun & Hnone & Hdraw & Hsub & Hall).
  split; [intros s2; rewrite Hsplit; apply addContainerGroups_app|].
  exists ids, s1. split; [exact Hrun|]. split; [exact Hnone|].
  split; [exact Hdraw|]. split; [exact Hsub|]. split; [|split; [|exact Hall]].
  - unfold groups. simpl addContainerGroups. unfold bind at 1.
    rewrite Hrun. reflexivity.
  - apply addChosenContainers_spec. intros id Hid. exact (Hfound id (Hsub id Hid)).
Qed.

(** C6, as the sampler behaves: with duplicate items disabled, and a loot
    table that lists every template id once, no template id outside the
    currency lock list is drawn twice into the item keys of one container.  A
    currency id stays in the pool when it is drawn, with or without
    replacement: a pool that holds one currency returns it at every one of
    the [n] draws. *)
Theorem duplicate_lock_on_item_keys (containerTypeId : string)
  (staticLootDist : Record_ IStaticLootDetails.t)
  (details : IStaticLootDetails.t) (itemCountToAdd : option Z)
  (s : State World) :
  rec_get staticLootDist containerTypeId = Some details ->
  NoDup (map fst (IStaticLootDetails.itemDistribution details)) ->
  ILocationConfig.allowDuplicateItemsInStaticContainers locationConfig = false ->
  (exists pool chosenTpls s',
      getPossibleLootItemsForContainer containerTypeId staticLootDist s =
        (Ok pool, s) /\
      draw String.eqb pool itemCountToAdd
        (ILocationConfig.allowDuplicateItemsInStaticContainers locationConfig)
        locklist s = (Ok chosenTpls, s') /\
      forall tpl, ~ In tpl locklist ->
                  (count_occ string_dec chosenTpls tpl <= 1)%nat) /\
  (forall currency weight replacement n w,
      In currency locklist ->
      (0 < weight)%Q ->
      (forall w0, (0 <= fst (random w0) < 1)%Q) ->
      fst (draw_steps (fun k => existsb (String.eqb k) locklist) n replacement
             [ProbabilityObject.mk currency weight (@None unit)] w) =
      repeat currency n).
Proof.
  intros Hdetails Hnd Hdup. split.
  - unfold getPossibleLootItemsForContainer, bind, defined. rewrite Hdetails.
    unfold ret. rewrite Hdup. unfold draw, call.
    match goal with |- exists _ _ _, (Ok ?p, _) = _ /\ _ => exists p end.
    match goal with |- context [draw_steps ?l ?n false ?p (world s)] =>
      destruct (draw_steps l n false p (world s)) as [ks w'] eqn:Ed end.
    eexists ks, _. split; [reflexivity|]. split; [reflexivity|].
    intros tpl Htpl.
    apply count_occ_filter_le
      with (f := fun k => negb (existsb (String.eqb k) locklist)).
    + apply (draw_steps_no_repeat _ _ _ _ _ _) with (2 := Ed).
      rewrite map_map. simpl. apply filtered_rows_stay_distinct, Hnd.
    + apply negb_true_iff. destruct (existsb _ locklist) eqn:E; [|reflexivity].
      apply existsb_exists in E. destruct E as (k & Hk & Ek).
      apply String.eqb_eq in Ek. subst. contradiction.
  - intros currency weight replacement n w Hin Hpos Hrandom.
    apply draw_steps_single_locked; try assumption.
    apply existsb_exists. exists currency. split; [exact Hin|].
    apply String.eqb_refl.
Qed.

(** C5, as the code behaves: the loop of [addLootToContainer] counts the
    placements that fail, over the whole container and without resetting the
    count when an item fits.  An item that finds no slot is skipped and
    counted as long as the count is below [fitLootIntoContainerAttempts];
    once the count has reached it, the next item that finds no slot ends the
    loop: the remaining items are dropped, nothing is thrown, and the items
    placed so far are kept. *)
Theorem placement_failures_are_counted (staticAmmoDist : StaticAmmoDist)
  (parentId tplToAdd : string) (rest : list string) (containerMap : ContainerMap)
  (failedToFitCount : Z) (placed : list Item.t) (chosen : IContainerItem.t)
  (s s1 : State World) :
  createStaticLootItem tplToAdd staticAmmoDist (Some parentId) s = (Ok chosen, s1) ->
  let width := IContainerItem.width chosen in
  let height := IContainerItem.height chosen in
  let result := findSlotForItem containerMap width height in
  let loop := placeLoot staticAmmoDist parentId in
  (FindSlotResult.success result = false ->
   loop (tplToAdd :: rest) containerMap failedToFitCount placed s =
   if ILocationConfig.fitLootIntoContainerAttempts locationConfig <=? failedToFitCount
   then (Ok placed, s1)
   else loop rest containerMap (failedToFitCount + 1) placed s1) /\
  (FindSlotResult.success result = true ->
   forall first others,
     IContainerItem.items chosen = first :: others ->
     loop (tplToAdd :: rest) containerMap failedToFitCount placed s =
     loop rest
       (fillContainerMapWithItem containerMap (FindSlotResult.x result)
          (FindSlotResult.y result) width height (FindSlotResult.rotation result))
       failedToFitCount
       (placed ++
        Item.place first (FindSlotResult.x result) (FindSlotResult.y result)
          (if FindSlotResult.rotation result then 1 else 0) :: others)
       s1) /\
  (forall tpls map count s2 r s3,
     loop tpls map count placed s2 = (Ok r, s3) -> exists more, r = placed ++ more).
Proof.
  intros Hcreate width height result loop. subst loop. repeat split.
  - intros Hfail. simpl. unfold bind. rewrite Hcreate.
    fold width height result. rewrite Hfail. simpl.
    destruct (_ <=? failedToFitCount); reflexivity.
  - intros Hfit first others Hitems. simpl. unfold bind. rewrite Hcreate.
    fold width height result. rewrite Hfit, Hitems. reflexivity.
  - intros tpls map count s2 r s3 H. exact (placeLoot_keeps_placed _ _ _ _ _ _ _ _ _ H).
Qed.

(** C7: for a template that [createStaticLootItem] treats as a weapon.
    Without a default preset the result is the bare root node of the weapon,
    with the size [getItemSize] reports for it; a debug line is logged and
    nothing is thrown.  With a default preset, an error thrown while the
    preset is re-parented (the tree of the preset itself, or its children
    under the new root) is logged and thrown again; the loop that fills the
    container has no handler, so the error leaves it as well. *)
Theorem weapon_preset_missing_or_broken (tpl : string) (itemTemplate : ITemplateItem.t)
  (staticAmmoDist : StaticAmmoDist) (parentId : option string) (s : State World) :
  getItem tpl = Some itemTemplate ->
  isOfBaseclass tpl MONEY = false ->
  isOfBaseclass tpl AMMO = false ->
  isOfBaseclass tpl WEAPON = true ->
  let id := fst (generate (world s)) in
  let w1 := snd (generate (world s)) in
  let root :=
    Item.mk id tpl (if truthy_string parentId then parentId else None)
      None None None in
  (getDefaultPreset tpl = None ->
   createStaticLootItem tpl staticAmmoDist parentId s =
   (Ok (IContainerItem.mk [root] (fst (getItemSize [root] id))
          (snd (getItemSize [root] id))),
    mkState w1 (logs s ++ [(LogDebug, NoPresetFoundForWeapon tpl)]))) /\
  (forall preset e w2,
     getDefaultPreset tpl = Some preset ->
     reparentPresets (hd_error (IPreset._items preset)) (IPreset._items preset) w1 =
       (Throw e, w2) ->
     createStaticLootItem tpl staticAmmoDist parentId s =
     (Throw e,
      mkState w2
        (logs s ++
         [(LogWarning,
           PresetNotFound tpl (IPreset._id preset) (IPreset._name preset))]))) /\
  (forall preset child children e w2 w3,
     getDefaultPreset tpl = Some preset ->
     reparentPresets (hd_error (IPreset._items preset)) (IPreset._items preset) w1 =
       (Ok (child :: children), w2) ->
     reparentPresets (Some root) (child :: children) w2 = (Throw e, w3) ->
     createStaticLootItem tpl staticAmmoDist parentId s =
     (Throw e, mkState w3 (logs s ++ [(LogError, UnableToReparentItem tpl)]))) /\
  (forall parent e s' rest containerMap count placed,
     parentId = Some parent ->
     createStaticLootItem tpl staticAmmoDist parentId s = (Throw e, s') ->
     placeLoot staticAmmoDist parent (tpl :: rest) containerMap count placed s =
     (Throw e, s')).
Proof.
  intros Htemplate Hmoney Hammo Hweapon id w1 root.
  assert (Hstart :
    createStaticLootItem tpl staticAmmoDist parentId s =
    createStaticWeapon tpl itemTemplate staticAmmoDist root (mkState w1 (logs s))).
  { unfold createStaticLootItem, bind, defined, call. rewrite Htemplate.
    unfold ret at 1. subst root id w1.
    destruct (generate (world s)) as [i w]. simpl.
    rewrite Hmoney, Hammo, Hweapon. reflexivity. }
  rewrite Hstart. repeat split.
  - intros Hpreset. unfold createStaticWeapon. rewrite Hpreset.
    unfold bind, logger, ret, try_rethrow. simpl. reflexivity.
  - intros preset e w2 Hpreset Hthrow. unfold createStaticWeapon.
    rewrite Hpreset. unfold bind, try_rethrow, call_throwing, logger. simpl.
    rewrite Hthrow. reflexivity.
  - intros preset child children e w2 w3 Hpreset Hfirst Hthrow.
    unfold createStaticWeapon. rewrite Hpreset.
    unfold bind, try_rethrow, call_throwing, logger. simpl.
    rewrite Hfirst. simpl. rewrite Hthrow. reflexivity.
  - intros parent e s' rest containerMap count placed -> H.
    simpl. unfold bind. rewrite Hstart, H. reflexivity.
Qed.

(** C1, as the code behaves.  Static containers: whenever the pass returns,
    every container of the map with spawn probability 1, or flagged
    always-spawn, or of an exempt type, is in the result, filled by
    [addLootToContainer], whatever the random source does.  Loose loot:
    whenever the pass returns, every spawn point with probability 1 whose
    template id is not blacklisted for the map has its location in the
    output: one of the spawn points of that location was chosen and its
    template emitted, and it is that very spawn point when no other spawn
    point of the table shares its location id. *)
Theorem guaranteed_entries_are_included :
  (forall locationBase staticAmmoDist s result s',
      generateStaticContainers locationBase staticAmmoDist s = (Ok result, s') ->
      exists all,
        staticLootField IStaticLootOnMap.staticContainers
          (ILocationBase.Name locationBase) = Some all /\
        forall c,
          In c all ->
          is_one (IStaticContainerData.probability c) = true \/
          SpawnpointTemplate.IsAlwaysSpawn (IStaticContainerData.template c) = true \/
          (exists tpl,
              first_tpl (IStaticContainerData.template c) = Ok tpl /\
              includes containerTypesToNotRandomise tpl = true) ->
          exists c' s1 s2,
            addLootToContainer c
              (staticLootField IStaticLootOnMap.staticForced
                 (ILocationBase.Name locationBase))
              (IDatabaseTables.loot_staticLoot getTables) staticAmmoDist
              (toLowerCase (ILocationBase.Id locationBase)) s1 = (Ok c', s2) /\
            In (IStaticContainerData.template c') result) /\
  (forall dynamicLootDist staticAmmoDist name s loot s',
      generateDynamicLoot dynamicLootDist staticAmmoDist name s = (Ok loot, s') ->
      forall sp,
        In sp (ILooseLoot.spawnpoints dynamicLootDist) ->
        is_one (Spawnpoint.probability sp) = true ->
        blacklisted name sp = false ->
        exists chosen t,
          In chosen (ILooseLoot.spawnpoints dynamicLootDist) /\
          Spawnpoint.locationId chosen = Spawnpoint.locationId sp /\
          ((forall other,
               In other (ILooseLoot.spawnpoints dynamicLootDist) ->
               Spawnpoint.locationId other = Spawnpoint.locationId sp ->
               other = sp) ->
           chosen = sp) /\
          In t loot /\
          SpawnpointTemplate.Id t = SpawnpointTemplate.Id (Spawnpoint.template chosen)).
Proof.
  split.
  - intros locationBase staticAmmoDist s result s' H.
    apply generateStaticContainers_inv in H.
    destruct H as (all & g & filled & others & Hall & Hg & -> & Hfilled).
    exists all. split; [exact Hall|]. intros c Hc Hcond.
    apply guaranteed_conditions in Hcond.
    assert (Hin : In c g).
    { simpl in Hg. apply (filter_throwing_In _ _ _ Hg). auto. }
    destruct (Forall2_In_l _ _ _ _ Hfilled Hin) as (t & Ht & c' & s1 & s2 & Hfill & ->).
    exists c', s1, s2. split; [exact Hfill|].
    rewrite !in_app_iff. auto.
  - intros dynamicLootDist staticAmmoDist name s loot s' H sp Hsp Hone Hfree.
    apply generateDynamicLoot_inv in H.
    destruct H as (forced & chosen & loose & s1 & s2 & _ & Hchosen & -> & Hloose).
    apply chosenSpawnpointsOf_inv in Hchosen.
    destruct Hchosen as (picked & -> & Hpicked).
    set (guaranteed := filter _ (ILooseLoot.spawnpoints dynamicLootDist)) in *.
    assert (Hg : In sp (guaranteed ++ picked)).
    { apply in_or_app. left. apply filter_In. split; [exact Hsp|].
      rewrite Hfree, Hone. reflexivity. }
    destruct (uniqueByLocationId_covers _ _ Hg) as (y & Hy & Hyin & Hloc).
    assert (Hyall : In y (ILooseLoot.spawnpoints dynamicLootDist)).
    { apply in_app_or in Hyin. destruct Hyin as [Hy'|Hy'].
      - apply filter_In in Hy'. tauto.
      - apply Hpicked, Hy'. }
    destruct (Forall2_In_l _ _ _ _ Hloose Hy) as (t & Ht & Hid).
    exists y, t. repeat split; try assumption.
    + intros Huniq. apply Huniq; assumption.
    + apply in_or_app. auto.
Qed.

(** C10: the blacklist of the map is checked before anything else in the
    loop over the spawn points, so a spawn point with a blacklisted template
    id reaches neither the guaranteed list nor the weighted pool, whatever
    its probability, 1 included.  Whenever the pass returns, its output is
    the forced loot followed by one template per chosen spawn point, and no
    chosen spawn point is blacklisted. *)
Theorem blacklist_precedes_guaranteed_points (dynamicLootDist : ILooseLoot.t)
  (staticAmmoDist : StaticAmmoDist) (name : string) (s s' : State World)
  (loot : list SpawnpointTemplate.t) :
  generateDynamicLoot dynamicLootDist staticAmmoDist name s = (Ok loot, s') ->
  exists forced chosen loose s1,
    addForcedLoot (ILooseLoot.spawnpointsForced dynamicLootDist) name s =
      (Ok forced, s1) /\
    loot = forced ++ loose /\
    Forall2
      (fun sp t =>
         SpawnpointTemplate.Id t = SpawnpointTemplate.Id (Spawnpoint.template sp))
      chosen loose /\
    (forall sp, In sp chosen ->
                In sp (ILooseLoot.spawnpoints dynamicLootDist) /\
                blacklisted name sp = false) /\
    (forall sp,
        In sp (ILooseLoot.spawnpoints dynamicLootDist) ->
        blacklisted name sp = true ->
        ~ In sp chosen /\
        forall t, In t loose ->
                  SpawnpointTemplate.Id t <>
                  SpawnpointTemplate.Id (Spawnpoint.template sp)).
Proof.
  intros H. apply generateDynamicLoot_inv in H.
  destruct H as (forced & chosen & loose & s1 & s2 & Hforced & Hchosen & -> & Hloose).
  exists forced, chosen, loose, s1. repeat split; try assumption.
  - apply chosenSpawnpointsOf_inv in Hchosen.
    destruct Hchosen as (picked & -> & Hpicked).
    apply uniqueByLocationId_In in H. apply in_app_or in H.
    destruct H as [H|H]; [apply filter_In in H; tauto | apply Hpicked, H].
  - apply chosenSpawnpointsOf_inv in Hchosen.
    destruct Hchosen as (picked & -> & Hpicked).
    apply uniqueByLocationId_In in H. apply in_app_or in H.
    destruct H as [H|H]; [|apply Hpicked, H].
    apply filter_In in H. destruct H as [_ H].
    apply andb_true_iff in H. destruct H as [H _].
    apply negb_true_iff in H. exact H.
  - intros Hin. apply chosenSpawnpointsOf_inv in Hchosen.
    destruct Hchosen as (picked & -> & Hpicked).
    apply uniqueByLocationId_In in Hin. apply in_app_or in Hin.
    assert (Hfree : blacklisted name sp = false).
    { destruct Hin as [Hin|Hin]; [|apply Hpicked, Hin].
      apply filter_In in Hin. destruct Hin as [_ Hin].
      apply andb_true_iff in Hin. destruct Hin as [Hin _].
      apply negb_true_iff in Hin. exact Hin. }
    congruence.
  - intros t Ht Hid.
    destruct (Forall2_In_r _ _ _ _ Hloose Ht) as (sp' & Hsp' & Hid').
    apply chosenSpawnpointsOf_inv in Hchosen.
    destruct Hchosen as (picked & -> & Hpicked).
    apply uniqueByLocationId_In in Hsp'. apply in_app_or in Hsp'.
    assert (Hfree : blacklisted name sp' = false).
    { destruct Hsp' as [Hin|Hin]; [|apply Hpicked, Hin].
      apply filter_In in Hin. destruct Hin as [_ Hin].
      apply andb_true_iff in Hin. destruct Hin as [Hin _].
      apply negb_true_iff in Hin. exact Hin. }
    unfold blacklisted in *. rewrite <- Hid', Hid in Hfree. congruence.
Qed.

End Claims.

(** * The claims on concrete maps *)

Ltac distinct_strings :=
  repeat constructor; simpl; intuition discriminate.

(** C1 as stated fails for loose loot: a spawn point with probability 1
    whose template id is on the blacklist of the map is not among the chosen
    spawn points, and neither is any other point of its location. *)
Lemma guaranteed_point_on_blacklist_is_left_out :
  In Scenario.bannedPoint (ILooseLoot.spawnpoints Scenario.looseLoot) /\
  is_one (Spawnpoint.probability Scenario.bannedPoint) = true /\
  chosenSpawnpointsOf (services := Scenario.withBlacklist) Scenario.looseLoot
    "bigmap" (Scenario.start []) =
  (Ok [Scenario.freePoint],
   mkState (Fixture.mkWorld [] 0) [(LogDebug, IgnoringLooseLootLocation "banned")]) /\
  ~ In Scenario.bannedPoint [Scenario.freePoint] /\
  Spawnpoint.locationId Scenario.freePoint <>
  Spawnpoint.locationId Scenario.bannedPoint /\
  match fst (generateDynamicLoot (services := Scenario.withBlacklist)
               Scenario.looseLoot [] "bigmap" (Scenario.start [])) with
  | Ok loot => map SpawnpointTemplate.Id loot = ["loose1"]
  | Throw _ => False
  end.
Proof.
  split; [simpl; auto|]. split; [reflexivity|]. split; [reflexivity|].
  split; [intros [H|[]]; discriminate|]. split; [discriminate | reflexivity].
Qed.

(** C1 on a map: the container that always spawns is in the result of the
    pass, and the free spawn point that always spawns is chosen. *)
Lemma guaranteed_entries_witness :
  (exists c' s1 s2,
      addLootToContainer (services := Scenario.randomised)
        (Scenario.container "c1" 1 false) (Some [])
        (IDatabaseTables.loot_staticLoot (getTables (Services := Scenario.randomised)))
        [] "bigmap" s1 = (Ok c', s2) /\
      In (IStaticContainerData.template c')
         (match fst (generateStaticContainers (services := Scenario.randomised)
                       Scenario.customs [] (Scenario.start [])) with
          | Ok result => result
          | Throw _ => []
          end)) /\
  (exists chosen t,
      In chosen (ILooseLoot.spawnpoints Scenario.looseLoot) /\
      Spawnpoint.locationId chosen = "loc1" /\
      In t (match fst (generateDynamicLoot (services := Scenario.withBlacklist)
                         Scenario.looseLoot [] "bigmap" (Scenario.start [])) with
            | Ok loot => loot
            | Throw _ => []
            end) /\
      SpawnpointTemplate.Id t = SpawnpointTemplate.Id (Spawnpoint.template chosen)).
Proof.
  destruct (guaranteed_entries_are_included (services := Scenario.randomised))
    as [Hstatic _].
  destruct (guaranteed_entries_are_included (services := Scenario.withBlacklist))
    as [_ Hdynamic].
  split.
  - destruct (generateStaticContainers (services := Scenario.randomised)
                Scenario.customs [] (Scenario.start [])) as [o s'] eqn:E.
    assert (Hok : exists result, o = Ok result).
    { vm_compute in E. inversion E. eauto. }
    destruct Hok as [result ->].
    destruct (Hstatic _ _ _ _ _ E) as (all & Hall & Hin).
    vm_compute in Hall. inversion Hall; subst all.
    destruct (Hin (Scenario.container "c1" 1 false)) as (c' & s1 & s2 & Hfill & Hc').
    + simpl. auto.
    + left. reflexivity.
    + exists c', s1, s2. split; [exact Hfill | exact Hc'].
  - destruct (generateDynamicLoot (services := Scenario.withBlacklist)
                Scenario.looseLoot [] "bigmap" (Scenario.start [])) as [o s'] eqn:E.
    assert (Hok : exists loot, o = Ok loot).
    { vm_compute in E. inversion E. eauto. }
    destruct Hok as [loot ->].
    destruct (Hdynamic _ _ _ _ _ _ E Scenario.freePoint)
      as (chosen & t & Hin & Hloc & _ & Ht & Hid).
    + simpl. auto.
    + reflexivity.
    + reflexivity.
    + exists chosen, t. auto.
Defined.

(** C2 on a map without tables: the pass logs both errors and throws. *)
Lemma missing_container_table_witness :
  generateStaticContainers (services := Scenario.withoutTables) Scenario.customs []
    (Scenario.start []) =
  (Throw TypeError,
   mkState (Fixture.mkWorld [] 0)
     [(LogError, UnableToFindStaticWeaponData "Customs");
      (LogError, UnableToFindStaticContainerData "Customs")]).
Proof.
  destruct (missing_container_table_throws (services := Scenario.withoutTables)
              Scenario.customs [] (Scenario.start []) eq_refl)
    as (s' & H & _).
  reflexivity.
Defined.

(** C3 as stated fails: both containers pass their roll, in the order "c2",
    "c3", and the weighted draw over the two returns them as "c3", "c2". *)
Lemma ungrouped_successes_are_reordered :
  Object_keys
    (fst (bernoulliSuccesses (services := Scenario.randomised)
            (IContainerGroupCount.containerIdsWithProbability Scenario.ungrouped)
            (world Scenario.bothPassSecondFirst))) = ["c2"; "c3"] /\
  fst (chooseContainersOfGroup (services := Scenario.randomised) ""
         Scenario.ungrouped Scenario.bothPassSecondFirst) = Ok ["c3"; "c2"].
Proof.
  split; reflexivity.
Qed.

(** C3 on Customs: the two crates of the group without id both pass and
    are added in the order of the draw, in the loop over the groups and in
    the whole pass, where they follow the crate that always spawns. *)
Lemma ungrouped_containers_witness :
  (exists added,
      fst (addContainerGroups (services := Scenario.randomised)
             Scenario.halfCrates (Some [])
             [("crate", Scenario.crateLoot ["small"])] [] "bigmap"
             [("", Scenario.ungrouped)] Scenario.bothPassSecondFirst) = Ok added /\
      map SpawnpointTemplate.Id added = ["c3"; "c2"]) /\
  exists result,
    fst (generateStaticContainers (services := Scenario.randomised)
           Scenario.customs []
           (Scenario.start [0; 0; 1 # 10; 1 # 10; 9 # 10; 0]%Q)) = Ok result /\
    map SpawnpointTemplate.Id result = ["c1"; "c3"; "c2"].
Proof.
  split.
  - destruct (ungrouped_containers_roll_then_draw (services := Scenario.randomised)
                Scenario.statics Scenario.halfCrates (Some [])
                [("crate", Scenario.crateLoot ["small"])] [] "bigmap"
                [("", Scenario.ungrouped)] [] [] Scenario.ungrouped
                (Scenario.start []) (Scenario.start [])
                Scenario.bothPassSecondFirst eq_refl eq_refl)
      as (_ & ids & s1 & Hrun & _ & _ & _ & Hloop & Hadd & _).
    assert (Hids : ids = ["c3"; "c2"]).
    { vm_compute in Hrun. inversion Hrun. reflexivity. }
    subst ids. rewrite Hloop. clear Hloop. unfold bind at 1.
    destruct (addChosenContainers _ _ _ _ _ _ s1) as [[added|e] s2] eqn:Eadd.
    + assert (Hids : map SpawnpointTemplate.Id added = ["c3"; "c2"]).
      { vm_compute in Hrun. inversion Hrun; subst s1.
        vm_compute in Eadd. inversion Eadd. reflexivity. }
      exists added. simpl. unfold bind, ret. simpl. rewrite app_nil_r.
      split; [reflexivity | exact Hids].
    + exfalso. vm_compute in Hrun. inversion Hrun; subst s1.
      vm_compute in Eadd. discriminate.
  - eexists. split; [vm_compute; reflexivity | reflexivity].
Defined.

(** C4 on a map with randomisation switched off. *)
Lemma randomisation_disabled_witness :
  exists guaranteed randomisable,
    getGuaranteedContainers (services := Scenario.notRandomised)
      (Some Scenario.threeCrates) = Ok guaranteed /\
    getRandomisableContainersOnMap (services := Scenario.notRandomised)
      (Some Scenario.threeCrates) = Ok randomisable /\
    Permutation (guaranteed ++ randomisable) Scenario.threeCrates /\
    exists filled s',
      generateStaticContainers (services := Scenario.notRandomised)
        Scenario.customs [] (Scenario.start []) = (Ok filled, s') /\
      List.length filled = 3%nat.
Proof.
  destruct (randomisation_disabled_adds_every_container
              (services := Scenario.notRandomised)
              Scenario.customs [] Scenario.threeCrates (Scenario.start []))
    as (g & r & Hg & Hr & P & _).
  - left. reflexivity.
  - reflexivity.
  - simpl. intros c [<-|[<-|[<-|[]]]]; discriminate.
  - exists g, r. repeat split; try assumption.
    eexists _, _. split; [vm_compute; reflexivity | reflexivity].
Defined.

(** C5 as stated fails.  With a budget of one failed placement, the item that
    follows the first failure is still placed; with a budget of two, three
    failures that are never consecutive end the loop and the last item, which
    would fit, is dropped. *)
Lemma placement_goes_on_after_budget :
  fst (placeLoot (services := Scenario.randomised) [] "root" ["big"; "small"]
         Scenario.emptyCrate 0 [] (Scenario.start [])) =
  Ok [Scenario.placedSmall "id1" 0] /\
  fst (placeLoot (services := Scenario.budgetOfTwo) [] "root"
         ["big"; "small"; "big"; "small"; "big"; "small"]
         Scenario.emptyCrate 0 [] (Scenario.start [])) =
  Ok [Scenario.placedSmall "id1" 0; Scenario.placedSmall "id3" 1].
Proof.
  split; reflexivity.
Qed.

Lemma placement_failures_witness :
  placeLoot (services := Scenario.randomised) [] "root" ["big"; "big"; "small"]
    Scenario.emptyCrate 0 [] (Scenario.start []) =
  placeLoot (services := Scenario.randomised) [] "root" ["big"; "small"]
    Scenario.emptyCrate 1 [] (mkState (Fixture.mkWorld [] 1) []) /\
  placeLoot (services := Scenario.randomised) [] "root" ["big"; "small"]
    Scenario.emptyCrate 1 [] (mkState (Fixture.mkWorld [] 1) []) =
  (Ok [], mkState (Fixture.mkWorld [] 2) []).
Proof.
  split.
  - destruct (placement_failures_are_counted (services := Scenario.randomised)
                [] "root" "big" ["big"; "small"] Scenario.emptyCrate 0 []
                (IContainerItem.mk [Scenario.node "id0" "big" (Some "root")] 3 3)
                (Scenario.start []) (mkState (Fixture.mkWorld [] 1) []) eq_refl)
      as (Hfail & _ & _).
    exact (Hfail eq_refl).
  - destruct (placement_failures_are_counted (services := Scenario.randomised)
                [] "root" "big" ["small"] Scenario.emptyCrate 1 []
                (IContainerItem.mk [Scenario.node "id1" "big" (Some "root")] 3 3)
                (mkState (Fixture.mkWorld [] 1) []) (mkState (Fixture.mkWorld [] 2) [])
                eq_refl)
      as (Hfail & _ & _).
    exact (Hfail eq_refl).
Defined.

(** C6 as stated fails for a loot table that lists a template id twice: with
    duplicates disabled the id, which is no currency, is drawn twice. *)
Lemma listed_twice_is_drawn_twice :
  ~ In "small" (locklist (services := Scenario.listedTwice)) /\
  ILocationConfig.allowDuplicateItemsInStaticContainers
    (locationConfig (Services := Scenario.listedTwice)) = false /\
  fst ((pool <-
          getPossibleLootItemsForContainer (services := Scenario.listedTwice)
            "crate"
            (IDatabaseTables.loot_staticLoot
               (getTables (Services := Scenario.listedTwice))) ;;
        draw (services := Scenario.listedTwice) String.eqb pool (Some 2) false
          (locklist (services := Scenario.listedTwice)))%monad
         (Scenario.start [])) = Ok ["small"; "small"].
Proof.
  split; [simpl; intuition discriminate|]. split; reflexivity.
Qed.

Lemma duplicate_lock_witness :
  (exists chosenTpls,
      fst (draw (services := Scenario.randomised) String.eqb
             [ProbabilityObject.mk "small" 1 (@None unit)] (Some 2) false
             (locklist (services := Scenario.randomised))
             (Scenario.start [])) = Ok chosenTpls /\
      (count_occ string_dec chosenTpls "small" <= 1)%nat) /\
  fst (draw_steps (services := Scenario.randomised)
         (fun k => existsb (String.eqb k) (locklist (services := Scenario.randomised)))
         3 false [ProbabilityObject.mk Fixture.ROUBLES 1 (@None unit)]
         (Fixture.mkWorld [] 0)) =
  [Fixture.ROUBLES; Fixture.ROUBLES; Fixture.ROUBLES].
Proof.
  destruct (duplicate_lock_on_item_keys (services := Scenario.randomised)
              "crate"
              (IDatabaseTables.loot_staticLoot
                 (getTables (Services := Scenario.randomised)))
              (Scenario.crateLoot ["small"]) (Some 2) (Scenario.start []))
    as [(pool & chosenTpls & s' & Hpool & Hdraw & Honce) Hcurrency].
  - reflexivity.
  - distinct_strings.
  - reflexivity.
  - split.
    + exists chosenTpls. inversion Hpool; subst pool.
      change (ILocationConfig.allowDuplicateItemsInStaticContainers locationConfig)
        with false in Hdraw.
      split.
      * change (map _ _) with [ProbabilityObject.mk "small" 1%Q (@None unit)] in Hdraw.
        rewrite Hdraw. reflexivity.
      * apply Honce. simpl. intuition discriminate.
    + apply (Hcurrency Fixture.ROUBLES 1%Q false 3%nat (Fixture.mkWorld [] 0)).
      * simpl. auto.
      * reflexivity.
      * exact fixture_sample_in_range.
Defined.

(** C7 on two weapons: the gun has no preset, the preset of the rifle cannot
    be re-parented and the error leaves the whole pass. *)
Lemma weapon_preset_witness :
  createStaticLootItem (services := Scenario.randomised) "gun" [] (Some "root")
    (Scenario.start []) =
  (Ok (IContainerItem.mk [Scenario.node "id0" "gun" (Some "root")] 2 1),
   mkState (Fixture.mkWorld [] 1) [(LogDebug, NoPresetFoundForWeapon "gun")]) /\
  createStaticLootItem (services := Scenario.randomised) "rifle" [] (Some "root")
    (Scenario.start []) =
  (Throw (Error "preset node without parent"),
   mkState (Fixture.mkWorld [] 1)
     [(LogWarning, PresetNotFound "rifle" "preset1" "rifle default")]) /\
  fst (generateStaticContainers (services := Scenario.brokenPreset)
         Scenario.customs [] (Scenario.start [])) =
  Throw (Error "preset node without parent").
Proof.
  split; [|split].
  - apply (weapon_preset_missing_or_broken (services := Scenario.randomised)
             "gun" (Scenario.template 2 1 []) [] (Some "root") (Scenario.start []));
      reflexivity.
  - destruct (weapon_preset_missing_or_broken (services := Scenario.randomised)
                "rifle" (Scenario.template 2 1 []) [] (Some "root")
                (Scenario.start []) eq_refl eq_refl eq_refl eq_refl)
      as (_ & Hbroken & _).
    exact (Hbroken Scenario.riflePreset (Error "preset node without parent")
             (Fixture.mkWorld [] 1) eq_refl eq_refl).
  - reflexivity.
Defined.

(** C8 on a group that wants three containers and has one. *)
Lemma pool_under_supply_witness :
  getContainersByProbabilty (services := Scenario.randomised) "group1"
    Scenario.shortGroup (Scenario.start []) =
  (Ok ["c2"],
   mkState (Fixture.mkWorld [] 0)
     [(LogDebug, GroupWantsMoreThanPool "group1" 3 1)]).
Proof.
  destruct (pool_under_supply_returns_whole_pool (services := Scenario.randomised)
              "group1" Scenario.shortGroup (Scenario.start []))
    as (ids & Hrun & _).
  - distinct_strings.
  - reflexivity.
  - reflexivity.
Defined.

(** C10 on a map: the blacklisted spawn point, which always spawns, is left
    out of the output. *)
Lemma blacklist_witness :
  exists loose,
    fst (generateDynamicLoot (services := Scenario.withBlacklist)
           Scenario.looseLoot [] "bigmap" (Scenario.start [])) = Ok loose /\
    forall t, In t loose -> SpawnpointTemplate.Id t <> "banned".
Proof.
  destruct (generateDynamicLoot (services := Scenario.withBlacklist)
              Scenario.looseLoot [] "bigmap" (Scenario.start [])) as [o s'] eqn:E.
  assert (Hok : exists loot, o = Ok loot).
  { vm_compute in E. inversion E. eauto. }
  destruct Hok as [loot ->].
  destruct (blacklist_precedes_guaranteed_points
              (services := Scenario.withBlacklist) _ _ _ _ _ _ E)
    as (forced & chosen & loose & s1 & Hforced & -> & _ & _ & Hout).
  vm_compute in Hforced. inversion Hforced; subst forced.
  exists loose. split; [reflexivity|].
  intros t Ht. apply (Hout Scenario.bannedPoint); [simpl; auto | reflexivity | exact Ht].
Defined.

(** * Further properties of the generator *)

Section Extras.
Context {World : Type} {services : Services World}.

(** ** Re-parenting *)

(** X1: [reparentItemAndChildren] on a non-empty item list takes one fresh id,
    gives it to the first item and redirects parent links, item by item: a
    link that pointed at the old id of the first item points at the new id
    afterwards, any other link, and the absence of a link, is left as it was,
    and so are slot, location and stack of every item.  Templates and the ids
    of the other items are untouched, so a list in which every parent link
    points at an id of the list stays such a list; no link to the old id is
    left when the new id differs from it, and ids that were distinct stay
    distinct when the new id is not among the other items. *)
Theorem reparent_keeps_parent_links (itemWithChildren : list Item.t)
  (root : Item.t) (others : list Item.t) (s : State World) :
  itemWithChildren = root :: others ->
  let newId := fst (generate (world s)) in
  exists out,
    reparentItemAndChildren itemWithChildren s =
      (Ok out, mkState (snd (generate (world s))) (logs s)) /\
    map Item._tpl out = map Item._tpl itemWithChildren /\
    map Item._id out = newId :: map Item._id others /\
    Forall2
      (fun before after =>
         (Item.parentId before = Some (Item._id root) ->
          Item.parentId after = Some newId) /\
         (Item.parentId before <> Some (Item._id root) ->
          Item.parentId after = Item.parentId before) /\
         Item.slotId after = Item.slotId before /\
         Item.location after = Item.location before /\
         Item.upd after = Item.upd before)
      itemWithChildren out /\
    ((forall item p, In item itemWithChildren -> Item.parentId item = Some p ->
                     In p (map Item._id itemWithChildren)) ->
     forall item p, In item out -> Item.parentId item = Some p ->
                    In p (map Item._id out)) /\
    (newId <> Item._id root ->
     forall item, In item out -> Item.parentId item <> Some (Item._id root)) /\
    (NoDup (map Item._id itemWithChildren) ->
     ~ In newId (map Item._id others) ->
     NoDup (map Item._id out)).
Proof.
  intros -> newId. unfold reparentItemAndChildren, bind, call.
  subst newId. destruct (generate (world s)) as [newId w1]. simpl fst. simpl snd.
  set (redirect := fun item : Item.t =>
         match Item.parentId item with
         | Some p =>
             if String.eqb p (Item._id root)
             then Item.set_parentId item (Some newId) else item
         | None => item
         end).
  assert (Hid : forall item, Item._id (redirect item) = Item._id item).
  { intros item. unfold redirect. destruct (Item.parentId item) as [p|];
      [destruct (String.eqb p _)|]; reflexivity. }
  assert (Htpl : forall item, Item._tpl (redirect item) = Item._tpl item).
  { intros item. unfold redirect. destruct (Item.parentId item) as [p|];
      [destruct (String.eqb p _)|]; reflexivity. }
  assert (Hparent : forall item p,
             Item.parentId (redirect item) = Some p ->
             (p = newId /\ Item.parentId item = Some (Item._id root)) \/
             (p <> Item._id root /\ Item.parentId item = Some p)).
  { intros item p. unfold redirect. destruct (Item.parentId item) as [q|] eqn:E.
    - destruct (String.eqb_spec q (Item._id root)) as [->|Hne]; simpl.
      + intros H. inversion H. auto.
      + rewrite E. intros H. inversion H; subst. auto.
    - rewrite E. discriminate. }
  assert (Hlink : forall item,
             (Item.parentId item = Some (Item._id root) ->
              Item.parentId (redirect item) = Some newId) /\
             (Item.parentId item <> Some (Item._id root) ->
              Item.parentId (redirect item) = Item.parentId item) /\
             Item.slotId (redirect item) = Item.slotId item /\
             Item.location (redirect item) = Item.location item /\
             Item.upd (redirect item) = Item.upd item).
  { intros item. unfold redirect. destruct (Item.parentId item) as [q|] eqn:E.
    - destruct (String.eqb_spec q (Item._id root)) as [->|Hne]; simpl.
      + repeat split. congruence.
      + rewrite E. repeat split. congruence.
    - rewrite E. repeat split. discriminate. }
  assert (Hids : map Item._id (map redirect (Item.set_id root newId :: others)) =
                 newId :: map Item._id others).
  { rewrite map_map. simpl. rewrite Hid. simpl. f_equal.
    apply map_ext. exact Hid. }
  exists (map redirect (Item.set_id root newId :: others)).
  split; [reflexivity|].
  split; [|split; [exact Hids|split; [|split; [|split]]]].
  - rewrite map_map. simpl. rewrite Htpl. simpl. f_equal. apply map_ext. exact Htpl.
  - simpl. constructor.
    + exact (Hlink (Item.set_id root newId)).
    + clear. induction others as [|x rest IH]; simpl; constructor; [|exact IH].
      unfold redirect. destruct (Item.parentId x) as [q|] eqn:E.
      * destruct (String.eqb_spec q (Item._id root)) as [->|Hne]; simpl.
        -- repeat split. congruence.
        -- rewrite E. repeat split. congruence.
      * rewrite E. repeat split. discriminate.
  - intros Hlinks item p Hitem Hp. rewrite Hids.
    apply in_map_iff in Hitem. destruct Hitem as (x & <- & Hx).
    destruct (Hparent _ _ Hp) as [[-> _]|[Hne Hq]]; [simpl; auto|].
    assert (Hin : In p (map Item._id (root :: others))).
    { destruct Hx as [<-|Hx].
      - apply (Hlinks root); simpl; auto.
      - apply (Hlinks x); simpl; auto. }
    simpl in Hin. destruct Hin as [E|Hin]; [congruence | simpl; auto].
  - intros Hfresh item Hitem Hp.
    apply in_map_iff in Hitem. destruct Hitem as (x & <- & Hx).
    destruct (Hparent _ _ Hp) as [[E _]|[Hne _]]; congruence.
  - intros Hnd Hout. rewrite Hids. simpl in Hnd. inversion Hnd; subst.
    constructor; assumption.
Qed.

(** ** The grid of a container *)

(** X2: [getContainerMapping] leaves the state alone.  It throws [TypeError]
    when the container type has no template or the template has no grid.  It
    throws [RangeError] when the height of the grid is not an array length,
    that is negative or at least 2^32, and when there is at least one row and
    the width is not an array length.  Otherwise it returns a grid of [cellsV]
    rows of [cellsH] cells, every one of them free; with a height of 0 this
    is the empty grid whatever the width. *)
Theorem container_grid_of_template (containerTpl : string) (s : State World) :
  match getItem containerTpl with
  | None => getContainerMapping containerTpl s = (Throw TypeError, s)
  | Some template =>
      match ITemplateItem.Grids template with
      | [] => getContainerMapping containerTpl s = (Throw TypeError, s)
      | (cellsH, cellsV) :: _ =>
          (cellsV < 0 \/ 2 ^ 32 <= cellsV \/
           (0 < cellsV /\ (cellsH < 0 \/ 2 ^ 32 <= cellsH)) ->
           getContainerMapping containerTpl s = (Throw RangeError, s)) /\
          (0 <= cellsV < 2 ^ 32 ->
           cellsV = 0 \/ 0 <= cellsH < 2 ^ 32 ->
           exists grid,
             getContainerMapping containerTpl s = (Ok grid, s) /\
             List.length grid = Z.to_nat cellsV /\
             (cellsV = 0 -> grid = []) /\
             forall row, In row grid ->
                         List.length row = Z.to_nat cellsH /\
                         forall cell, In cell row -> cell = 0)
      end
  end.
Proof.
  unfold getContainerMapping, bind, defined.
  destruct (getItem containerTpl) as [template|]; [|reflexivity].
  cbv beta iota delta [ret].
  destruct (ITemplateItem.Grids template) as [|[cellsH cellsV] grids];
    [reflexivity|].
  cbv beta iota delta [hd_error throw].
  assert (Hlength : forall n, is_array_length n = true <-> 0 <= n < 2 ^ 32).
  { intros n. unfold is_array_length.
    rewrite andb_true_iff, Z.leb_le, Z.ltb_lt. tauto. }
  split.
  - intros Hbad.
    destruct (is_array_length cellsV) eqn:EV; simpl negb; cbv iota;
      [|reflexivity].
    apply Hlength in EV.
    destruct Hbad as [Hbad|[Hbad|[Hrow Hbad]]]; [lia | lia |].
    destruct (is_array_length cellsH) eqn:EH.
    + apply Hlength in EH. lia.
    + apply Z.ltb_lt in Hrow. rewrite Hrow. reflexivity.
  - intros HV HH. apply Hlength in HV. rewrite HV. simpl negb. cbv iota.
    assert (E : (0 <? cellsV) && negb (is_array_length cellsH) = false).
    { destruct HH as [->|HH]; [reflexivity|].
      apply Hlength in HH. rewrite HH. apply andb_false_r. }
    rewrite E. eexists. split; [reflexivity|]. split; [apply repeat_length|].
    split; [intros ->; reflexivity|].
    intros row Hrow. apply repeat_spec in Hrow. subst row.
    split; [apply repeat_length|].
    intros cell Hcell. exact (repeat_spec _ _ _ Hcell).
Qed.

(** ** The mapping from group ids to containers, continued *)

(** X3: what [getGroupIdToContainerMappings] returns is a dictionary of the
    declared groups and of the group without id, and of nothing else; no
    group id and, within a group, no container id occurs twice; the group
    without id is always there and carries the count -1. *)
Theorem mapping_has_declared_groups_and_ungrouped
  (staticContainerGroupData : IStaticContainer.t)
  (staticContainersOnMap : list IStaticContainerData.t)
  (mapping : Record_ IContainerGroupCount.t) (s s' : State World) :
  getGroupIdToContainerMappings staticContainerGroupData staticContainersOnMap s =
    (Ok mapping, s') ->
  distinct_ids mapping /\
  (forall g,
      In g (Object_keys mapping) <->
      g = "" \/
      In g (Object_keys (IStaticContainer.containersGroups staticContainerGroupData))) /\
  exists ungrouped,
    rec_get mapping "" = Some ungrouped /\
    IContainerGroupCount.chosenCount ungrouped = -1.
Proof.
  intros H. split; [exact (getGroupIdToContainerMappings_distinct _ _ _ _ _ H)|].
  split; [exact (getGroupIdToContainerMappings_keys _ _ _ _ _ H)|].
  unfold getGroupIdToContainerMappings in H.
  apply bind_ok_inv in H. destruct H as (counts & s1 & Hcounts & H).
  destruct (assignContainersToGroups_grows _ _ _ _ _ _ H "" _
              (rec_get_set_same _ _ _)) as (d' & Hd' & Hcount & _).
  exists d'. split; [exact Hd' | exact Hcount].
Qed.

(** X4: every entry of a pool that [getGroupIdToContainerMappings] returns
    stands for a container of the list it was given: the id is that of the
    container, the weight is its probability, which is not 1, and the group
    is the one the group data names for the id. *)
Theorem group_pools_hold_listed_containers
  (staticContainerGroupData : IStaticContainer.t)
  (staticContainersOnMap : list IStaticContainerData.t)
  (mapping : Record_ IContainerGroupCount.t) (s s' : State World) :
  getGroupIdToContainerMappings staticContainerGroupData staticContainersOnMap s =
    (Ok mapping, s') ->
  forall groupId data containerId weight,
    In (groupId, data) mapping ->
    In (containerId, weight) (IContainerGroupCount.containerIdsWithProbability data) ->
    rec_get (IStaticContainer.containers staticContainerGroupData) containerId =
      Some groupId /\
    exists container,
      In container staticContainersOnMap /\
      SpawnpointTemplate.Id (IStaticContainerData.template container) = containerId /\
      IStaticContainerData.probability container = weight /\
      is_one weight = false.
Proof.
  intros H. unfold getGroupIdToContainerMappings in H.
  apply bind_ok_inv in H. destruct H as (counts & s1 & Hcounts & H).
  destruct (chooseGroupCounts_returns
              (IStaticContainer.containersGroups staticContainerGroupData) [] s)
    as (counts' & s1' & Hcounts' & _ & Hempty).
  rewrite Hcounts in Hcounts'. inversion Hcounts'; subst counts' s1'.
  apply (assignContainersToGroups_sound _ staticContainersOnMap _ _ _ _ _
           (fun c Hc => Hc)) with (2 := H).
  intros g d id p Hin Hid.
  destruct (rec_set_In_inv _ _ _ _ _ Hin) as [Hold|[_ ->]].
  - rewrite (Hempty (fun _ _ F => match F with end) _ _ Hold) in Hid.
    contradiction.
  - contradiction.
Qed.

(** X5: when [getGroupIdToContainerMappings] returns, every container of the
    list whose probability is not 1 and whose id the group data knows is in
    the pool of the group named for it. *)
Theorem containers_reach_their_group
  (staticContainerGroupData : IStaticContainer.t)
  (staticContainersOnMap : list IStaticContainerData.t)
  (mapping : Record_ IContainerGroupCount.t) (s s' : State World) :
  getGroupIdToContainerMappings staticContainerGroupData staticContainersOnMap s =
    (Ok mapping, s') ->
  forall container groupId,
    In container staticContainersOnMap ->
    is_one (IStaticContainerData.probability container) = false ->
    rec_get (IStaticContainer.containers staticContainerGroupData)
      (SpawnpointTemplate.Id (IStaticContainerData.template container)) =
      Some groupId ->
    exists data,
      rec_get mapping groupId = Some data /\
      In (SpawnpointTemplate.Id (IStaticContainerData.template container))
         (Object_keys (IContainerGroupCount.containerIdsWithProbability data)).
Proof.
  intros H container groupId Hin Hone Hgroup.
  destruct (getGroupIdToContainerMappings_complete _ _ _ _ _ H _ _ Hin Hone Hgroup)
    as (data & Hdata & Hid).
  exists data. split; [exact Hdata | exact Hid].
Qed.

(** X6: a container with a probability other than 1 whose group is neither
    declared among the groups nor the empty one makes
    [getGroupIdToContainerMappings] throw [TypeError]: the entry of its group
    is looked up in the mapping and is not there. *)
Theorem undeclared_group_throws
  (staticContainerGroupData : IStaticContainer.t)
  (staticContainersOnMap : list IStaticContainerData.t)
  (container : IStaticContainerData.t) (groupId : string) (s : State World) :
  In container staticContainersOnMap ->
  is_one (IStaticContainerData.probability container) = false ->
  rec_get (IStaticContainer.containers staticContainerGroupData)
    (SpawnpointTemplate.Id (IStaticContainerData.template container)) =
    Some groupId ->
  groupId <> "" ->
  ~ In groupId
      (Object_keys (IStaticContainer.containersGroups staticContainerGroupData)) ->
  exists s',
    getGroupIdToContainerMappings staticContainerGroupData staticContainersOnMap s =
      (Throw TypeError, s').
Proof.
  intros Hin Hone Hgroup Hne Hundeclared.
  destruct (getGroupIdToContainerMappings staticContainerGroupData
              staticContainersOnMap s) as [[mapping|e] s'] eqn:H.
  - exfalso.
    destruct (getGroupIdToContainerMappings_complete _ _ _ _ _ H _ _ Hin Hone Hgroup)
      as (data & Hdata & _).
    assert (Hk : In groupId (Object_keys mapping))
      by (apply rec_get_In; congruence).
    apply (getGroupIdToContainerMappings_keys _ _ _ _ _ H) in Hk. tauto.
  - exists s'. f_equal. f_equal.
    unfold getGroupIdToContainerMappings, bind in H.
    destruct (chooseGroupCounts_returns
                (IStaticContainer.containersGroups staticContainerGroupData) [] s)
      as (counts & s1 & Hcounts & _).
    rewrite Hcounts in H.
    exact (assignContainersToGroups_throws _ _ _ _ _ _ H).
Qed.

(** ** Filling a container *)

Lemma addLootToContainer_inv (staticContainer : IStaticContainerData.t)
  (staticForced : option (list IStaticForcedProps.t))
  (staticLootDist : Record_ IStaticLootDetails.t)
  (staticAmmoDist : StaticAmmoDist) (locationName : string)
  (s s' : State World) (filled : IStaticContainerData.t) :
  addLootToContainer staticContainer staticForced staticLootDist staticAmmoDist
    locationName s = (Ok filled, s') ->
  exists root others placed forced,
    SpawnpointTemplate.Items (IStaticContainerData.template staticContainer) =
      root :: others /\
    staticForced = Some forced /\
    filled =
      IStaticContainerData.mk (IStaticContainerData.probability staticContainer)
        (SpawnpointTemplate.mk
           (SpawnpointTemplate.Id (IStaticContainerData.template staticContainer))
           (SpawnpointTemplate.IsAlwaysSpawn
              (IStaticContainerData.template staticContainer))
           (fst (generate (world s)))
           (Item.set_id root (fst (generate (world s))) :: others ++ placed)).
Proof.
  unfold addLootToContainer. intros H.
  destruct (SpawnpointTemplate.Items (IStaticContainerData.template staticContainer))
    as [|root others]; [discriminate|].
  apply bind_ok_inv in H. destruct H as (parentId & s1 & Hid & H).
  apply bind_ok_inv in H. destruct H as (containerMap & s2 & _ & H).
  apply bind_ok_inv in H. destruct H as (count & s3 & _ & H).
  apply bind_ok_inv in H. destruct H as (pool & s4 & _ & H).
  apply bind_ok_inv in H. destruct H as (forced & s5 & Hforced & H).
  apply bind_ok_inv in H. destruct H as (chosen & s6 & _ & H).
  apply bind_ok_inv in H. destruct H as (placed & s7 & _ & H).
  unfold ret in H. inversion H; subst. clear H.
  unfold call in Hid. destruct (generate (world s)) as [newId w1].
  inversion Hid; subst. simpl fst.
  destruct staticForced as [forced'|]; [|discriminate].
  unfold defined, ret in Hforced. inversion Hforced; subst.
  exists root, others, placed, forced. auto.
Qed.

(** X7: a container that [addLootToContainer] returns is the one it was
    given, under a fresh root id.  Probability, template id and the
    always-spawn flag are unchanged; the root id of the template is the id
    taken from [generate] and is also the id of the first item, which keeps
    its template; the other items of the container follow unchanged, and
    the loot comes after them. *)
Theorem filled_container_keeps_identity (staticContainer : IStaticContainerData.t)
  (staticForced : option (list IStaticForcedProps.t))
  (staticLootDist : Record_ IStaticLootDetails.t)
  (staticAmmoDist : StaticAmmoDist) (locationName : string)
  (s s' : State World) (filled : IStaticContainerData.t) :
  addLootToContainer staticContainer staticForced staticLootDist staticAmmoDist
    locationName s = (Ok filled, s') ->
  let before := IStaticContainerData.template staticContainer in
  let after := IStaticContainerData.template filled in
  IStaticContainerData.probability filled =
    IStaticContainerData.probability staticContainer /\
  SpawnpointTemplate.Id after = SpawnpointTemplate.Id before /\
  SpawnpointTemplate.IsAlwaysSpawn after = SpawnpointTemplate.IsAlwaysSpawn before /\
  SpawnpointTemplate.Root after = fst (generate (world s)) /\
  exists root others placed,
    SpawnpointTemplate.Items before = root :: others /\
    SpawnpointTemplate.Items after =
      Item.set_id root (SpawnpointTemplate.Root after) :: others ++ placed /\
    Item._tpl (Item.set_id root (SpawnpointTemplate.Root after)) = Item._tpl root.
Proof.
  intros H. apply addLootToContainer_inv in H.
  destruct H as (root & others & placed & forced & Hitems & _ & ->).
  simpl. repeat split. exists root, others, placed. auto.
Qed.

Lemma addChosenContainers_inv
  (staticRandomisableContainersOnMap : list IStaticContainerData.t)
  (staticForcedOnMap : option (list IStaticForcedProps.t))
  (staticLootDist : Record_ IStaticLootDetails.t)
  (staticAmmoDist : StaticAmmoDist) (locationId : string)
  (chosenContainerIds : list string) (s s' : State World)
  (out : list SpawnpointTemplate.t) :
  addChosenContainers staticRandomisableContainersOnMap staticForcedOnMap
    staticLootDist staticAmmoDist locationId chosenContainerIds s = (Ok out, s') ->
  Forall
    (fun t => exists c c' s1 s2,
         In c staticRandomisableContainersOnMap /\
         addLootToContainer c staticForcedOnMap staticLootDist staticAmmoDist
           locationId s1 = (Ok c', s2) /\
         t = IStaticContainerData.template c')
    out.
Proof.
  revert s out. induction chosenContainerIds as [|id ids IH]; simpl; intros s out H.
  - inversion H. constructor.
  - destruct (find _ staticRandomisableContainersOnMap) as [c|] eqn:Efind.
    + apply bind_ok_inv in H. destruct H as (c' & s1 & Hfill & H).
      apply bind_ok_inv in H. destruct H as (others & s2 & Hothers & H).
      unfold ret in H. inversion H; subst. constructor; [|exact (IH _ _ Hothers)].
      exists c, c', s, s1. apply find_some in Efind. tauto.
    + apply bind_ok_inv in H. destruct H as (u & s1 & _ & H). exact (IH _ _ H).
Qed.

Lemma addContainerGroups_inv
  (staticRandomisableContainersOnMap : list IStaticContainerData.t)
  (staticForcedOnMap : option (list IStaticForcedProps.t))
  (staticLootDist : Record_ IStaticLootDetails.t)
  (staticAmmoDist : StaticAmmoDist) (locationId : string)
  (mapping : Record_ IContainerGroupCount.t) (s s' : State World)
  (out : list SpawnpointTemplate.t) :
  addContainerGroups staticRandomisableContainersOnMap staticForcedOnMap
    staticLootDist staticAmmoDist locationId mapping s = (Ok out, s') ->
  Forall
    (fun t => exists c c' s1 s2,
         In c staticRandomisableContainersOnMap /\
         addLootToContainer c staticForcedOnMap staticLootDist staticAmmoDist
           locationId s1 = (Ok c', s2) /\
         t = IStaticContainerData.template c')
    out.
Proof.
  revert s out. induction mapping as [|[groupId data] mapping IH]; simpl;
    intros s out H.
  - inversion H. constructor.
  - apply bind_ok_inv in H. destruct H as (ids & s1 & _ & H).
    apply bind_ok_inv in H. destruct H as (added & s2 & Hadded & H).
    apply bind_ok_inv in H. destruct H as (others & s3 & Hothers & H).
    unfold ret in H. inversion H; subst. apply Forall_app. split.
    + exact (addChosenContainers_inv _ _ _ _ _ _ _ _ _ Hadded).
    + exact (IH _ _ Hothers).
Qed.

Lemma templates_of_Forall
  (f : IStaticContainerData.t -> M World IStaticContainerData.t)
  (l : list IStaticContainerData.t) (s s' : State World)
  (out : list SpawnpointTemplate.t) :
  templates_of f l s = (Ok out, s') ->
  Forall
    (fun t => exists c c' s1 s2,
         In c l /\ f c s1 = (Ok c', s2) /\ t = IStaticContainerData.template c')
    out.
Proof.
  intros H. apply templates_of_inv in H. apply Forall_forall. intros t Ht.
  destruct (Forall2_In_r _ _ _ _ H Ht) as (c & Hc & c' & s1 & s2 & Hf & ->).
  exists c, c', s1, s2. auto.
Qed.

(** X8: whatever [generateStaticContainers] returns is the list of the
    weapons mounted on the map followed by containers of the map's table,
    each filled by [addLootToContainer]: the result holds no container the
    table does not list, with randomisation on or off.  Each of them has the
    template id of its container, and its root id is the id of its first
    item. *)
Theorem static_result_holds_only_listed_containers
  (locationBase : ILocationBase.t) (staticAmmoDist : StaticAmmoDist)
  (s s' : State World) (result : list SpawnpointTemplate.t) :
  let name := ILocationBase.Name locationBase in
  let fill c :=
    addLootToContainer c (staticLootField IStaticLootOnMap.staticForced name)
      (IDatabaseTables.loot_staticLoot getTables) staticAmmoDist
      (toLowerCase (ILocationBase.Id locationBase)) in
  generateStaticContainers locationBase staticAmmoDist s = (Ok result, s') ->
  exists all filled,
    staticLootField IStaticLootOnMap.staticContainers name = Some all /\
    result =
      or_empty (staticLootField IStaticLootOnMap.staticWeapons name) ++ filled /\
    forall t,
      In t filled ->
      exists c c' s1 s2 first others,
        In c all /\
        fill c s1 = (Ok c', s2) /\
        t = IStaticContainerData.template c' /\
        SpawnpointTemplate.Id t =
          SpawnpointTemplate.Id (IStaticContainerData.template c) /\
        SpawnpointTemplate.Items t = first :: others /\
        SpawnpointTemplate.Root t = Item._id first.
Proof.
  intros name fill. unfold generateStaticContainers. fold name. intros H.
  apply bind_ok_inv in H. destruct H as (u0 & s0 & _ & H).
  apply bind_ok_inv in H. destruct H as (u1 & s1 & _ & H).
  apply bind_ok_inv in H. destruct H as (r & s2 & Hr & H).
  apply bind_ok_inv in H. destruct H as (u2 & s3 & _ & H).
  apply bind_ok_inv in H. destruct H as (g & s4 & Hg & H).
  apply bind_ok_inv in H. destruct H as (guaranteed & s5 & Hguaranteed & H).
  apply bind_ok_inv in H. destruct H as (u3 & s6 & _ & H).
  destruct (staticLootField IStaticLootOnMap.staticContainers name) as [all|];
    [|discriminate].
  unfold lift in Hg, Hr. inversion Hg as [[Hg' Hs]]. inversion Hr as [[Hr' Hs']].
  simpl in Hg', Hr'.
  apply templates_of_Forall in Hguaranteed. fold fill in Hguaranteed.
  assert (Hfinish : forall part,
    Forall (fun t => exists c c' s1 s2,
                In c all /\ fill c s1 = (Ok c', s2) /\
                t = IStaticContainerData.template c') part ->
    forall t, In t part ->
      exists c c' s1 s2 first others,
        In c all /\ fill c s1 = (Ok c', s2) /\
        t = IStaticContainerData.template c' /\
        SpawnpointTemplate.Id t =
          SpawnpointTemplate.Id (IStaticContainerData.template c) /\
        SpawnpointTemplate.Items t = first :: others /\
        SpawnpointTemplate.Root t = Item._id first).
  { intros part Hpart t Ht. rewrite Forall_forall in Hpart.
    destruct (Hpart t Ht) as (c & c' & sa & sb & Hc & Hfill & ->).
    pose proof (addLootToContainer_inv _ _ _ _ _ _ _ _ Hfill)
      as (root & others & placed & forced & _ & _ & ->).
    exists c. eexists. exists sa, sb. eexists. eexists.
    split; [exact Hc|]. split; [exact Hfill|]. simpl. repeat split. }
  assert (Hwiden : forall sub part,
    (forall c, In c sub -> In c all) ->
    Forall (fun t => exists c c' s1 s2,
                In c sub /\ fill c s1 = (Ok c', s2) /\
                t = IStaticContainerData.template c') part ->
    Forall (fun t => exists c c' s1 s2,
                In c all /\ fill c s1 = (Ok c', s2) /\
                t = IStaticContainerData.template c') part).
  { intros sub part Hsub Hpart. eapply Forall_impl; [|exact Hpart]. simpl.
    intros t (c & c' & sa & sb & Hc & Hrest). exists c, c', sa, sb. auto. }
  assert (Hgall : forall c, In c g -> In c all)
    by (intros c Hc; apply (filter_throwing_In _ _ _ Hg') in Hc; tauto).
  assert (Hrall : forall c, In c r -> In c all)
    by (intros c Hc; apply (filter_throwing_In _ _ _ Hr') in Hc; tauto).
  exists all.
  destruct (negb (containerRandomisationEnabled _)).
  - apply bind_ok_inv in H. destruct H as (u4 & s7 & _ & H).
    apply bind_ok_inv in H. destruct H as (others & s8 & Hothers & H).
    unfold ret in H. inversion H; subst.
    apply templates_of_Forall in Hothers. fold fill in Hothers.
    exists (guaranteed ++ others). split; [reflexivity|]. split; [reflexivity|].
    apply Hfinish, Forall_app.
    split; [exact (Hwiden g _ Hgall Hguaranteed) | exact (Hwiden r _ Hrall Hothers)].
  - apply bind_ok_inv in H. destruct H as (groupData & s7 & _ & H).
    apply bind_ok_inv in H. destruct H as (mapping & s8 & _ & H).
    apply bind_ok_inv in H. destruct H as (others & s9 & Hothers & H).
    apply bind_ok_inv in H. destruct H as (u5 & s10 & _ & H).
    unfold ret in H. inversion H; subst.
    apply addContainerGroups_inv in Hothers. fold fill in Hothers.
    exists (guaranteed ++ others). split; [reflexivity|]. split; [reflexivity|].
    apply Hfinish, Forall_app.
    split; [exact (Hwiden g _ Hgall Hguaranteed) | exact (Hwiden r _ Hrall Hothers)].
Qed.

(** X9: [addLootToContainer] never returns when the forced-loot table is
    missing, so a map without that table whose container table holds a
    container that always spawns makes [generateStaticContainers] throw: the
    pass logs the missing table and goes on to fill the container, which
    filters the missing table. *)
Theorem missing_forced_table_throws (locationBase : ILocationBase.t)
  (staticAmmoDist : StaticAmmoDist) (all : list IStaticContainerData.t)
  (container : IStaticContainerData.t) (s : State World) :
  let name := ILocationBase.Name locationBase in
  staticLootField IStaticLootOnMap.staticForced name = None ->
  staticLootField IStaticLootOnMap.staticContainers name = Some all ->
  In container all ->
  isGuaranteed container = Ok true ->
  (forall c loot locationName s0 c' s1,
      addLootToContainer c None loot staticAmmoDist locationName s0 <> (Ok c', s1)) /\
  exists e s',
    generateStaticContainers locationBase staticAmmoDist s = (Throw e, s').
Proof.
  intros name Hforced Hall Hin Hguaranteed.
  assert (Hnever : forall c loot locationName s0 c' s1,
             addLootToContainer c None loot staticAmmoDist locationName s0 <>
             (Ok c', s1)).
  { intros c loot locationName s0 c' s1 H.
    apply addLootToContainer_inv in H.
    destruct H as (_ & _ & _ & forced & _ & Hsome & _). discriminate. }
  split; [exact Hnever|].
  destruct (generateStaticContainers locationBase staticAmmoDist s)
    as [[result|e] s'] eqn:H; [|eauto].
  exfalso. apply generateStaticContainers_inv in H.
  destruct H as (all' & g & filled & others & Hall' & Hg & _ & Hfilled).
  fold name in Hall'. rewrite Hall in Hall'. inversion Hall'; subst all'.
  assert (Hc : In container g)
    by (simpl in Hg; apply (filter_throwing_In _ _ _ Hg); auto).
  destruct (Forall2_In_l _ _ _ _ Hfilled Hc) as (t & _ & c' & s1 & s2 & Hfill & _).
  fold name in Hfill. rewrite Hforced in Hfill. exact (Hnever _ _ _ _ _ _ Hfill).
Qed.

(** X10: with randomisation enabled for the map, a location id for which
    the database has no group data makes [generateStaticContainers] throw,
    whatever the tables of the map hold: the guaranteed containers are filled
    first and the lookup of the group data comes after them. *)
Theorem missing_group_data_throws (locationBase : ILocationBase.t)
  (staticAmmoDist : StaticAmmoDist) (s : State World) :
  let locationId := toLowerCase (ILocationBase.Id locationBase) in
  containerRandomisationEnabled locationId = true ->
  rec_get (IDatabaseTables.locations_statics getTables) locationId = None ->
  exists e s',
    generateStaticContainers locationBase staticAmmoDist s = (Throw e, s').
Proof.
  intros locationId Henabled Hmissing.
  destruct (generateStaticContainers locationBase staticAmmoDist s)
    as [[result|e] s'] eqn:H; [|eauto].
  exfalso. unfold generateStaticContainers in H. fold locationId in H.
  apply bind_ok_inv in H. destruct H as (u0 & s0 & _ & H).
  apply bind_ok_inv in H. destruct H as (u1 & s1 & _ & H).
  apply bind_ok_inv in H. destruct H as (r & s2 & _ & H).
  apply bind_ok_inv in H. destruct H as (u2 & s3 & _ & H).
  apply bind_ok_inv in H. destruct H as (g & s4 & _ & H).
  apply bind_ok_inv in H. destruct H as (guaranteed & s5 & _ & H).
  apply bind_ok_inv in H. destruct H as (u3 & s6 & _ & H).
  rewrite Henabled, Hmissing in H. simpl in H.
  apply bind_ok_inv in H. destruct H as (groupData & s7 & Hdata & _).
  discriminate.
Qed.

(** ** One spawn point per location, continued *)

Lemma collect_keyed (l : list Spawnpoint.t) (m : Record_ Spawnpoint.t) :
  NoDup (Object_keys m) /\
  (forall k y, In (k, y) m -> Spawnpoint.locationId y = k) ->
  NoDup (Object_keys (collectByLocationId m l)) /\
  (forall k y, In (k, y) (collectByLocationId m l) ->
               Spawnpoint.locationId y = k).
Proof.
  revert m. induction l as [|x l IH]; simpl; intros m Hm; [exact Hm|].
  apply IH. destruct Hm as [Hnd Hloc]. split.
  - apply Map_set_NoDup, Hnd.
  - intros k y Hin. destruct (Map_set_In_inv _ _ _ _ _ Hin) as [H|[-> ->]];
      [exact (Hloc _ _ H) | reflexivity].
Qed.

Lemma uniqueByLocationId_NoDup (l : list Spawnpoint.t) :
  NoDup (map Spawnpoint.locationId (uniqueByLocationId l)).
Proof.
  unfold uniqueByLocationId.
  destruct (collect_keyed l []) as [Hnd Hloc].
  { split; [constructor | intros ? ? []]. }
  assert (E : map Spawnpoint.locationId (map snd (collectByLocationId [] l)) =
              Object_keys (collectByLocationId [] l)).
  { unfold Object_keys. rewrite map_map. apply map_ext_in.
    intros [k y] Hin. simpl. exact (Hloc _ _ Hin). }
  rewrite E. exact Hnd.
Qed.

Lemma collect_keeps_other (l : list Spawnpoint.t) (m : Record_ Spawnpoint.t)
  (k : string) (x : Spawnpoint.t) :
  In (k, x) m ->
  (forall y, In y l -> Spawnpoint.locationId y <> k) ->
  In (k, x) (collectByLocationId m l).
Proof.
  revert m. induction l as [|y l IH]; simpl; intros m Hin Hl; [exact Hin|].
  apply IH; [|auto]. apply Map_set_In_other; [exact Hin|].
  intros E. apply (Hl y); auto.
Qed.

Lemma collect_app (l1 l2 : list Spawnpoint.t) (m : Record_ Spawnpoint.t) :
  collectByLocationId m (l1 ++ l2) =
  collectByLocationId (collectByLocationId m l1) l2.
Proof.
  unfold collectByLocationId. apply fold_left_app.
Qed.

Lemma uniqueByLocationId_last (l1 l2 : list Spawnpoint.t) (x : Spawnpoint.t) :
  (forall y, In y l2 -> Spawnpoint.locationId y <> Spawnpoint.locationId x) ->
  In x (uniqueByLocationId (l1 ++ x :: l2)).
Proof.
  intros Hl2. unfold uniqueByLocationId. rewrite collect_app. simpl.
  apply in_map_iff. exists (Spawnpoint.locationId x, x). split; [reflexivity|].
  apply collect_keeps_other; [|exact Hl2].
  apply rec_get_Some_In, Map_set_get_same.
Qed.

Lemma last_of_location (l : list Spawnpoint.t) (k : string) :
  (exists y, In y l /\ Spawnpoint.locationId y = k) ->
  exists l1 z l2,
    l = l1 ++ z :: l2 /\
    Spawnpoint.locationId z = k /\
    forall y, In y l2 -> Spawnpoint.locationId y <> k.
Proof.
  induction l as [|a l IH]; intros (y & Hy & Ey); [contradiction|].
  destruct (existsb (fun w => String.eqb (Spawnpoint.locationId w) k) l) eqn:E.
  - apply existsb_exists in E. destruct E as (w & Hw & Ew).
    apply String.eqb_eq in Ew.
    destruct IH as (l1 & z & l2 & -> & Hz & Hl2); [eauto|].
    exists (a :: l1), z, l2. auto.
  - assert (Hnone : forall w, In w l -> Spawnpoint.locationId w <> k).
    { intros w Hw Ew.
      assert (existsb (fun w => String.eqb (Spawnpoint.locationId w) k) l = true).
      { apply existsb_exists. exists w. split; [exact Hw|].
        apply String.eqb_eq, Ew. }
      congruence. }
    destruct Hy as [->|Hy]; [|exfalso; exact (Hnone y Hy Ey)].
    exists [], y, l. auto.
Qed.

Lemma same_location_same_point (l : list Spawnpoint.t) (x y : Spawnpoint.t) :
  NoDup (map Spawnpoint.locationId l) ->
  In x l -> In y l ->
  Spawnpoint.locationId x = Spawnpoint.locationId y ->
  x = y.
Proof.
  induction l as [|a l IH]; simpl; [contradiction|].
  intros Hnd Hx Hy E. inversion Hnd as [|? ? Ha Hl]; subst.
  destruct Hx as [->|Hx], Hy as [->|Hy]; auto.
  - exfalso. apply Ha. rewrite E. apply in_map, Hy.
  - exfalso. apply Ha. rewrite <- E. apply in_map, Hx.
Qed.

(** X11: the de-duplication of the chosen spawn points keeps, for every
    location id, exactly the last spawn point of the list that has it: a spawn
    point is kept if and only if it occurs in the list with no spawn point of
    its location after it.  The kept spawn points have pairwise distinct
    location ids. *)
Theorem one_spawnpoint_per_location_the_last (chosenSpawnpoints : list Spawnpoint.t) :
  NoDup (map Spawnpoint.locationId (uniqueByLocationId chosenSpawnpoints)) /\
  forall x,
    In x (uniqueByLocationId chosenSpawnpoints) <->
    exists before after,
      chosenSpawnpoints = before ++ x :: after /\
      forall y, In y after ->
                Spawnpoint.locationId y <> Spawnpoint.locationId x.
Proof.
  split; [apply uniqueByLocationId_NoDup|]. intros x. split.
  - intros Hx.
    destruct (last_of_location chosenSpawnpoints (Spawnpoint.locationId x))
      as (l1 & z & l2 & E & Hz & Hl2);
      [exists x; split; [exact (uniqueByLocationId_In _ _ Hx) | reflexivity]|].
    assert (Hzin : In z (uniqueByLocationId chosenSpawnpoints)).
    { rewrite E. apply uniqueByLocationId_last. intros y Hy. rewrite Hz.
      exact (Hl2 y Hy). }
    assert (z = x)
      by (exact (same_location_same_point _ _ _
                   (uniqueByLocationId_NoDup chosenSpawnpoints) Hzin Hx Hz)).
    subst z. exists l1, l2. auto.
  - intros (before & after & -> & Hafter). apply uniqueByLocationId_last, Hafter.
Qed.

(** X12: the spawn points [generateDynamicLoot] settles on have pairwise
    distinct location ids, and every one of them is a spawn point of the
    loose-loot table. *)
Theorem chosen_spawnpoints_have_distinct_locations
  (dynamicLootDist : ILooseLoot.t) (name : string) (s s' : State World)
  (chosen : list Spawnpoint.t) :
  chosenSpawnpointsOf dynamicLootDist name s = (Ok chosen, s') ->
  NoDup (map Spawnpoint.locationId chosen) /\
  forall sp, In sp chosen -> In sp (ILooseLoot.spawnpoints dynamicLootDist).
Proof.
  intros H. apply chosenSpawnpointsOf_inv in H.
  destruct H as (picked & -> & Hpicked). split.
  - apply uniqueByLocationId_NoDup.
  - intros sp Hsp. apply uniqueByLocationId_In in Hsp.
    apply in_app_or in Hsp. destruct Hsp as [Hsp|Hsp].
    + apply filter_In in Hsp. tauto.
    + apply Hpicked, Hsp.
Qed.

(** ** Forced loot *)

Lemma rerootTemplate_inv (template out : SpawnpointTemplate.t) (s s' : State World) :
  rerootTemplate template s = (Ok out, s') ->
  exists first others,
    SpawnpointTemplate.Items template = first :: others /\
    out =
      SpawnpointTemplate.mk (SpawnpointTemplate.Id template)
        (SpawnpointTemplate.IsAlwaysSpawn template) (fst (generate (world s)))
        (Item.set_id first (fst (generate (world s))) :: others).
Proof.
  unfold rerootTemplate, bind, call. destruct (generate (world s)) as [root w1].
  destruct (SpawnpointTemplate.Items template) as [|first others];
    [discriminate|].
  unfold ret. intros H. inversion H. exists first, others. auto.
Qed.

Lemma rerooted_again (x : SpawnpointsForced.t) (t t' : SpawnpointTemplate.t)
  (s s' : State World) :
  t = SpawnpointsForced.template x \/ rerooted x t ->
  rerootTemplate t s = (Ok t', s') ->
  rerooted x t'.
Proof.
  intros Ht H. apply rerootTemplate_inv in H.
  destruct H as (first & others & Hitems & ->).
  destruct Ht as [->|(first0 & others0 & Hx & Hid & Hflag & Hitems0)].
  - exists first, others. simpl. auto.
  - exists first0, others0. simpl. rewrite Hitems0 in Hitems.
    inversion Hitems; subst. destruct first0. auto.
Qed.

Lemma store_of_refl (table : list SpawnpointsForced.t) : store_of table table.
Proof.
  unfold store_of. induction table; constructor; auto.
Qed.

Lemma store_of_lookup (table store : list SpawnpointsForced.t) (i : nat)
  (y : SpawnpointsForced.t) :
  store_of table store ->
  nth_error store i = Some y ->
  exists x,
    nth_error table i = Some x /\
    SpawnpointsForced.locationId y = SpawnpointsForced.locationId x /\
    forced_tpl y = forced_tpl x /\
    (y = x \/ rerooted x (SpawnpointsForced.template y)).
Proof.
  intros H. revert i. induction H as [|x y0 table store Hxy _ IH]; intros i Hi.
  - destruct i; discriminate.
  - destruct i as [|i]; [|exact (IH i Hi)].
    simpl in Hi. inversion Hi; subst y0. exists x.
    destruct Hxy as (Hloc & _ & Hy). repeat split; auto.
    destruct Hy as [->|(first & others & Hx & _ & _ & Hitems)]; [reflexivity|].
    unfold forced_tpl, first_tpl. rewrite Hx, Hitems. reflexivity.
Qed.

Lemma store_of_length (table store : list SpawnpointsForced.t) :
  store_of table store -> List.length store = List.length table.
Proof.
  intros H. symmetry. exact (Forall2_length H).
Qed.

(** One rewrite keeps the store a store, leaves its position re-rooted and
    the other positions as they were. *)
Lemma rerootAt_inv (table store store' : list SpawnpointsForced.t) (i : nat)
  (s s' : State World) :
  store_of table store ->
  rerootAt store i s = (Ok store', s') ->
  store_of table store' /\
  rerooted_at table store' i /\
  forall j, j <> i -> nth_error store' j = nth_error store j.
Proof.
  intros H. revert i store' s. induction H as [|x y table store Hxy Hrest IH];
    intros i store' s Hrun.
  - destruct i; discriminate.
  - destruct i as [|i]; simpl in Hrun.
    + apply bind_ok_inv in Hrun. destruct Hrun as (t' & s1 & Ht' & Hrun).
      unfold ret in Hrun. inversion Hrun; subst. clear Hrun.
      destruct Hxy as (Hloc & Hprob & Hy).
      assert (Hr : rerooted x t').
      { apply (rerooted_again x _ _ _ _) with (2 := Ht').
        destruct Hy as [->|Hy]; auto. }
      split; [|split].
      * constructor; [|exact Hrest]. simpl. auto.
      * exists x, (SpawnpointsForced.set_template y t'). simpl. auto.
      * intros [|j] Hj; [congruence | reflexivity].
    + apply bind_ok_inv in Hrun. destruct Hrun as (rest' & s1 & Hrest' & Hrun).
      unfold ret in Hrun. inversion Hrun; subst. clear Hrun.
      destruct (IH _ _ _ Hrest') as (Hstore & (x0 & y0 & Hx0 & Hy0 & Hr) & Hother).
      split; [|split].
      * constructor; assumption.
      * exists x0, y0. simpl. auto.
      * intros [|j] Hj; [reflexivity|]. simpl. apply Hother. congruence.
Qed.

Lemma rerooted_at_kept (table store store' : list SpawnpointsForced.t) (i j : nat)
  (s s' : State World) :
  store_of table store ->
  rerootAt store i s = (Ok store', s') ->
  rerooted_at table store j -> rerooted_at table store' j.
Proof.
  intros Hstore Hrun Hj.
  destruct (rerootAt_inv _ _ _ _ _ _ Hstore Hrun) as (_ & Hi & Hother).
  destruct (Nat.eq_dec j i) as [->|Hne]; [exact Hi|].
  destruct Hj as (x & y & Hx & Hy & Hr). exists x, y.
  rewrite (Hother j Hne). auto.
Qed.

(** What the three loops of [addForcedLoot] have in common. *)
Lemma pushDrawn_inv (table store store' : list SpawnpointsForced.t)
  (items : list (nat * SpawnpointsForced.t)) (drawn : list string)
  (refs : list nat) (s s' : State World) :
  store_of table store ->
  pushDrawn items drawn store s = (Ok (refs, store'), s') ->
  store_of table store' /\
  (forall j, rerooted_at table store j -> rerooted_at table store' j) /\
  forall i, In i refs -> rerooted_at table store' i /\ In i (map fst items).
Proof.
  revert store refs s. induction drawn as [|id drawn IH]; simpl;
    intros store refs s Hstore H.
  - inversion H; subst. repeat split; auto; contradiction.
  - apply bind_ok_inv in H. destruct H as (itemToAdd & s1 & Hfind & H).
    apply bind_ok_inv in H. destruct H as (store1 & s2 & Hroot & H).
    apply bind_ok_inv in H. destruct H as ([others store2] & s3 & Hothers & H).
    unfold ret in H. inversion H; subst. clear H.
    destruct (rerootAt_inv _ _ _ _ _ _ Hstore Hroot) as (Hstore1 & Hi & _).
    destruct (IH _ _ _ Hstore1 Hothers) as (Hstore' & Hkept & Hrefs).
    split; [exact Hstore'|]. split.
    + intros j Hj. apply Hkept.
      exact (rerooted_at_kept _ _ _ _ _ _ _ Hstore Hroot Hj).
    + intros i [<-|Hin]; [|exact (Hrefs i Hin)].
      split; [exact (Hkept _ Hi)|].
      destruct (find _ items) as [x|] eqn:Efind; [|discriminate].
      unfold defined, ret in Hfind. inversion Hfind; subst.
      apply find_some in Efind. apply in_map. tauto.
Qed.

Lemma indexed_lookup {A : Type} (l : list A) (i : nat) (a : A) :
  In (i, a) (indexed l) -> nth_error l i = Some a.
Proof.
  unfold indexed.
  assert (H : forall k, In (i, a) (combine (seq k (List.length l)) l) ->
                        exists j, i = (k + j)%nat /\ nth_error l j = Some a).
  { induction l as [|x l IH]; simpl; intros k Hin; [contradiction|].
    destruct Hin as [E|Hin].
    - inversion E; subst. exists O. split; [lia | reflexivity].
    - destruct (IH _ Hin) as (j & -> & Hj). exists (S j). split; [lia | exact Hj]. }
  intros Hin. destruct (H O Hin) as (j & -> & Hj). exact Hj.
Qed.

Lemma addSingleSpawnLoot_inv (table store store' : list SpawnpointsForced.t)
  (locationName : string) (single : list string) (refs : list nat)
  (s s' : State World) :
  store_of table store ->
  addSingleSpawnLoot store locationName single s = (Ok (refs, store'), s') ->
  store_of table store' /\
  (forall j, rerooted_at table store j -> rerooted_at table store' j) /\
  forall i, In i refs ->
    rerooted_at table store' i /\
    exists x tpl,
      nth_error table i = Some x /\ forced_tpl x = Ok tpl /\ In tpl single.
Proof.
  revert store refs s. induction single as [|itemTpl single IH]; simpl;
    intros store refs s Hstore H.
  - inversion H; subst. repeat split; auto; contradiction.
  - apply bind_ok_inv in H. destruct H as (items & s1 & Hitems & H).
    apply bind_ok_inv in H. destruct H as ([added store1] & s2 & Hadded & H).
    apply bind_ok_inv in H. destruct H as ([others store2] & s3 & Hothers & H).
    unfold ret in H. inversion H; subst. clear H.
    unfold lift in Hitems. inversion Hitems as [[Hfilter Hs]]. clear Hitems.
    assert (Hfirst :
              store_of table store1 /\
              (forall j, rerooted_at table store j -> rerooted_at table store1 j) /\
              forall i, In i added ->
                        rerooted_at table store1 i /\ In i (map fst items)).
    { destruct items as [|i0 items'].
      - apply bind_ok_inv in Hadded. destruct Hadded as (u & s4 & _ & Hadded).
        unfold ret in Hadded. inversion Hadded; subst.
        repeat split; auto; contradiction.
      - apply bind_ok_inv in Hadded. destruct Hadded as (drawn & s4 & _ & Hadded).
        exact (pushDrawn_inv _ _ _ _ _ _ _ _ Hstore Hadded). }
    destruct Hfirst as (Hstore1 & Hkept1 & Hadded1).
    destruct (IH _ _ _ Hstore1 Hothers) as (Hstore2 & Hkept2 & Hothers2).
    split; [exact Hstore2|]. split; [auto|].
    intros i Hi. apply in_app_or in Hi. destruct Hi as [Hi|Hi].
    + destruct (Hadded1 i Hi) as [Hr Hin]. split; [exact (Hkept2 _ Hr)|].
      apply in_map_iff in Hin. destruct Hin as ([i' y] & Hfst & Hin).
      simpl in Hfst. subst i'.
      apply (filter_throwing_In _ _ _ Hfilter) in Hin. destruct Hin as [Hin Htpl].
      apply indexed_lookup in Hin.
      destruct (store_of_lookup _ _ _ _ Hstore Hin) as (x & Hx & _ & Heq & _).
      simpl in Htpl. rewrite Heq in Htpl.
      destruct (forced_tpl x) as [tpl|] eqn:Etpl; [|discriminate].
      inversion Htpl as [E]. apply String.eqb_eq in E. subst itemTpl.
      exists x, tpl. auto.
    + destruct (Hothers2 i Hi) as [Hr (x & tpl & Hx & Htpl & Hin)].
      split; [exact Hr|]. exists x, tpl. auto.
Qed.

Lemma addRemainingForcedLoot_inv (single : option (list string))
  (table store store' : list SpawnpointsForced.t) (positions refs : list nat)
  (s s' : State World) :
  store_of table store ->
  addRemainingForcedLoot single positions store s = (Ok (refs, store'), s') ->
  store_of table store' /\
  (forall j, rerooted_at table store j -> rerooted_at table store' j) /\
  (forall i, In i refs -> rerooted_at table store' i) /\
  refs =
    filter
      (fun i =>
         match nth_error table i with
         | Some x => negb (forcedIsSkipped single x)
         | None => false
         end)
      positions.
Proof.
  revert store refs s. induction positions as [|i positions IH]; simpl;
    intros store refs s Hstore H.
  - inversion H; subst. repeat split; auto; contradiction.
  - apply bind_ok_inv in H. destruct H as (y & s0 & Hy & H).
    destruct (nth_error store i) as [y'|] eqn:Ey; [|discriminate].
    unfold defined, ret in Hy. inversion Hy; subst y' s0. clear Hy.
    destruct (store_of_lookup _ _ _ _ Hstore Ey) as (x & Hx & _ & Heq & _).
    rewrite Hx. rewrite Heq in H.
    apply bind_ok_inv in H. destruct H as (isSingle & s1 & Hsingle & H).
    unfold forcedIsSkipped.
    destruct isSingle.
    + assert (E : exists tpl, forced_tpl x = Ok tpl /\ opt_includes single tpl = true).
      { destruct single as [l|]; [|inversion Hsingle].
        apply bind_ok_inv in Hsingle. destruct Hsingle as (tpl & s2 & Htpl & Hs).
        unfold lift in Htpl. inversion Htpl. unfold ret in Hs. inversion Hs.
        exists tpl. simpl. auto. }
      destruct E as (tpl & -> & ->). simpl. exact (IH _ _ _ Hstore H).
    + apply bind_ok_inv in H. destruct H as (seasonal & s2 & Hseasonal & H).
      assert (Hsingle' : forall tpl, forced_tpl x = Ok tpl ->
                                     opt_includes single tpl = false).
      { intros tpl Htpl. destruct single as [l|]; [|reflexivity].
        apply bind_ok_inv in Hsingle. destruct Hsingle as (tpl' & s3 & Htpl' & Hs).
        unfold lift in Htpl'. inversion Htpl' as [[E1 E2]].
        unfold ret in Hs. inversion Hs. simpl. congruence. }
      destruct seasonal.
      * assert (E : exists tpl, forced_tpl x = Ok tpl /\
                      negb seasonalEventEnabled &&
                      includes getAllSeasonalEventItems tpl = true).
        { destruct (negb seasonalEventEnabled); [|inversion Hseasonal].
          apply bind_ok_inv in Hseasonal.
          destruct Hseasonal as (tpl & s3 & Htpl & Hs).
          unfold lift in Htpl. injection Htpl as Htpl _.
          unfold ret in Hs. injection Hs as Hs _.
          exists tpl. simpl. auto. }
        destruct E as (tpl & Htpl & E). rewrite Htpl, E, orb_true_r. simpl.
        exact (IH _ _ _ Hstore H).
      * apply bind_ok_inv in H. destruct H as (store1 & s3 & Hroot & H).
        apply bind_ok_inv in H. destruct H as ([others store2] & s4 & Hothers & H).
        unfold ret in H. inversion H; subst. clear H.
        assert (E : match forced_tpl x with
                    | Ok tpl =>
                        opt_includes single tpl ||
                        (negb seasonalEventEnabled &&
                         includes getAllSeasonalEventItems tpl)
                    | Throw _ => false
                    end = false).
        { destruct (forced_tpl x) as [tpl|] eqn:Htpl; [|reflexivity].
          rewrite (Hsingle' tpl eq_refl). simpl.
          destruct (negb seasonalEventEnabled); [|reflexivity].
          apply bind_ok_inv in Hseasonal.
          destruct Hseasonal as (tpl' & s5 & Htpl' & Hs).
          unfold lift in Htpl'. inversion Htpl' as [[E1 E2]].
          unfold ret in Hs. inversion Hs. simpl. congruence. }
        rewrite E. simpl.
        destruct (rerootAt_inv _ _ _ _ _ _ Hstore Hroot) as (Hstore1 & Hi & _).
        destruct (IH _ _ _ Hstore1 Hothers) as (Hstore2 & Hkept & Hrefs & ->).
        split; [exact Hstore2|]. split; [|split; [|reflexivity]].
        -- intros j Hj. apply Hkept.
           exact (rerooted_at_kept _ _ _ _ _ _ _ Hstore Hroot Hj).
        -- intros j [<-|Hj]; [exact (Hkept _ Hi) | exact (Hrefs j Hj)].
Qed.

Lemma templatesAt_In (table store : list SpawnpointsForced.t) (refs : list nat)
  (t : SpawnpointTemplate.t) :
  (forall i, In i refs -> rerooted_at table store i) ->
  In t (templatesAt store refs) ->
  exists i x, In i refs /\ nth_error table i = Some x /\ rerooted x t.
Proof.
  intros Hrefs Ht. unfold templatesAt in Ht. apply in_flat_map in Ht.
  destruct Ht as (i & Hi & Ht).
  destruct (Hrefs i Hi) as (x & y & Hx & Hy & Hr). rewrite Hy in Ht.
  destruct Ht as [<-|[]]. exists i, x. auto.
Qed.

Lemma templatesAt_kept (table store : list SpawnpointsForced.t)
  (keep : SpawnpointsForced.t -> bool) (l : list SpawnpointsForced.t) (k : nat) :
  (forall j, nth_error table (k + j) = nth_error l j) ->
  (forall i, (k <= i < k + List.length l)%nat -> rerooted_at table store i \/
             match nth_error table i with
             | Some x => keep x = false
             | None => True
             end) ->
  Forall2 rerooted (filter keep l)
    (templatesAt store
       (filter
          (fun i =>
             match nth_error table i with
             | Some x => keep x
             | None => false
             end)
          (seq k (List.length l)))).
Proof.
  revert k. induction l as [|a l IH]; simpl; intros k Hl Hr; [constructor|].
  pose proof (Hl O) as Ha. rewrite Nat.add_0_r in Ha. simpl in Ha. rewrite Ha.
  assert (Hrest : Forall2 rerooted (filter keep l)
                    (templatesAt store
                       (filter
                          (fun i =>
                             match nth_error table i with
                             | Some x => keep x
                             | None => false
                             end)
                          (seq (S k) (List.length l))))).
  { apply IH.
    - intros j. pose proof (Hl (S j)) as Hj. simpl in Hj. rewrite <- Hj.
      f_equal. lia.
    - intros i Hi. apply Hr. lia. }
  destruct (keep a) eqn:Ea; [|exact Hrest].
  simpl. destruct (Hr k) as [(x & y & Hx & Hy & Hroot)|Hno]; [lia| |].
  - rewrite Hy. simpl. constructor; [|exact Hrest]. congruence.
  - rewrite Ha, Ea in Hno. discriminate.
Qed.

(** X13: what [addForcedLoot] returns is made of two parts.  The first holds
    positions of the items on the single-spawn list of the map and is empty
    when the map has no such list.  The second holds, in the order of the
    table, exactly the forced spawn points that are neither on that list nor
    seasonal outside their event.  Every template comes from a forced spawn
    point of the table and only its root changes: template id, flag and the
    items after the first are those of the table, and the fresh root id is
    the id of the first item. *)
Theorem forced_loot_is_emitted_as_listed
  (forcedSpawnPoints : list SpawnpointsForced.t) (locationName : string)
  (s s' : State World) (out : list SpawnpointTemplate.t) :
  let single :=
    rec_get (ILocationConfig.forcedLootSingleSpawnById locationConfig)
      locationName in
  let rerooted (x : SpawnpointsForced.t) (t : SpawnpointTemplate.t) :=
    exists first others,
      SpawnpointTemplate.Items (SpawnpointsForced.template x) = first :: others /\
      SpawnpointTemplate.Id t = SpawnpointTemplate.Id (SpawnpointsForced.template x) /\
      SpawnpointTemplate.IsAlwaysSpawn t =
        SpawnpointTemplate.IsAlwaysSpawn (SpawnpointsForced.template x) /\
      SpawnpointTemplate.Items t =
        Item.set_id first (SpawnpointTemplate.Root t) :: others in
  addForcedLoot forcedSpawnPoints locationName s = (Ok out, s') ->
  exists once remaining,
    out = once ++ remaining /\
    (single = None -> once = []) /\
    (forall t, In t once ->
       exists x tpl, In x forcedSpawnPoints /\ forced_tpl x = Ok tpl /\
                     opt_includes single tpl = true /\ rerooted x t) /\
    Forall2 rerooted
      (filter (fun x => negb (forcedIsSkipped single x)) forcedSpawnPoints)
      remaining.
Proof.
  intros single rerooted0. unfold addForcedLoot. fold single. intros H.
  apply bind_ok_inv in H. destruct H as ([refs1 store1] & s1 & Honce & H).
  apply bind_ok_inv in H. destruct H as ([refs2 store2] & s2 & Hremaining & H).
  unfold ret in H. inversion H; subst. clear H.
  assert (Hfirst :
            store_of forcedSpawnPoints store1 /\
            (single = None -> refs1 = []) /\
            forall i, In i refs1 ->
              rerooted_at forcedSpawnPoints store1 i /\
              exists x tpl,
                nth_error forcedSpawnPoints i = Some x /\
                forced_tpl x = Ok tpl /\ opt_includes single tpl = true).
  { destruct single as [l|].
    - destruct (addSingleSpawnLoot_inv _ _ _ _ _ _ _ _
                  (store_of_refl forcedSpawnPoints) Honce)
        as (Hstore & _ & Hrefs).
      split; [exact Hstore|]. split; [discriminate|].
      intros i Hi. destruct (Hrefs i Hi) as [Hr (x & tpl & Hx & Htpl & Hin)].
      split; [exact Hr|]. exists x, tpl. repeat split; try assumption.
      simpl. unfold includes. apply existsb_exists. exists tpl.
      split; [exact Hin | apply String.eqb_refl].
    - unfold ret in Honce. inversion Honce; subst.
      split; [apply store_of_refl|]. split; [reflexivity | contradiction]. }
  destruct Hfirst as (Hstore1 & Hnone & Hrefs1).
  destruct (addRemainingForcedLoot_inv _ _ _ _ _ _ _ _ Hstore1 Hremaining)
    as (Hstore2 & Hkept & Hrefs2 & Efilter).
  exists (templatesAt store2 refs1), (templatesAt store2 refs2).
  split; [apply flat_map_app|]. split; [|split].
  - intros E. rewrite (Hnone E). reflexivity.
  - intros t Ht.
    destruct (templatesAt_In forcedSpawnPoints store2 refs1 t) as (i & x & Hi & Hx & Hr);
      [intros i Hi; apply Hkept; exact (proj1 (Hrefs1 i Hi)) | exact Ht |].
    destruct (Hrefs1 i Hi) as [_ (x' & tpl & Hx' & Htpl & Hin)].
    rewrite Hx in Hx'. inversion Hx'; subst x'.
    exists x, tpl. repeat split; try assumption.
    exact (nth_error_In _ _ Hx).
  - rewrite Efilter, (store_of_length _ _ Hstore1).
    apply (templatesAt_kept forcedSpawnPoints store2
             (fun x => negb (forcedIsSkipped single x)) forcedSpawnPoints O).
    + reflexivity.
    + intros i Hi.
      destruct (nth_error forcedSpawnPoints i) as [x|] eqn:Ex; [|auto].
      destruct (negb (forcedIsSkipped single x)) eqn:Ekeep; [|auto].
      left. apply Hrefs2. rewrite Efilter. apply filter_In. split.
      * apply in_seq. rewrite (store_of_length _ _ Hstore1). lia.
      * rewrite Ex. exact Ekeep.
Qed.

(** ** Root ids of loose loot *)

Lemma addLootToSpawnpoint_root (staticAmmoDist : StaticAmmoDist)
  (spawnPoint : Spawnpoint.t) (s s' : State World) (t : SpawnpointTemplate.t) :
  addLootToSpawnpoint staticAmmoDist spawnPoint s = (Ok t, s') ->
  exists first others,
    SpawnpointTemplate.Items t = first :: others /\
    SpawnpointTemplate.Root t = Item._id first.
Proof.
  unfold addLootToSpawnpoint. intros H.
  apply bind_ok_inv in H. destruct H as (d & s1 & _ & H).
  apply bind_ok_inv in H. destruct H as (drawn & s2 & _ & H).
  apply bind_ok_inv in H. destruct H as (created & s3 & _ & H).
  apply bind_ok_inv in H. destruct H as (first & s4 & Hfirst & H).
  unfold ret in H. inversion H; subst. simpl.
  destruct (IContainerItem.items created) as [|f others]; [discriminate|].
  unfold defined, ret in Hfirst. simpl in Hfirst. inversion Hfirst; subst.
  exists first, others. auto.
Qed.

(** X14: every template in the result of [generateDynamicLoot], forced or
    loose, has at least one item, and its root id is the id of its first
    item. *)
Theorem loose_loot_roots_name_first_item (dynamicLootDist : ILooseLoot.t)
  (staticAmmoDist : StaticAmmoDist) (locationName : string) (s s' : State World)
  (loot : list SpawnpointTemplate.t) :
  generateDynamicLoot dynamicLootDist staticAmmoDist locationName s = (Ok loot, s') ->
  forall t, In t loot ->
    exists first others,
      SpawnpointTemplate.Items t = first :: others /\
      SpawnpointTemplate.Root t = Item._id first.
Proof.
  unfold generateDynamicLoot. intros H t Ht.
  apply bind_ok_inv in H. destruct H as (forced & s1 & Hforced & H).
  apply bind_ok_inv in H. destruct H as (chosen & s2 & _ & H).
  apply bind_ok_inv in H. destruct H as (loose & s3 & Hloose & H).
  unfold ret in H. inversion H; subst. clear H.
  apply in_app_or in Ht. destruct Ht as [Ht|Ht].
  - unfold addForcedLoot in Hforced.
    set (table := ILooseLoot.spawnpointsForced dynamicLootDist) in *.
    apply bind_ok_inv in Hforced.
    destruct Hforced as ([refs1 store1] & s4 & Honce & H).
    apply bind_ok_inv in H. destruct H as ([refs2 store2] & s5 & Hremaining & H).
    unfold ret in H. inversion H; subst. clear H.
    assert (Hfirst : store_of table store1 /\
                     forall i, In i refs1 -> rerooted_at table store1 i).
    { destruct (rec_get _ locationName) as [l|].
      - destruct (addSingleSpawnLoot_inv _ _ _ _ _ _ _ _ (store_of_refl table) Honce)
          as (Hstore & _ & Hrefs).
        split; [exact Hstore|]. intros i Hi. exact (proj1 (Hrefs i Hi)).
      - unfold ret in Honce. inversion Honce; subst.
        split; [apply store_of_refl | contradiction]. }
    destruct Hfirst as [Hstore1 Hrefs1].
    destruct (addRemainingForcedLoot_inv _ _ _ _ _ _ _ _ Hstore1 Hremaining)
      as (_ & Hkept & Hrefs2 & _).
    destruct (templatesAt_In table store2 (refs1 ++ refs2) t)
      as (i & x & _ & _ & first & others & _ & _ & _ & Hitems);
      [|exact Ht|].
    + intros i Hi. apply in_app_or in Hi.
      destruct Hi as [Hi|Hi]; [exact (Hkept _ (Hrefs1 i Hi)) | exact (Hrefs2 i Hi)].
    + rewrite Hitems. eexists. eexists. split; reflexivity.
  - apply for_each_inv in Hloose.
    destruct (Forall2_In_r _ _ _ _ Hloose Ht) as (sp & _ & sa & sb & Hsp).
    exact (addLootToSpawnpoint_root _ _ _ _ _ Hsp).
Qed.

(** ** Seasonal items *)

Lemma filter_throwing_all {A : Type} (p : A -> Outcome bool) (l : list A) :
  (forall x, In x l -> p x = Ok true) -> filter_throwing p l = Ok l.
Proof.
  induction l as [|a l IH]; simpl; intros H; [reflexivity|].
  rewrite (H a (or_introl eq_refl)), IH by auto. reflexivity.
Qed.

Lemma filter_throwing_TypeError {A : Type} (p : A -> Outcome bool) (l : list A) :
  (forall x e, p x = Throw e -> e = TypeError) ->
  (exists x e, In x l /\ p x = Throw e) ->
  filter_throwing p l = Throw TypeError.
Proof.
  intros Honly. induction l as [|a l IH]; intros (x & e & Hx & Hp);
    [contradiction|].
  simpl. destruct (p a) as [b|e'] eqn:Ea.
  - destruct Hx as [->|Hx]; [congruence|].
    rewrite IH by eauto. reflexivity.
  - rewrite (Honly _ _ Ea). reflexivity.
Qed.

(** X15: [getPossibleLootItemsForContainer] leaves the state alone and throws
    [TypeError] for a container type the loot table does not know.  Otherwise
    the pool holds, with their weights, the rows of the item distribution:
    all of them while a seasonal event is on, and all but the seasonal items
    while none is. *)
Theorem container_pool_leaves_out_seasonal_items (containerTypeId : string)
  (staticLootDist : Record_ IStaticLootDetails.t) (s : State World) :
  match rec_get staticLootDist containerTypeId with
  | None =>
      getPossibleLootItemsForContainer containerTypeId staticLootDist s =
      (Throw TypeError, s)
  | Some details =>
      exists pool,
        getPossibleLootItemsForContainer containerTypeId staticLootDist s =
          (Ok pool, s) /\
        (seasonalEventEnabled = true ->
         map (fun o => (ProbabilityObject.key o,
                        ProbabilityObject.relativeProbability o)) pool =
         IStaticLootDetails.itemDistribution details) /\
        forall tpl weight,
          In (ProbabilityObject.mk tpl weight None) pool <->
          In (tpl, weight) (IStaticLootDetails.itemDistribution details) /\
          (seasonalEventEnabled = true \/
           includes getAllSeasonalEventItems tpl = false)
  end.
Proof.
  unfold getPossibleLootItemsForContainer, bind, defined.
  destruct (rec_get staticLootDist containerTypeId) as [details|]; [|reflexivity].
  unfold ret. eexists. split; [reflexivity|]. split.
  - intros Hon. rewrite Hon. simpl. rewrite map_map. simpl.
    induction (IStaticLootDetails.itemDistribution details) as [|[tpl w] rows IH];
      simpl; [reflexivity|]. rewrite IH. reflexivity.
  - intros tpl weight. rewrite in_map_iff. split.
    + intros ([tpl' w'] & Heq & Hin). inversion Heq; subst.
      apply filter_In in Hin. destruct Hin as [Hin Hkeep]. split; [exact Hin|].
      simpl in Hkeep. destruct seasonalEventEnabled; [auto|].
      simpl in Hkeep. right. apply negb_true_iff in Hkeep. exact Hkeep.
    + intros [Hin Hkeep]. exists (tpl, weight). split; [reflexivity|].
      apply filter_In. split; [exact Hin|]. simpl.
      destruct Hkeep as [E|E]; rewrite E; [reflexivity|].
      rewrite andb_false_r. reflexivity.
Qed.

(** X16: the item keys of a spawn point.  While a seasonal event is on,
    [spawnPointItemArray] returns every row of the distribution and never
    looks at the template.  While none is on, every key is looked up among
    the items of the template: a key without item makes it throw
    [TypeError], and what it returns holds exactly the rows whose item is not
    a seasonal item. *)
Theorem spawnpoint_item_keys (spawnPoint : Spawnpoint.t) :
  let items := SpawnpointTemplate.Items (Spawnpoint.template spawnPoint) in
  let rows := Spawnpoint.itemDistribution spawnPoint in
  (seasonalEventEnabled = true -> spawnPointItemArray spawnPoint = Ok rows) /\
  (seasonalEventEnabled = false ->
   (exists row, In row rows /\ find_item (id_is (Some (fst row))) items = None) ->
   spawnPointItemArray spawnPoint = Throw TypeError) /\
  (seasonalEventEnabled = false ->
   forall kept,
     spawnPointItemArray spawnPoint = Ok kept ->
     forall row,
       In row kept <->
       In row rows /\
       exists item,
         find_item (id_is (Some (fst row))) items = Some item /\
         includes getAllSeasonalEventItems (Item._tpl item) = false).
Proof.
  intros items rows. unfold spawnPointItemArray. fold items rows.
  split; [|split].
  - intros Hon. rewrite Hon. simpl. apply filter_throwing_all. reflexivity.
  - intros Hoff (row & Hrow & Hnone). rewrite Hoff. simpl.
    apply filter_throwing_TypeError.
    + intros x e H.
      destruct (find_item (id_is (Some (fst x))) items); [discriminate|].
      inversion H. reflexivity.
    + exists row, TypeError. rewrite Hnone. auto.
  - intros Hoff kept Hkept row. rewrite Hoff in Hkept. simpl in Hkept.
    rewrite (filter_throwing_In _ _ _ Hkept row). split.
    + intros [Hrow Hkeep]. split; [exact Hrow|].
      destruct (find_item (id_is (Some (fst row))) items) as [item|];
        [|discriminate].
      exists item. split; [reflexivity|]. injection Hkeep as E.
      apply negb_true_iff in E. exact E.
    + intros (Hrow & item & Hitem & Hseasonal). split; [exact Hrow|].
      rewrite Hitem, Hseasonal. reflexivity.
Qed.

(** X17: [createDynamicLootItem] needs the chosen key to name an item of the
    template of the spawn point: for a key that names none, an undefined key
    included, it throws [TypeError] and leaves the state alone.  What it
    returns is never empty, and its size is the one [getItemSize] reports
    for the items under the id of the first. *)
Theorem dynamic_item_needs_its_key (chosenComposedKey : option string)
  (spawnPoint : Spawnpoint.t) (staticAmmoDist : StaticAmmoDist) (s : State World) :
  match find_item (id_is chosenComposedKey)
          (SpawnpointTemplate.Items (Spawnpoint.template spawnPoint)) with
  | None =>
      createDynamicLootItem chosenComposedKey spawnPoint staticAmmoDist s =
      (Throw TypeError, s)
  | Some chosenItem =>
      chosenComposedKey = Some (Item._id chosenItem) /\
      forall created s',
        createDynamicLootItem chosenComposedKey spawnPoint staticAmmoDist s =
          (Ok created, s') ->
        exists first others,
          IContainerItem.items created = first :: others /\
          (IContainerItem.width created, IContainerItem.height created) =
          getItemSize (IContainerItem.items created) (Item._id first)
  end.
Proof.
  unfold createDynamicLootItem.
  destruct (find_item _ _) as [chosenItem|] eqn:Efind; [|reflexivity].
  split.
  - unfold find_item in Efind. apply find_some in Efind. destruct Efind as [_ E].
    unfold id_is in E. destruct chosenComposedKey as [k|]; [|discriminate].
    apply String.eqb_eq in E. congruence.
  - intros created s' H.
    apply bind_ok_inv in H. destruct H as (chosen & s1 & Hchosen & H).
    apply bind_ok_inv in H. destruct H as (itemWithMods & s2 & _ & H).
    apply bind_ok_inv in H. destruct H as (first & s3 & Hfirst & H).
    unfold ret in H. inversion H; subst. simpl.
    destruct itemWithMods as [|f others]; [discriminate|].
    unfold defined, ret in Hfirst. simpl in Hfirst. inversion Hfirst; subst.
    exists first, others. split; [reflexivity|].
    destruct (getItemSize _ _). reflexivity.
Qed.

(** ** Sorting the spawn points *)

(** X18: the loop of [generateDynamicLoot] over the spawn points never throws
    and never touches the world.  It logs one debug line per blacklisted spawn
    point, in the order of the table, and sorts the others: those with
    probability 1 are kept as guaranteed, the rest enter the weighted pool
    under their template id, with their probability as weight and themselves
    as payload.  No spawn point is lost and none is counted twice. *)
Theorem spawnpoints_are_sorted_once (blacklistedPoints : option (list string))
  (allDynamicSpawnpoints : list Spawnpoint.t) (s : State World) :
  let id sp := SpawnpointTemplate.Id (Spawnpoint.template sp) in
  let off sp := opt_includes blacklistedPoints (id sp) in
  let always sp := is_one (Spawnpoint.probability sp) in
  let guaranteed :=
    filter (fun sp => negb (off sp) && always sp) allDynamicSpawnpoints in
  let pooled :=
    filter (fun sp => negb (off sp) && negb (always sp)) allDynamicSpawnpoints in
  classifySpawnpoints blacklistedPoints allDynamicSpawnpoints s =
  (Ok (guaranteed,
       map (fun sp =>
              ProbabilityObject.mk (id sp) (Spawnpoint.probability sp) (Some sp))
         pooled),
   mkState (world s)
     (logs s ++
      map (fun sp => (LogDebug, IgnoringLooseLootLocation (id sp)))
        (filter off allDynamicSpawnpoints))) /\
  (List.length (filter off allDynamicSpawnpoints) + List.length guaranteed +
   List.length pooled = List.length allDynamicSpawnpoints)%nat.
Proof.
  intros id off always. cbv zeta. split.
  - revert s. induction allDynamicSpawnpoints as [|sp rest IH]; intros s.
    + simpl. rewrite app_nil_r. destruct s. reflexivity.
    + simpl. fold (id sp). fold (off sp). destruct (off sp) eqn:Eoff; simpl.
      * unfold bind at 1, logger at 1. rewrite IH. simpl.
        rewrite <- app_assoc. reflexivity.
      * unfold bind. rewrite IH. fold (always sp).
        destruct (always sp); reflexivity.
  - induction allDynamicSpawnpoints as [|sp rest IH]; simpl; [reflexivity|].
    destruct (off sp), (always sp); simpl; lia.
Qed.

End Extras.

(** * The further properties on concrete maps *)

(** X1 on a weapon with two attachments. *)
Lemma reparent_witness :
  exists out,
    reparentItemAndChildren (services := Scenario.randomised) Scenario.weaponTree
      (Scenario.start []) = (Ok out, mkState (Fixture.mkWorld [] 1) []) /\
    map Item._id out = ["id0"; "w1"; "w2"] /\
    map Item.parentId out = [None; Some "id0"; Some "w1"].
Proof.
  destruct (reparent_keeps_parent_links (services := Scenario.randomised)
              Scenario.weaponTree (Scenario.node "w0" "gun" None)
              [Scenario.node "w1" "small" (Some "w0");
               Scenario.node "w2" "small" (Some "w1")]
              (Scenario.start []) eq_refl)
    as (out & Hrun & _ & Hids & _).
  exists out. split; [exact Hrun|]. split; [exact Hids|].
  vm_compute in Hrun. inversion Hrun. reflexivity.
Defined.

(** X3, X4 and X5 on a map with one declared group. *)
Lemma declared_groups_witness :
  exists mapping ungrouped,
    fst (getGroupIdToContainerMappings (services := Scenario.randomised)
           Scenario.groupedStatics Scenario.twoCrates (Scenario.start [])) =
      Ok mapping /\
    Object_keys mapping = ["group1"; ""] /\
    rec_get mapping "" = Some ungrouped /\
    IContainerGroupCount.chosenCount ungrouped = -1.
Proof.
  destruct (getGroupIdToContainerMappings (services := Scenario.randomised)
              Scenario.groupedStatics Scenario.twoCrates (Scenario.start []))
    as [o s'] eqn:E.
  assert (Hok : exists mapping, o = Ok mapping /\
                                Object_keys mapping = ["group1"; ""]).
  { vm_compute in E. inversion E. eexists. split; reflexivity. }
  destruct Hok as (mapping & -> & Hkeys).
  destruct (mapping_has_declared_groups_and_ungrouped
              (services := Scenario.randomised) _ _ _ _ _ E)
    as (_ & _ & ungrouped & Hget & Hcount).
  exists mapping, ungrouped. auto.
Defined.

Lemma group_pools_witness :
  exists container,
    In container Scenario.twoCrates /\
    SpawnpointTemplate.Id (IStaticContainerData.template container) = "c3" /\
    IStaticContainerData.probability container = (1 # 4)%Q.
Proof.
  destruct (getGroupIdToContainerMappings (services := Scenario.randomised)
              Scenario.groupedStatics Scenario.twoCrates (Scenario.start []))
    as [o s'] eqn:E.
  assert (Hok : exists mapping,
             o = Ok mapping /\
             In ("", IContainerGroupCount.mk [("c3", (1 # 4)%Q)] (-1)) mapping).
  { vm_compute in E. inversion E. eexists. split; [reflexivity|]. simpl. auto. }
  destruct Hok as (mapping & -> & Hin).
  destruct (group_pools_hold_listed_containers
              (services := Scenario.randomised) _ _ _ _ _ E
              "" _ "c3" (1 # 4)%Q Hin (or_introl eq_refl))
    as (_ & container & Hc & Hid & Hp & _).
  exists container. auto.
Defined.

Lemma containers_reach_their_group_witness :
  exists mapping data,
    fst (getGroupIdToContainerMappings (services := Scenario.randomised)
           Scenario.groupedStatics Scenario.twoCrates (Scenario.start [])) =
      Ok mapping /\
    rec_get mapping "group1" = Some data /\
    In "c2" (Object_keys (IContainerGroupCount.containerIdsWithProbability data)).
Proof.
  destruct (getGroupIdToContainerMappings (services := Scenario.randomised)
              Scenario.groupedStatics Scenario.twoCrates (Scenario.start []))
    as [o s'] eqn:E.
  assert (Hok : exists mapping, o = Ok mapping).
  { vm_compute in E. inversion E. eauto. }
  destruct Hok as (mapping & ->).
  destruct (containers_reach_their_group
              (services := Scenario.randomised) _ _ _ _ _ E
              (Scenario.container "c2" (1 # 2) false) "group1")
    as (data & Hdata & Hid).
  - simpl. auto.
  - reflexivity.
  - reflexivity.
  - exists mapping, data. auto.
Defined.

(** X6 on a crate whose group is not declared. *)
Lemma undeclared_group_witness :
  fst (getGroupIdToContainerMappings (services := Scenario.randomised)
         Scenario.groupedStatics [Scenario.container "c4" (1 # 2) false]
         (Scenario.start [])) = Throw TypeError.
Proof.
  destruct (undeclared_group_throws (services := Scenario.randomised)
              Scenario.groupedStatics [Scenario.container "c4" (1 # 2) false]
              (Scenario.container "c4" (1 # 2) false) "group9" (Scenario.start []))
    as (s' & H).
  - simpl. auto.
  - reflexivity.
  - reflexivity.
  - discriminate.
  - simpl. intuition discriminate.
  - rewrite H. reflexivity.
Defined.

(** X7 on the first crate of Customs. *)
Lemma filled_container_witness :
  exists filled,
    fst (addLootToContainer (services := Scenario.randomised)
           (Scenario.container "c1" 1 false) (Some [])
           [("crate", Scenario.crateLoot ["small"])] [] "bigmap"
           (Scenario.start [])) = Ok filled /\
    SpawnpointTemplate.Id (IStaticContainerData.template filled) = "c1" /\
    SpawnpointTemplate.Root (IStaticContainerData.template filled) = "id0".
Proof.
  destruct (addLootToContainer (services := Scenario.randomised)
              (Scenario.container "c1" 1 false) (Some [])
              [("crate", Scenario.crateLoot ["small"])] [] "bigmap"
              (Scenario.start [])) as [o s'] eqn:E.
  assert (Hok : exists filled, o = Ok filled).
  { vm_compute in E. inversion E. eauto. }
  destruct Hok as (filled & ->).
  destruct (filled_container_keeps_identity (services := Scenario.randomised)
              _ _ _ _ _ _ _ _ E) as (_ & Hid & _ & Hroot & _).
  exists filled. split; [reflexivity|]. split; [exact Hid | exact Hroot].
Defined.

(** X8 on Customs with randomisation on. *)
Lemma static_result_witness :
  exists result,
    fst (generateStaticContainers (services := Scenario.randomised)
           Scenario.customs [] (Scenario.start [])) = Ok result /\
    forall t, In t result ->
      exists c, In c Scenario.threeCrates /\
                SpawnpointTemplate.Id t =
                SpawnpointTemplate.Id (IStaticContainerData.template c).
Proof.
  destruct (generateStaticContainers (services := Scenario.randomised)
              Scenario.customs [] (Scenario.start [])) as [o s'] eqn:E.
  assert (Hok : exists result, o = Ok result).
  { vm_compute in E. inversion E. eauto. }
  destruct Hok as (result & ->).
  destruct (static_result_holds_only_listed_containers
              (services := Scenario.randomised) _ _ _ _ _ E)
    as (all & filled & Hall & -> & Hfilled).
  vm_compute in Hall. inversion Hall; subst all.
  exists filled. split; [reflexivity|]. intros t Ht.
  destruct (Hfilled t Ht) as (c & c' & s1 & s2 & first & others & Hc & _ & _ & Hid & _).
  exists c. auto.
Defined.

(** X9 on Customs without its forced-loot table. *)
Lemma missing_forced_table_witness :
  exists e,
    fst (generateStaticContainers (services := Scenario.withoutForced)
           Scenario.customs [] (Scenario.start [])) = Throw e.
Proof.
  destruct (missing_forced_table_throws (services := Scenario.withoutForced)
              Scenario.customs [] Scenario.threeCrates
              (Scenario.container "c1" 1 false) (Scenario.start []))
    as (_ & e & s' & H).
  - reflexivity.
  - reflexivity.
  - simpl. auto.
  - reflexivity.
  - exists e. rewrite H. reflexivity.
Defined.

(** X10 on a database without group data. *)
Lemma missing_group_data_witness :
  exists e,
    fst (generateStaticContainers (services := Scenario.withoutGroupData)
           Scenario.customs [] (Scenario.start [])) = Throw e.
Proof.
  destruct (missing_group_data_throws (services := Scenario.withoutGroupData)
              Scenario.customs [] (Scenario.start []))
    as (e & s' & H).
  - reflexivity.
  - reflexivity.
  - exists e. rewrite H. reflexivity.
Defined.

(** X12 and X14 on the loose loot of the map with a blacklist. *)
Lemma distinct_locations_witness :
  exists chosen,
    fst (chosenSpawnpointsOf (services := Scenario.withBlacklist)
           Scenario.looseLoot "bigmap" (Scenario.start [])) = Ok chosen /\
    NoDup (map Spawnpoint.locationId chosen).
Proof.
  destruct (chosenSpawnpointsOf (services := Scenario.withBlacklist)
              Scenario.looseLoot "bigmap" (Scenario.start [])) as [o s'] eqn:E.
  assert (Hok : exists chosen, o = Ok chosen).
  { vm_compute in E. inversion E. eauto. }
  destruct Hok as (chosen & ->).
  destruct (chosen_spawnpoints_have_distinct_locations
              (services := Scenario.withBlacklist) _ _ _ _ _ E) as [Hnd _].
  exists chosen. auto.
Defined.

Lemma loose_loot_roots_witness :
  exists loot,
    fst (generateDynamicLoot (services := Scenario.withBlacklist)
           Scenario.looseAndForced [] "bigmap" (Scenario.start [])) = Ok loot /\
    List.length loot = 3%nat /\
    forall t, In t loot ->
      exists first others,
        SpawnpointTemplate.Items t = first :: others /\
        SpawnpointTemplate.Root t = Item._id first.
Proof.
  destruct (generateDynamicLoot (services := Scenario.withBlacklist)
              Scenario.looseAndForced [] "bigmap" (Scenario.start []))
    as [o s'] eqn:E.
  assert (Hok : exists loot, o = Ok loot /\ List.length loot = 3%nat).
  { vm_compute in E. inversion E. eexists. split; reflexivity. }
  destruct Hok as (loot & -> & Hlen).
  exists loot. split; [reflexivity|]. split; [exact Hlen|].
  exact (loose_loot_roots_name_first_item (services := Scenario.withBlacklist)
           _ _ _ _ _ _ E).
Defined.

(** X13 on two forced spawn points of a map without single-spawn list. *)
Lemma forced_loot_witness :
  exists out,
    fst (addForcedLoot (services := Scenario.withBlacklist) Scenario.forcedPoints
           "bigmap" (Scenario.start [])) = Ok out /\
    map SpawnpointTemplate.Id out = ["quest1"; "quest2"].
Proof.
  destruct (addForcedLoot (services := Scenario.withBlacklist)
              Scenario.forcedPoints "bigmap" (Scenario.start []))
    as [o s'] eqn:E.
  assert (Hok : exists out, o = Ok out).
  { vm_compute in E. inversion E. eauto. }
  destruct Hok as (out & ->).
  destruct (forced_loot_is_emitted_as_listed (services := Scenario.withBlacklist)
              _ _ _ _ _ E) as (once & remaining & -> & Hnone & _ & Hremaining).
  rewrite (Hnone eq_refl). simpl app.
  exists remaining. split; [reflexivity|].
  change (filter _ Scenario.forcedPoints) with Scenario.forcedPoints in Hremaining.
  inversion Hremaining as [|x1 t1 l1 r1 H1 Hrest]; subst.
  inversion Hrest as [|x2 t2 l2 r2 H2 Hnil]; subst.
  inversion Hnil; subst.
  destruct H1 as (f1 & o1 & _ & Hid1 & _). destruct H2 as (f2 & o2 & _ & Hid2 & _).
  simpl. rewrite Hid1, Hid2. reflexivity.
Defined.

(** X2 on the crate, whose grid is two by two. *)
Lemma container_grid_witness :
  getContainerMapping (services := Scenario.randomised) "crate" (Scenario.start []) =
  (Ok Scenario.emptyCrate, Scenario.start []).
Proof.
  pose proof (container_grid_of_template (services := Scenario.randomised)
                "crate" (Scenario.start [])) as H.
  assert (E : getItem (Services := Scenario.randomised) "crate" =
              Some (Scenario.template 2 2 [(2, 2)])) by reflexivity.
  rewrite E in H.
  cbv beta iota delta [ITemplateItem.Grids Scenario.template] in H.
  destruct H as [_ H].
  assert (Hheight : 0 <= 2 < 2 ^ 32) by lia.
  assert (Hwidth : 2 = 0 \/ 0 <= 2 < 2 ^ 32) by (right; lia).
  destruct (H Hheight Hwidth) as (grid & Hrun & _). rewrite Hrun.
  vm_compute in Hrun. inversion Hrun. reflexivity.
Defined.

(** X15 outside the event: of a small and a big item only the small one
    enters the pool of the crate. *)
Lemma container_pool_witness :
  exists pool,
    getPossibleLootItemsForContainer (services := Scenario.bigIsSeasonal) "crate"
      [("crate", Scenario.crateLoot ["small"; "big"])] (Scenario.start []) =
      (Ok pool, Scenario.start []) /\
    In (ProbabilityObject.mk "small" 1%Q None) pool /\
    ~ In (ProbabilityObject.mk "big" 1%Q None) pool.
Proof.
  pose proof (container_pool_leaves_out_seasonal_items
                (services := Scenario.bigIsSeasonal) "crate"
                [("crate", Scenario.crateLoot ["small"; "big"])]
                (Scenario.start [])) as H.
  assert (E : rec_get [("crate", Scenario.crateLoot ["small"; "big"])] "crate" =
              Some (Scenario.crateLoot ["small"; "big"])) by reflexivity.
  rewrite E in H. destruct H as (pool & Hrun & _ & Hmem).
  exists pool. split; [exact Hrun|]. split.
  - apply Hmem. split; [simpl; auto | right; reflexivity].
  - intros Hin. apply Hmem in Hin. destruct Hin as [_ [Hon | Hnot]]; discriminate.
Defined.

(** X16 outside the event: the key of the big item is left out. *)
Lemma spawnpoint_item_keys_witness :
  exists kept,
    spawnPointItemArray (services := Scenario.bigIsSeasonal) Scenario.mixedPoint =
      Ok kept /\
    In ("k1", 1%Q) kept /\ ~ In ("k2", 1%Q) kept.
Proof.
  destruct (spawnpoint_item_keys (services := Scenario.bigIsSeasonal)
              Scenario.mixedPoint) as (_ & _ & Hkept).
  exists [("k1", 1%Q)]. split; [reflexivity|].
  specialize (Hkept eq_refl [("k1", 1%Q)] eq_refl). split.
  - apply Hkept. split; [simpl; auto|].
    exists (Scenario.node "k1" "small" None). split; reflexivity.
  - intros Hin. apply Hkept in Hin.
    destruct Hin as (_ & item & Hfind & Hseasonal).
    vm_compute in Hfind. inversion Hfind; subst item. discriminate.
Defined.

(** X17 on a spawn point with one item: its key gives an item, another key
    and the undefined key throw. *)
Lemma dynamic_item_witness :
  (exists created s',
     createDynamicLootItem (services := Scenario.withBlacklist) (Some "k1")
       Scenario.freePoint [] (Scenario.start []) = (Ok created, s') /\
     IContainerItem.items created <> []) /\
  createDynamicLootItem (services := Scenario.withBlacklist) None
    Scenario.freePoint [] (Scenario.start []) =
    (Throw TypeError, Scenario.start []).
Proof.
  split.
  - pose proof (dynamic_item_needs_its_key (services := Scenario.withBlacklist)
                  (Some "k1") Scenario.freePoint [] (Scenario.start [])) as H.
    assert (E : find_item (id_is (Some "k1"))
                  (SpawnpointTemplate.Items (Spawnpoint.template Scenario.freePoint)) =
                Some (Scenario.node "k1" "small" None)) by reflexivity.
    rewrite E in H. destruct H as [_ H].
    destruct (createDynamicLootItem (services := Scenario.withBlacklist) (Some "k1")
                Scenario.freePoint [] (Scenario.start [])) as [o s'] eqn:Hrun.
    assert (Hok : exists created, o = Ok created).
    { vm_compute in Hrun. inversion Hrun. eauto. }
    destruct Hok as (created & ->).
    destruct (H created s' eq_refl) as (first & others & Hitems & _).
    exists created, s'. split; [reflexivity|]. rewrite Hitems. discriminate.
  - exact (dynamic_item_needs_its_key (services := Scenario.withBlacklist)
             None Scenario.freePoint [] (Scenario.start [])).
Defined.
